(** * Lyric_sync: timed-lyrics formatter, parser, playback sync and upload loop

    A shallow embedding of [app.py].

    Modelling conventions.
    - A Python [str] is a [string]: a sequence of code points below 256
      (the Latin-1 part of Unicode).  The tables of digits, of white space
      and of line boundaries below are Python's, restricted to that range.
    - A Python [float] that holds a time is modelled by its exact rational
      value, kept in lowest terms ([Qred]), and the operations on floats by
      the exact operations on these values.  On binary64 values the
      comparisons, [min], the [f] presentation and, from 0 up to 2^53,
      [divmod(x, 60)] are exact, so the model agrees with Python on them;
      the properties that show the digits written from a quotient or a
      remainder are stated on that range ([exact_range]).
      NaN, the infinities and the rounding of binary64 are outside the
      model: where Python rounds the result of a division, of a sum, of a
      difference or of the reading of a decimal numeral to the nearest
      binary64 value, the model keeps the exact result.  Where a property
      shows a value computed with such an operation
      ([int(minutes) * 60 + float(seconds)], [elapsed / duration]), it shows
      the exact value of that expression; Python's value is the binary64
      value nearest to it.
    - A Python exception is a [Raise] result.
    - The external collaborators of the upload code (file system, metadata
      readers, transcription model) are the fields of a record; what the
      user interface is told is kept in a log of events.  Two calls of the
      user interface can refuse their arguments, and these are modelled: the
      progress bar takes a value from 0.0 to 1.0, and a button without key
      must not repeat the label of another button of the same run. *)

From Stdlib Require Import ZArith QArith Qround Qabs Qminmax String Ascii List Bool Lia Lqa Morphisms.
Import ListNotations.

Local Open Scope string_scope.
Local Open Scope Z_scope.

(** ** Exceptions *)

Inductive exn : Type :=
| ValueError (msg : string)
| ZeroDivisionError (msg : string)
| IndexError (msg : string)
| StreamlitAPIException (msg : string)
| OtherError (msg : string).

Inductive Res (A : Type) : Type :=
| Ok (a : A)
| Raise (e : exn).
Arguments Ok {A} a.
Arguments Raise {A} e.

Definition bind {A B : Type} (r : Res A) (k : A -> Res B) : Res B :=
  match r with
  | Ok a => k a
  | Raise e => Raise e
  end.

Notation "x <- r ;; k" := (bind r (fun x => k))
  (at level 61, r at next level, right associativity).

(** [str(e)] of an exception, as shown by [st.sidebar.error]. *)
Definition exn_message (e : exn) : string :=
  match e with
  | ValueError m | ZeroDivisionError m | IndexError m
  | StreamlitAPIException m | OtherError m => m
  end.

(** ** Characters *)

Definition code (c : ascii) : Z := Z.of_N (N_of_ascii c).

Definition chr (n : Z) : ascii := ascii_of_N (Z.to_N n).

(** [\d] on code points below 256: the ASCII digits. *)
Definition is_digit (c : ascii) : bool :=
  (48 <=? code c) && (code c <=? 57).

(** [str.isspace] on code points below 256:
    TAB LF VT FF CR, FS GS RS US, SPACE, NEL and NBSP. *)
Definition is_space (c : ascii) : bool :=
  let n := code c in
  ((9 <=? n) && (n <=? 13)) || ((28 <=? n) && (n <=? 32))
  || (n =? 133) || (n =? 160).

(** Line boundaries of [str.splitlines] below 256:
    LF VT FF CR, FS GS RS and NEL. *)
Definition is_linebreak (c : ascii) : bool :=
  let n := code c in
  ((10 <=? n) && (n <=? 13)) || ((28 <=? n) && (n <=? 30)) || (n =? 133).

Definition LF : ascii := chr 10.
Definition CR : ascii := chr 13.

Definition digit_char (d : Z) : ascii := chr (48 + d).
Definition digit_val (c : ascii) : Z := code c - 48.

(** ** String operations of the Python library *)

Fixpoint lstrip (s : string) : string :=
  match s with
  | EmptyString => EmptyString
  | String c s' => if is_space c then lstrip s' else s
  end.

Fixpoint rstrip (s : string) : string :=
  match s with
  | EmptyString => EmptyString
  | String c s' =>
      match rstrip s' with
      | EmptyString => if is_space c then EmptyString else String c EmptyString
      | r => String c r
      end
  end.

(** [s.strip()] *)
Definition strip (s : string) : string := rstrip (lstrip s).

(** [sep.join(parts)] *)
Fixpoint join (sep : string) (parts : list string) : string :=
  match parts with
  | [] => EmptyString
  | [p] => p
  | p :: rest => p ++ sep ++ join sep rest
  end.

(** [s.splitlines()]: [cur] is the line being read, [None] between lines.
    CR LF counts as one boundary; a final line needs no boundary; the empty
    string has no line. *)
Fixpoint splitlines_from (cur : option string) (s : string) : list string :=
  match s with
  | EmptyString =>
      match cur with
      | None => []
      | Some l => [l]
      end
  | String c s' =>
      let l := match cur with None => EmptyString | Some l => l end in
      if is_linebreak c then
        l :: match s' with
             | String c' s'' =>
                 if (Ascii.eqb c CR && Ascii.eqb c' LF)%bool
                 then splitlines_from None s''
                 else splitlines_from None s'
             | EmptyString => []
             end
      else splitlines_from (Some (l ++ String c EmptyString)) s'
  end.

Definition splitlines (s : string) : list string := splitlines_from None s.

Fixpoint all_chars (p : ascii -> bool) (s : string) : bool :=
  match s with
  | EmptyString => true
  | String c s' => p c && all_chars p s'
  end.

(** The longest prefix of [s] that [.*] matches: [.] is any character but LF. *)
Fixpoint dot_star (s : string) : string :=
  match s with
  | EmptyString => EmptyString
  | String c s' => if Ascii.eqb c LF then EmptyString else String c (dot_star s')
  end.

(** ** Decimal digits *)

(** The decimal digits of [n >= 0], most significant first, in front of
    [acc]. *)
Fixpoint digits_fuel (fuel : nat) (n : Z) (acc : string) : string :=
  let acc' := String (digit_char (n mod 10)) acc in
  match fuel with
  | O => acc'
  | S f => if n <? 10 then acc' else digits_fuel f (n / 10) acc'
  end.

Definition digits (n : Z) : string :=
  digits_fuel (Z.to_nat (Z.log2 n)) n EmptyString.

Fixpoint zeros (k : nat) : string :=
  match k with
  | O => EmptyString
  | S k' => String "0"%char (zeros k')
  end.

(** Sign-aware zero padding to [width] characters (fill [0], align [=]). *)
Definition zero_pad (width : nat) (negative : bool) (body : string) : string :=
  let sign := if negative then "-" else EmptyString in
  sign ++ zeros (width - String.length sign - String.length body) ++ body.

(** [f"{n:02d}"] *)
Definition fmt_02d (n : Z) : string :=
  zero_pad 2 (n <? 0) (digits (Z.abs n)).

(** The value of a string of digits read left to right. *)
Fixpoint digits_value (acc : Z) (s : string) : Z :=
  match s with
  | EmptyString => acc
  | String c s' => digits_value (10 * acc + digit_val c) s'
  end.

(** [int(s)] on a non-empty string of digits; the model raises on every other
    string, which covers all strings on which [int] raises. *)
Definition py_int_of_str (s : string) : Res Z :=
  match s with
  | EmptyString => Raise (ValueError "invalid literal for int()")
  | _ => if all_chars is_digit s then Ok (digits_value 0 s)
         else Raise (ValueError "invalid literal for int()")
  end.


(** ** Float arithmetic on exact values *)

Definition Qltb (a b : Q) : bool := negb (Qle_bool b a).

(** [divmod(x, y)] on floats: floored quotient and the remainder with the
    sign of [y], both exact.  With [y = 60] and [x] from 0 up to, but not
    including, 2^53 they are exact in binary64 as well; outside that range
    Python rounds them. *)
Definition py_divmod (x y : Q) : Res (Q * Q) :=
  if Qeq_bool y 0 then Raise (ZeroDivisionError "float divmod()")
  else let d := Qfloor (x / y) in
       Ok (inject_Z d, Qred (x - inject_Z d * y)).

(** [int(x)] on a float: truncation toward zero. *)
Definition py_int (x : Q) : Z :=
  if Qle_bool 0 x then Qfloor x else Qceiling x.

(** [a / b] on floats. *)
Definition py_truediv (a b : Q) : Res Q :=
  if Qeq_bool b 0 then Raise (ZeroDivisionError "float division by zero")
  else Ok (Qred (a / b)).

(** [min(a, b)]: the first of the smallest arguments. *)
Definition py_min (a b : Q) : Q := if Qltb b a then b else a.

(** Nearest integer, ties to the even one: the rounding of the [f]
    presentation type, which works on the exact value of the float. *)
Definition round_half_even (q : Q) : Z :=
  let f := Qfloor q in
  match (q - inject_Z f ?= 1 # 2)%Q with
  | Lt => f
  | Gt => f + 1
  | Eq => if Z.even f then f else f + 1
  end.

Definition two_digits (k : Z) : string :=
  String (digit_char (k / 10)) (String (digit_char (k mod 10)) EmptyString).

(** [f"{x:05.2f}"] *)
Definition fmt_05_2f (x : Q) : string :=
  let n := round_half_even (Qabs x * 100) in
  zero_pad 5 (Qltb x 0) (digits (n / 100) ++ "." ++ two_digits (n mod 100)).

(** The part of [s] before its first dot, and the part after it. *)
Fixpoint split_dot (s : string) : option (string * string) :=
  match s with
  | EmptyString => None
  | String c s' =>
      if Ascii.eqb c "." then Some (EmptyString, s')
      else match split_dot s' with
           | Some (a, b) => Some (String c a, b)
           | None => None
           end
  end.

Definition nonempty_digits (s : string) : bool :=
  match s with
  | EmptyString => false
  | _ => all_chars is_digit s
  end.

(** [float(s)] on digits, a dot, digits; the model raises on every other
    string, which covers all strings on which [float] raises.  The result is
    the value of the decimal numeral; Python's is the binary64 value nearest
    to it. *)
Definition py_float_of_str (s : string) : Res Q :=
  match split_dot s with
  | Some (ip, fp) =>
      if nonempty_digits ip && nonempty_digits fp
      then Ok (Qred (digits_value 0 (ip ++ fp)
                     # Z.to_pos (10 ^ Z.of_nat (String.length fp))))
      else Raise (ValueError "could not convert string to float")
  | None => Raise (ValueError "could not convert string to float")
  end.

(** ** Formatter: [generate_lrc_content] *)

Record segment : Type := Segment { start : Q; text : string }.

Definition newline : string := String LF EmptyString.

(** One pass of the loop body: the line appended for [seg]. *)
Definition lrc_line (seg : segment) : Res string :=
  ms <- py_divmod (start seg) 60 ;;
  let (minutes, seconds) := ms in
  Ok ("[" ++ fmt_02d (py_int minutes) ++ ":" ++ fmt_05_2f seconds ++ "]"
      ++ strip (text seg)).

Fixpoint generate_lrc_lines (segments : list segment) (lrc_lines : list string)
  : Res (list string) :=
  match segments with
  | [] => Ok lrc_lines
  | seg :: rest =>
      l <- lrc_line seg ;;
      generate_lrc_lines rest (lrc_lines ++ [l])
  end.

Definition generate_lrc_content (segments : list segment) : Res string :=
  lrc_lines <- generate_lrc_lines segments [] ;;
  Ok (join newline lrc_lines).

(** ** Parser: [parse_lrc] *)

(** [re.match] of a line against the pattern of a lyric line: an opening
    bracket, two digits, a colon, two digits, a dot, two digits, a closing
    bracket, then as many characters as the dot matches.  The result holds
    the three groups (minutes, seconds, text). *)
Definition re_match_lrc (line : string) : option (string * string * string) :=
  match line with
  | String b (String m1 (String m2 (String co (String s1 (String s2
      (String dt (String c1 (String c2 (String e rest))))))))) =>
      if Ascii.eqb b "[" && is_digit m1 && is_digit m2 && Ascii.eqb co ":"
         && is_digit s1 && is_digit s2 && Ascii.eqb dt "."
         && is_digit c1 && is_digit c2 && Ascii.eqb e "]"
      then Some (String m1 (String m2 EmptyString),
                 String s1 (String s2 (String dt (String c1 (String c2 EmptyString)))),
                 dot_star rest)
      else None
  | _ => None
  end.

Fixpoint parse_lrc_lines (lines : list string) (lyrics_data : list (Q * string))
  : Res (list (Q * string)) :=
  match lines with
  | [] => Ok lyrics_data
  | line :: rest =>
      match re_match_lrc line with
      | Some (minutes, seconds, txt) =>
          m <- py_int_of_str minutes ;;
          s <- py_float_of_str seconds ;;
          let time_in_seconds := Qred (inject_Z (m * 60) + s) in
          parse_lrc_lines rest (lyrics_data ++ [(time_in_seconds, txt)])
      | None => parse_lrc_lines rest lyrics_data
      end
  end.

Definition parse_lrc (lrc_text : string) : Res (list (Q * string)) :=
  parse_lrc_lines (splitlines lrc_text) [].

(** ** Playback sync: one pass of the polling loop *)

Record song : Type := Song {
  name : string;
  temp_audio_path : string;
  duration : Q;
  lrc_data : string
}.

(** [min(current_playback_time / song["duration"], 1.0)] *)
Definition progress (current_playback_time song_duration : Q) : Res Q :=
  q <- py_truediv current_playback_time song_duration ;;
  Ok (py_min q 1).

(** [f"{int(t // 60):02d}:{int(t % 60):02d}"] *)
Definition clock_label (t : Q) : Res string :=
  ms <- py_divmod t 60 ;;
  let (m, s) := ms in
  Ok (fmt_02d (py_int m) ++ ":" ++ fmt_02d (py_int s)).

(** The scan for the current lyric: it keeps the text of each line whose time
    has been reached and breaks at the first line whose time has not. *)
Fixpoint scan_lyrics (current_playback_time : Q) (lyrics_data : list (Q * string))
  (current_lyric : string) : string :=
  match lyrics_data with
  | [] => current_lyric
  | (time_sec, txt) :: rest =>
      if Qle_bool time_sec current_playback_time
      then scan_lyrics current_playback_time rest txt
      else current_lyric
  end.

Definition current_lyric (current_playback_time : Q)
  (lyrics_data : list (Q * string)) : string :=
  scan_lyrics current_playback_time lyrics_data EmptyString.

(** A line is marked when its text is the current lyric. *)
Definition highlighted (cur txt : string) : bool := String.eqb txt cur.

Definition render_line (cur txt : string) : string :=
  if highlighted cur txt
  then "<mark><b>" ++ txt ++ "</b></mark><br>"
  else "<span style='color: #888;'>" ++ txt ++ "</span><br>".

Fixpoint render_lyrics (cur : string) (lyrics_data : list (Q * string))
  (full_text_html : string) : string :=
  match lyrics_data with
  | [] => full_text_html
  | (_, txt) :: rest =>
      render_lyrics cur rest (full_text_html ++ render_line cur txt)
  end.

Definition full_text_html (cur : string) (lyrics_data : list (Q * string))
  : string :=
  render_lyrics cur lyrics_data EmptyString.

(** The highlight flag of every line of the track, in order. *)
Definition highlight_flags (cur : string) (lyrics_data : list (Q * string))
  : list bool :=
  map (fun l => highlighted cur (snd l)) lyrics_data.

(** The float written [1e-9]: 4835703278458517 / 2^82. *)
Definition tolerance : Q := 4835703278458517 # 4835703278458516698824704.

(** [math.isclose(a, b, rel_tol=1e-9, abs_tol=1e-9)] *)
Definition isclose (a b : Q) : bool :=
  Qle_bool (Qabs (a - b))
    (Qmax (tolerance * Qmax (Qabs a) (Qabs b)) tolerance).

(** [placeholder.progress(value, text=...)] with a float: the widget takes a
    value from 0.0 to 1.0, or one that [isclose] to one of the two bounds, and
    raises [StreamlitAPIException] (or a subclass of it) for any other.  The
    text of the message is the library's and is not part of the model. *)
Definition st_progress (value : Q) : Res unit :=
  if (Qle_bool 0 value && Qle_bool value 1) || isclose value 0 || isclose value 1
  then Ok tt
  else Raise (StreamlitAPIException "Progress Value has invalid value [0.0, 1.0]").

(** What one pass hands to the two placeholders. *)
Record frame : Type := Frame {
  frame_progress : Q;
  frame_label : string;
  frame_lyric : string;
  frame_html : string
}.

Definition sync_tick (s : song) (lyrics_data : list (Q * string))
  (start_time now : Q) : Res frame :=
  let current_playback_time := Qred (now - start_time) in
  p <- progress current_playback_time (duration s) ;;
  l1 <- clock_label current_playback_time ;;
  l2 <- clock_label (duration s) ;;
  _ <- st_progress p ;;
  let cur := current_lyric current_playback_time lyrics_data in
  Ok (Frame p (l1 ++ " / " ++ l2) cur
        ("<div style='font-size: 24px; font-weight: bold;'>"
         ++ full_text_html cur lyrics_data ++ "</div>")).

(** The loop [while True], run for the clock readings in [clock], one per
    pass, up to the pass at which the run is interrupted: the frames it
    renders, one per reading. *)
Fixpoint sync_passes (s : song) (lyrics_data : list (Q * string))
  (start_time : Q) (clock : list Q) : Res (list frame) :=
  match clock with
  | [] => Ok []
  | now :: later =>
      f <- sync_tick s lyrics_data start_time now ;;
      fs <- sync_passes s lyrics_data start_time later ;;
      Ok (f :: fs)
  end.

Definition sync_loop (s : song) (start_time : Q) (clock : list Q)
  : Res (list frame) :=
  lyrics_data <- parse_lrc (lrc_data s) ;;
  sync_passes s lyrics_data start_time clock.

(** ** Upload processing *)

Record uploaded_file : Type := UploadedFile {
  up_name : string;
  up_type : string;
  up_buffer : string
}.

Inductive ui_event : Type :=
| StatusOpen (label : string)
| StatusWrite (msg : string)
| StatusUpdate (label state : string)
| SidebarError (msg : string)
| Rerun.

(** The session state the upload code touches, and what it shows. *)
Record app_state : Type := AppState {
  processed_songs : list song;
  ui_log : list ui_event
}.

(** Computations that change the session and may raise. *)
Definition M (A : Type) : Type := app_state -> Res A * app_state.

Definition ret {A : Type} (a : A) : M A := fun st => (Ok a, st).

Definition bindM {A B : Type} (m : M A) (k : A -> M B) : M B :=
  fun st =>
    match m st with
    | (Ok a, st') => k a st'
    | (Raise e, st') => (Raise e, st')
    end.

Notation "x <~ m ;; k" := (bindM m (fun x => k))
  (at level 61, m at next level, right associativity).
Notation "m ;;; k" := (bindM m (fun _ => k))
  (at level 61, right associativity).

Definition lift {A : Type} (r : Res A) : M A := fun st => (r, st).

Definition emit (ev : ui_event) : M unit :=
  fun st => (Ok tt, AppState (processed_songs st) (ui_log st ++ [ev])).

Definition append_song (s : song) : M unit :=
  fun st => (Ok tt, AppState (processed_songs st ++ [s]) (ui_log st)).

(** [try: body except Exception as e: handler(e)] *)
Definition try_except (body : M unit) (handler : exn -> M unit) : M unit :=
  fun st =>
    match body st with
    | (Ok tt, st') => (Ok tt, st')
    | (Raise e, st') => handler e st'
    end.

Definition starts_with_slash (s : string) : bool :=
  match s with
  | String c _ => Ascii.eqb c "/"
  | EmptyString => false
  end.

(** [os.path.join(dir, file)] for a [dir] without a final slash. *)
Definition path_join (dir file : string) : string :=
  if starts_with_slash file then file else dir ++ "/" ++ file.

Definition temp_dir : string := "/tmp/streamlit_uploads".

(** The collaborators of the upload code: the file system, the metadata
    readers and the transcription model. *)
Record collaborators : Type := Collaborators {
  Model : Type;
  makedirs : string -> Res unit;
  write_file : string -> string -> Res unit;
  MP3_length : string -> Res Q;
  WAVE_length : string -> Res Q;
  cuda_is_available : bool;
  load_model : string -> string -> Res Model;
  transcribe : Model -> string -> string -> Res (list segment)
}.

(** The body of the [try] statement. *)
Definition process_body (C : collaborators) (f : uploaded_file) : M unit :=
  emit (StatusWrite "Saving file...") ;;;
  lift (makedirs C temp_dir) ;;;
  let path := path_join temp_dir (up_name f) in
  lift (write_file C path (up_buffer f)) ;;;
  song_duration <~ lift (if String.eqb (up_type f) "audio/mpeg"
                         then MP3_length C path else WAVE_length C path) ;;
  emit (StatusWrite "Transcribing with AI...") ;;;
  let device := if cuda_is_available C then "cuda" else "cpu" in
  model <~ lift (load_model C "medium" device) ;;
  segments <~ lift (transcribe C model path "en") ;;
  emit (StatusWrite "Saving LRC data...") ;;;
  lrc <~ lift (generate_lrc_content segments) ;;
  append_song (Song (up_name f) path song_duration lrc) ;;;
  emit (StatusUpdate ("Processed " ++ up_name f ++ "!") "complete").

Definition report_error (f : uploaded_file) (e : exn) : M unit :=
  emit (StatusUpdate ("Error processing " ++ up_name f) "error") ;;;
  emit (SidebarError ("Details: " ++ exn_message e)).

Definition process_upload (C : collaborators) (f : uploaded_file) : M unit :=
  emit (StatusOpen ("Processing " ++ up_name f ++ "...")) ;;;
  try_except (process_body C f) (report_error f).

Definition name_in (n : string) (names : list string) : bool :=
  existsb (String.eqb n) names.

(** The loop over the uploaded files; [processed_names] is the list of names
    computed before the loop. *)
Fixpoint upload_loop (C : collaborators) (processed_names : list string)
  (uploaded_files : list uploaded_file) (did_process_a_file : bool) : M bool :=
  match uploaded_files with
  | [] => ret did_process_a_file
  | f :: rest =>
      if name_in (up_name f) processed_names
      then upload_loop C processed_names rest did_process_a_file
      else process_upload C f ;;; upload_loop C processed_names rest true
  end.

Definition handle_uploads (C : collaborators) (uploaded_files : list uploaded_file)
  : M unit :=
  fun st =>
    match uploaded_files with
    | [] => (Ok tt, st)
    | _ =>
        let processed_names := map name (processed_songs st) in
        (did <~ upload_loop C processed_names uploaded_files false ;;
         if did then emit Rerun else ret tt) st
    end.

(** A run of the collaborators: every step works, but the file [bad.mp3] has
    no MPEG frame. *)
Definition demo : collaborators :=
  Collaborators unit
    (fun _ => Ok tt)
    (fun _ _ => Ok tt)
    (fun path => if String.eqb path "/tmp/streamlit_uploads/bad.mp3"
                 then Raise (OtherError "can't sync to MPEG frame")
                 else Ok 120%Q)
    (fun _ => Ok 60%Q)
    false
    (fun _ _ => Ok tt)
    (fun _ _ _ => Ok [Segment 0 " Hello "; Segment (131 # 2) "world"]).

Definition a_mp3 : uploaded_file := UploadedFile "a.mp3" "audio/mpeg" "ID3".
Definition bad_mp3 : uploaded_file := UploadedFile "bad.mp3" "audio/mpeg" "zzz".
Definition b_wav : uploaded_file := UploadedFile "b.wav" "audio/wav" "RIFF".
Definition empty_session : app_state := AppState [] [].

(** ** Vocabulary of the properties *)

(** The minutes and the seconds of a time. *)
Definition minutes_of (t : Q) : Z := Qfloor (t / 60).
Definition seconds_of (t : Q) : Q := (t - inject_Z (minutes_of t) * 60)%Q.
Definition centis_of (t : Q) : Z := round_half_even (seconds_of t * 100).

Definition no_linebreak (s : string) : Prop :=
  all_chars (fun c => negb (is_linebreak c)) s = true.

(** What one line contributes to the result of [parse_lrc]. *)
Definition line_entries (line : string) : list (Q * string) :=
  match re_match_lrc line with
  | Some (minutes, seconds, txt) =>
      match py_int_of_str minutes, py_float_of_str seconds with
      | Ok m, Ok s => [(Qred (inject_Z (m * 60) + s), txt)]
      | _, _ => []
      end
  | None => []
  end.

(** The shape of a lyric line: bracket, two digits, colon, two digits, dot, two
    digits, bracket, rest.  [mm], [ss] and [cc] are the three numbers. *)
Definition lyric_line (line : string) (mm ss cc : Z) (rest : string) : Prop :=
  exists m1 m2 s1 s2 c1 c2 : ascii,
    is_digit m1 = true /\ is_digit m2 = true /\ is_digit s1 = true
    /\ is_digit s2 = true /\ is_digit c1 = true /\ is_digit c2 = true
    /\ line = String "[" (String m1 (String m2 (String ":" (String s1 (String s2
                (String "." (String c1 (String c2 (String "]" rest)))))))))
    /\ mm = 10 * digit_val m1 + digit_val m2
    /\ ss = 10 * digit_val s1 + digit_val s2
    /\ cc = 10 * digit_val c1 + digit_val c2.

(** The time a lyric line stands for: minutes * 60 + seconds.hundredths. *)
Definition lyric_time (mm ss cc : Z) : Q :=
  Qred (inject_Z (mm * 60) + inject_Z (100 * ss + cc) / 100).

Definition line_of (cur : option string) : string :=
  match cur with
  | None => EmptyString
  | Some l => l
  end.

(** What a line contributes, in the words of the specification: one entry
    when it has the shape of a lyric line, none otherwise. *)
Definition line_contributes (line : string) (entries : list (Q * string)) : Prop :=
  (exists mm ss cc rest,
      lyric_line line mm ss cc rest /\ entries = [(lyric_time mm ss cc, rest)])
  \/ ((forall mm ss cc rest, ~ lyric_line line mm ss cc rest) /\ entries = []).

Definition starts_with_space (s : string) : bool :=
  match s with
  | EmptyString => false
  | String c _ => is_space c
  end.

Fixpoint ends_with_space (s : string) : bool :=
  match s with
  | EmptyString => false
  | String c EmptyString => is_space c
  | String _ s' => ends_with_space s'
  end.

(** [r] is [s] without its leading and trailing white space. *)
Definition stripped_of (s r : string) : Prop :=
  exists pre post,
    s = pre ++ r ++ post
    /\ all_chars is_space pre = true /\ all_chars is_space post = true
    /\ starts_with_space r = false /\ ends_with_space r = false.

(** The line written for a segment. *)
Definition lrc_line_text (seg : segment) : string :=
  "[" ++ fmt_02d (minutes_of (start seg)) ++ ":"
  ++ fmt_05_2f (Qred (seconds_of (start seg))) ++ "]" ++ strip (text seg).

(** The shape of the line written for a segment, in the words of the
    specification. *)
Definition lrc_line_shape (seg : segment) (line : string) : Prop :=
  let minutes := Qfloor (start seg / 60) in
  let seconds := (start seg - inject_Z minutes * 60)%Q in
  let n := round_half_even (seconds * 100) in
  (0 <= seconds /\ seconds < 60)%Q
  /\ exists MM SS,
      line = "[" ++ MM ++ ":" ++ SS ++ "]" ++ strip (text seg)
      /\ all_chars is_digit MM = true
      /\ digits_value 0 MM = minutes
      /\ (minutes < 100 -> String.length MM = 2%nat)
      /\ (100 <= minutes -> MM = digits minutes /\ (3 <= String.length MM)%nat)
      /\ String.length SS = 5%nat
      /\ SS = two_digits (n / 100) ++ "." ++ two_digits (n mod 100)
      /\ 0 <= n <= 6000
      /\ (Qabs (inject_Z n / 100 - seconds) <= 1 # 200)%Q.

(** The times on which [divmod(t, 60)] loses nothing in binary64: from 0 up
    to, but not including, 2^53.  On them the floored quotient and the
    remainder are exact, so the digits written by the model are the digits
    written by Python. *)
Definition exact_range (t : Q) : Prop :=
  (0 <= t)%Q /\ (t < inject_Z (2 ^ 53))%Q.

(** [t] cut to two decimal places. *)
Definition truncate_centis (t : Q) : Q := (inject_Z (Qfloor (t * 100)) / 100)%Q.

(** A track in ascending order of time. *)
Fixpoint ascending (lyrics_data : list (Q * string)) : Prop :=
  match lyrics_data with
  | [] => True
  | l :: rest => Forall (fun l' => (fst l <= fst l')%Q) rest /\ ascending rest
  end.

Definition reached_by (t : Q) (l : Q * string) : bool := Qle_bool (fst l) t.

(** The files of a batch that the loop does not skip. *)
Definition new_files (processed_names : list string)
  (uploaded_files : list uploaded_file) : list uploaded_file :=
  filter (fun f => negb (name_in (up_name f) processed_names)) uploaded_files.

(** Whether the collaborators process [f] without raising. *)
Definition succeeds (C : collaborators) (f : uploaded_file) : bool :=
  match fst (process_body C f empty_session) with
  | Ok _ => true
  | Raise _ => false
  end.

Definition is_empty (s : string) : bool :=
  match s with
  | EmptyString => true
  | String _ _ => false
  end.

(** ** Vocabulary of the further properties *)

(** [t] rounded to the nearest hundredth, ties to the even hundredth. *)
Definition rounded_time (t : Q) : Q :=
  Qred (inject_Z (round_half_even (t * 100)) / 100).

(** The entry a segment comes back as. *)
Definition segment_entry (seg : segment) : Q * string :=
  (rounded_time (start seg), strip (text seg)).

(** How a segment is read back: the formatter writes for it a line with the
    stamp MM:SS.CC, two digits each, which read as minutes, seconds and
    hundredths is the start rounded to the nearest hundredth; the entry [e]
    holds the stripped text and the time the parser computes from the stamp,
    int(MM) * 60 + float(SS.CC). *)
Definition read_back (seg : segment) (e : Q * string) : Prop :=
  exists mm ss cc s,
    lrc_line seg
    = Ok ("[" ++ two_digits mm ++ ":" ++ two_digits ss ++ "." ++ two_digits cc
          ++ "]" ++ strip (text seg))
    /\ 0 <= mm < 100 /\ 0 <= ss <= 60 /\ 0 <= cc < 100
    /\ 100 * (60 * mm + ss) + cc = round_half_even (start seg * 100)
    /\ py_int_of_str (two_digits mm) = Ok mm
    /\ py_float_of_str (two_digits ss ++ "." ++ two_digits cc) = Ok s
    /\ e = (Qred (inject_Z (mm * 60) + s), strip (text seg)).

(** A segment the parser reads back: below one hundred minutes, and no line
    boundary left in the text once stripped. *)
Definition readable (seg : segment) : Prop :=
  (0 <= start seg)%Q /\ (start seg < 6000)%Q /\ no_linebreak (strip (text seg)).

Definition nonempty (s : string) : Prop := s <> EmptyString.

(** The largest time a lyric line can stand for: 99 minutes and 99.99
    seconds. *)
Definition max_lyric_time : Q := 603999 # 100.

(** The starts of the segments, in ascending order. *)
Definition ascending_starts (segments : list segment) : Prop :=
  ascending (map (fun seg => (start seg, text seg)) segments).

(** The texts of the lines reached at [t], in the order of the track. *)
Definition reached_texts (t : Q) (lyrics_data : list (Q * string)) : list string :=
  map snd (filter (reached_by t) lyrics_data).

Definition is_rerun (ev : ui_event) : bool :=
  match ev with
  | Rerun => true
  | _ => false
  end.

(** How often the script asked to be run again. *)
Definition rerun_count (st : app_state) : nat :=
  List.length (filter is_rerun (ui_log st)).

(** The session after [n] runs of the upload code on the same batch: the
    uploader keeps its files from one run of the script to the next. *)
Fixpoint reruns (C : collaborators) (uploaded_files : list uploaded_file)
  (n : nat) (st : app_state) : app_state :=
  match n with
  | O => st
  | S k => reruns C uploaded_files k (snd (handle_uploads C uploaded_files st))
  end.

(** The names of the songs of the session. *)
Definition song_names (st : app_state) : list string :=
  map name (processed_songs st).

(** The files of a batch that add a song: those not skipped that are
    processed without raising. *)
Definition added_files (C : collaborators) (st : app_state)
  (uploaded_files : list uploaded_file) : list uploaded_file :=
  filter (succeeds C) (new_files (song_names st) uploaded_files).

(** ** The audio element *)

(** The characters of the base64 alphabet, by index. *)
Definition b64_char (i : Z) : ascii :=
  if i <? 26 then chr (65 + i)
  else if i <? 52 then chr (97 + (i - 26))
  else if i <? 62 then chr (48 + (i - 52))
  else if i =? 62 then "+"%char
  else "/"%char.

(** [base64.b64encode(data).decode()]: three bytes give four characters; a
    last group of one or two bytes is padded with equal signs. *)
Fixpoint b64encode (data : string) : string :=
  match data with
  | EmptyString => EmptyString
  | String a EmptyString =>
      let n := code a * 65536 in
      String (b64_char (n / 262144)) (String (b64_char ((n / 4096) mod 64))
        (String "="%char (String "="%char EmptyString)))
  | String a (String b EmptyString) =>
      let n := code a * 65536 + code b * 256 in
      String (b64_char (n / 262144)) (String (b64_char ((n / 4096) mod 64))
        (String (b64_char ((n / 64) mod 64)) (String "="%char EmptyString)))
  | String a (String b (String c rest)) =>
      let n := code a * 65536 + code b * 256 + code c in
      String (b64_char (n / 262144)) (String (b64_char ((n / 4096) mod 64))
        (String (b64_char ((n / 64) mod 64)) (String (b64_char (n mod 64))
          (b64encode rest))))
  end.

(** [get_audio_base64]; [read_binary] is the file system read in binary
    mode. *)
Definition get_audio_base64 (read_binary : string -> Res string)
  (file_path : string) : Res string :=
  data <- read_binary file_path ;;
  Ok (b64encode data).

Definition dquote : string := String (chr 34) EmptyString.

(** The [audio_html] text, with the line feeds and the indentation of the
    source. *)
Definition audio_html (audio_base64 : string) : string :=
  newline ++ "            <audio controls autoplay>"
  ++ newline ++ "                <source src=" ++ dquote
  ++ "data:audio/mp3;base64," ++ audio_base64 ++ dquote
  ++ " type=" ++ dquote ++ "audio/mp3" ++ dquote ++ ">"
  ++ newline ++ "            </audio>"
  ++ newline ++ "            ".

(** ** The session and a run of the script *)

Record session_state : Type := SessionState {
  session_app : app_state;
  current_song_index : option nat;
  sync_started : bool;
  start_time : Q
}.

(** The session after the initialisation of its four keys. *)
Definition initial_session : session_state :=
  SessionState (AppState [] []) None false 0.

Definition set_current_song (index : nat) (st : session_state) : session_state :=
  SessionState (session_app st) (Some index) false (start_time st).

(** What the button [Play & Synchronize] does when it is pressed. *)
Definition press_play (now : Q) (st : session_state) : session_state :=
  SessionState (session_app st) (current_song_index st) true now.

Inductive click : Type :=
| NoClick
| SongButton (i : nat)
| PlayButton.

(** What a run of the script is given: the files in the uploader, the click
    that caused the run, the reading of the clock when the play button is
    handled, and the readings of the clock in the passes of the sync loop up
    to the pass at which the run is interrupted. *)
Record run_input : Type := RunInput {
  in_files : list uploaded_file;
  in_click : click;
  in_now : Q;
  in_clock : list Q
}.

Inductive playback_view : Type :=
| NothingSelected
| WaitingForPlay (s : song)
| Syncing (s : song) (html : string) (frames : list frame).

(** How a run of the script ends when it does not raise: with [st.rerun()],
    or with the buttons of the playlist and the playback part rendered. *)
Inductive run_result : Type :=
| RunAgain
| Rendered (buttons : list string) (view : playback_view).

(** The upload part of the script up to the test of [did_process_a_file]. *)
Definition upload_section (C : collaborators) (uploaded_files : list uploaded_file)
  (app : app_state) : Res bool * app_state :=
  match uploaded_files with
  | [] => (Ok false, app)
  | _ => upload_loop C (map name (processed_songs app)) uploaded_files false app
  end.

(** The buttons of the playlist, one [st.button(song["name"], ...)] per song
    and none with a key: a button whose label is the label of a button
    already shown in the run is refused with [StreamlitAPIException] (its
    subclass for duplicate element ids).  [shown] holds the labels of the
    buttons shown so far.  The play button is of another type and its label
    is no string of the model, so it is never taken for a song button. *)
Fixpoint playlist_buttons (names shown : list string) : Res (list string) :=
  match names with
  | [] => Ok shown
  | n :: rest =>
      if name_in n shown
      then Raise (StreamlitAPIException "multiple button elements with the same id")
      else playlist_buttons rest (shown ++ [n])
  end.

(** [st.session_state.processed_songs[st.session_state.current_song_index]] *)
Definition current_song (st : session_state) (i : nat) : Res song :=
  match nth_error (processed_songs (session_app st)) i with
  | Some s => Ok s
  | None => Raise (IndexError "list index out of range")
  end.

(** The playback once the synchronisation has started: the audio element,
    then the sync loop. *)
Definition start_playback (read_binary : string -> Res string) (s : song)
  (start_time : Q) (clock : list Q) : Res playback_view :=
  audio_base64 <- get_audio_base64 read_binary (temp_audio_path s) ;;
  frames <- sync_loop s start_time clock ;;
  Ok (Syncing s (audio_html audio_base64) frames).

(** The playlist and the playback part: the buttons of the songs, the song
    at the current index, the play button while the synchronisation has not
    started, the audio element and the loop once it has. *)
Definition playback_section (read_binary : string -> Res string)
  (inp : run_input) (st : session_state) : Res run_result * session_state :=
  match playlist_buttons (map name (processed_songs (session_app st))) [] with
  | Raise e => (Raise e, st)
  | Ok buttons =>
      match current_song_index st with
      | None => (Ok (Rendered buttons NothingSelected), st)
      | Some i =>
          match current_song st i with
          | Raise e => (Raise e, st)
          | Ok s =>
              if sync_started st
              then (view <- start_playback read_binary s (start_time st)
                              (in_clock inp) ;;
                    Ok (Rendered buttons view), st)
              else match in_click inp with
                   | PlayButton => (Ok RunAgain, press_play (in_now inp) st)
                   | _ => (Ok (Rendered buttons (WaitingForPlay s)), st)
                   end
          end
      end
  end.

Definition with_app (st : session_state) (app : app_state) : session_state :=
  SessionState app (current_song_index st) (sync_started st) (start_time st).

(** One run of the script, as the framework runs it: the callback of a
    clicked song button runs before the script, [st.button] is true in the
    run its click caused, and [st.rerun()] ends the run.  The upload part
    comes first, then the playlist and the playback part.  The result is
    paired with the session the run leaves, which the framework keeps also
    when the run raises. *)
Definition run_script (C : collaborators) (read_binary : string -> Res string)
  (inp : run_input) (st : session_state) : Res run_result * session_state :=
  let st1 := match in_click inp with
             | SongButton i => set_current_song i st
             | _ => st
             end in
  match upload_section C (in_files inp) (session_app st1) with
  | (Raise e, app) => (Raise e, with_app st1 app)
  | (Ok true, app) => (Ok RunAgain, with_app st1 (snd (emit Rerun app)))
  | (Ok false, app) => playback_section read_binary inp (with_app st1 app)
  end.

(** The buttons a click can come from are those of the songs of the
    session. *)
Definition click_listed (c : click) (st : session_state) : Prop :=
  match c with
  | SongButton i => (i < List.length (processed_songs (session_app st)))%nat
  | _ => True
  end.

Definition index_valid (st : session_state) : Prop :=
  match current_song_index st with
  | None => True
  | Some i => (i < List.length (processed_songs (session_app st)))%nat
  end.

(** Letters, digits, plus, slash and the equal sign. *)
Definition is_b64_char (c : ascii) : bool :=
  let n := code c in
  ((65 <=? n) && (n <=? 90)) || ((97 <=? n) && (n <=? 122))
  || ((48 <=? n) && (n <=? 57)) || (n =? 43) || (n =? 47) || (n =? 61).

(** Consecutive runs of the script: how each run ends, and the session after
    the last. *)
Fixpoint run_scripts (C : collaborators) (read_binary : string -> Res string)
  (inputs : list run_input) (st : session_state)
  : list (Res run_result) * session_state :=
  match inputs with
  | [] => ([], st)
  | inp :: rest =>
      let (r, st') := run_script C read_binary inp st in
      let (rs, st'') := run_scripts C read_binary rest st' in
      (r :: rs, st'')
  end.

(** Every click of the runs comes from a button of the session it is made
    in. *)
Fixpoint clicks_listed (C : collaborators) (read_binary : string -> Res string)
  (inputs : list run_input) (st : session_state) : Prop :=
  match inputs with
  | [] => True
  | inp :: rest =>
      click_listed (in_click inp) st
      /\ clicks_listed C read_binary rest (snd (run_script C read_binary inp st))
  end.

(** The file system of the examples: every file reads as three bytes. *)
Definition demo_read (path : string) : Res string := Ok "Man".

Definition is_index_error {A : Type} (r : Res A) : bool :=
  match r with
  | Raise (IndexError _) => true
  | _ => false
  end.

Definition html_safe (c : ascii) : bool :=
  negb (Ascii.eqb c (chr 34)) && negb (Ascii.eqb c "<") && negb (Ascii.eqb c ">")
  && negb (is_linebreak c).

(** How often [c] occurs in [s]. *)
Fixpoint count_char (c : ascii) (s : string) : nat :=
  match s with
  | EmptyString => O
  | String c' s' => ((if Ascii.eqb c' c then 1 else 0) + count_char c s')%nat
  end.

(** The index of a character of the base64 alphabet. *)
Definition b64_index (c : ascii) : Z :=
  let n := code c in
  if (65 <=? n) && (n <=? 90) then n - 65
  else if (97 <=? n) && (n <=? 122) then n - 71
  else if (48 <=? n) && (n <=? 57) then n + 4
  else if n =? 43 then 62
  else 63.

(** The bytes a base64 text stands for, four characters at a time. *)
Fixpoint b64decode (s : string) : string :=
  match s with
  | String c0 (String c1 (String c2 (String c3 rest))) =>
      let hi := b64_index c0 * 262144 + b64_index c1 * 4096 in
      if Ascii.eqb c2 "=" then String (chr (hi / 65536)) EmptyString
      else if Ascii.eqb c3 "=" then
        let n := hi + b64_index c2 * 64 in
        String (chr (n / 65536)) (String (chr ((n / 256) mod 256)) EmptyString)
      else
        let n := hi + b64_index c2 * 64 + b64_index c3 in
        String (chr (n / 65536)) (String (chr ((n / 256) mod 256))
          (String (chr (n mod 256)) (b64decode rest)))
  | _ => EmptyString
  end.

(* ================================================================= *)
(** * Properties *)

(** ** Characters and digits *)

Lemma code_chr (n : Z) : 0 <= n < 256 -> code (chr n) = n.
Proof.
  intros H. unfold code, chr.
  rewrite N_ascii_embedding.
  - apply Z2N.id. lia.
  - apply N2Z.inj_lt. rewrite Z2N.id by lia. simpl. lia.
Qed.

Lemma chr_code (c : ascii) : chr (code c) = c.
Proof.
  unfold code, chr. rewrite N2Z.id. apply ascii_N_embedding.
Qed.

Lemma code_range (c : ascii) : 0 <= code c < 256.
Proof.
  unfold code. pose proof (N_ascii_bounded c) as H.
  apply N2Z.inj_lt in H. simpl in H. lia.
Qed.

Lemma is_digit_digit_char (d : Z) : 0 <= d <= 9 -> is_digit (digit_char d) = true.
Proof.
  intros H. unfold is_digit, digit_char. rewrite code_chr by lia.
  apply andb_true_intro. split; apply Z.leb_le; lia.
Qed.

Lemma digit_val_digit_char (d : Z) : 0 <= d <= 9 -> digit_val (digit_char d) = d.
Proof.
  intros H. unfold digit_val, digit_char. rewrite code_chr by lia. lia.
Qed.

Lemma is_digit_val (c : ascii) :
  is_digit c = true -> 0 <= digit_val c <= 9 /\ c = digit_char (digit_val c).
Proof.
  unfold is_digit, digit_val, digit_char. intros H.
  apply andb_prop in H. destruct H as [H1 H2].
  apply Z.leb_le in H1. apply Z.leb_le in H2. split; [lia|].
  replace (48 + (code c - 48)) with (code c) by lia.
  symmetry. apply chr_code.
Qed.

Ltac cases_Z :=
  repeat match goal with
         | |- context [?a <=? ?b] => destruct (Z.leb_spec a b)
         | |- context [?a <? ?b] => destruct (Z.ltb_spec a b)
         | |- context [?a =? ?b] => destruct (Z.eqb_spec a b)
         | H : context [?a <=? ?b] |- _ => destruct (Z.leb_spec a b)
         | H : context [?a <? ?b] |- _ => destruct (Z.ltb_spec a b)
         | H : context [?a =? ?b] |- _ => destruct (Z.eqb_spec a b)
         end;
  simpl in *; try reflexivity; try discriminate; try lia.

Lemma is_digit_not_linebreak (c : ascii) : is_digit c = true -> is_linebreak c = false.
Proof.
  unfold is_digit, is_linebreak. cbv zeta. generalize (code c). intros n H.
  cases_Z.
Qed.

Lemma linebreak_is_space (c : ascii) : is_linebreak c = true -> is_space c = true.
Proof.
  unfold is_linebreak, is_space. cbv zeta. generalize (code c). intros n H.
  cases_Z.
Qed.

Lemma all_chars_app (p : ascii -> bool) (s t : string) :
  all_chars p (s ++ t) = all_chars p s && all_chars p t.
Proof.
  induction s as [|c s IH]; simpl; [reflexivity|].
  rewrite IH. apply andb_assoc.
Qed.

Lemma length_app (s t : string) :
  String.length (s ++ t) = (String.length s + String.length t)%nat.
Proof. induction s as [|c s IH]; simpl; congruence. Qed.

Lemma app_assoc_str (s t u : string) : (s ++ t) ++ u = s ++ t ++ u.
Proof. induction s as [|c s IH]; simpl; congruence. Qed.

Lemma app_empty_r (s : string) : s ++ EmptyString = s.
Proof. induction s as [|c s IH]; simpl; congruence. Qed.

Lemma digits_value_app (a : Z) (s t : string) :
  digits_value a (s ++ t) = digits_value (digits_value a s) t.
Proof. revert a. induction s as [|c s IH]; intros a; simpl; [reflexivity|apply IH]. Qed.

(** What [digits_fuel] writes in front of [acc] when the fuel suffices: the
    decimal numeral of [n] without leading zero. *)
Lemma digits_fuel_correct (f : nat) : forall (n : Z) (acc : string),
  0 <= n < 10 ^ (Z.of_nat f + 1) ->
  exists s, digits_fuel f n acc = s ++ acc
    /\ all_chars is_digit s = true
    /\ digits_value 0 s = n
    /\ n < 10 ^ Z.of_nat (String.length s)
    /\ (n < 10 -> s = String (digit_char n) EmptyString)
    /\ (10 <= n -> 10 ^ (Z.of_nat (String.length s) - 1) <= n).
Proof.
  assert (Hsmall : forall n acc, 0 <= n < 10 ->
    exists s, String (digit_char (n mod 10)) acc = s ++ acc
    /\ all_chars is_digit s = true
    /\ digits_value 0 s = n
    /\ n < 10 ^ Z.of_nat (String.length s)
    /\ (n < 10 -> s = String (digit_char n) EmptyString)
    /\ (10 <= n -> 10 ^ (Z.of_nat (String.length s) - 1) <= n)).
  { intros n acc Hn. exists (String (digit_char n) EmptyString).
    rewrite Z.mod_small by lia. simpl.
    rewrite is_digit_digit_char, digit_val_digit_char by lia.
    repeat split; try reflexivity; lia. }
  induction f as [|f IH]; intros n acc Hn.
  - simpl in *. apply Hsmall. lia.
  - cbn [digits_fuel]. destruct (Z.ltb_spec n 10) as [Hlt|Hge].
    + apply Hsmall. lia.
    + assert (Hpow : 10 ^ (Z.of_nat (S f) + 1) = 10 * 10 ^ (Z.of_nat f + 1)).
      { rewrite Nat2Z.inj_succ, <- Z.pow_succ_r by lia. f_equal; lia. }
      assert (Hq : 0 <= n / 10 < 10 ^ (Z.of_nat f + 1)).
      { split; [apply Z.div_pos; lia|]. apply Z.div_lt_upper_bound; lia. }
      destruct (IH (n / 10) (String (digit_char (n mod 10)) acc) Hq)
        as (s & Heq & Hdig & Hval & Hub & Hone & Hlb).
      pose proof (Z.mod_pos_bound n 10 ltac:(lia)) as Hm.
      pose proof (Z.div_mod n 10 ltac:(lia)) as Hdm.
      exists (s ++ String (digit_char (n mod 10)) EmptyString).
      rewrite Heq, app_assoc_str. simpl.
      rewrite all_chars_app, Hdig, digits_value_app, Hval, length_app.
      cbn [all_chars digits_value String.length andb].
      rewrite is_digit_digit_char, digit_val_digit_char by lia.
      replace (Z.of_nat (String.length s + 1)) with (Z.succ (Z.of_nat (String.length s))) by lia.
      rewrite Z.pow_succ_r by lia.
      replace (Z.succ (Z.of_nat (String.length s)) - 1) with (Z.of_nat (String.length s)) by lia.
      repeat split; try reflexivity; try lia.
      intros _. destruct (Z.ltb_spec (n / 10) 10) as [Hq10|Hq10].
      * rewrite (Hone Hq10). simpl. lia.
      * specialize (Hlb Hq10).
        assert (Hlen : 1 <= Z.of_nat (String.length s)).
        { destruct s; simpl in *; [|lia]. simpl in Hub. lia. }
        replace (Z.of_nat (String.length s)) with (Z.succ (Z.of_nat (String.length s) - 1)) by lia.
        rewrite Z.pow_succ_r by lia. lia.
Qed.

Lemma digits_correct (n : Z) : 0 <= n ->
  all_chars is_digit (digits n) = true
  /\ digits_value 0 (digits n) = n
  /\ n < 10 ^ Z.of_nat (String.length (digits n))
  /\ (n < 10 -> digits n = String (digit_char n) EmptyString)
  /\ (10 <= n -> 10 ^ (Z.of_nat (String.length (digits n)) - 1) <= n).
Proof.
  intros Hn. unfold digits.
  assert (Hf : 0 <= n < 10 ^ (Z.of_nat (Z.to_nat (Z.log2 n)) + 1)).
  { split; [lia|]. rewrite Z2Nat.id by apply Z.log2_nonneg.
    destruct (Z.eq_dec n 0) as [->|Hnz]; [simpl; lia|].
    pose proof (Z.log2_spec n ltac:(lia)) as [_ Hlt].
    pose proof (Z.log2_nonneg n) as Hl.
    eapply Z.lt_le_trans; [exact Hlt|].
    replace (Z.succ (Z.log2 n)) with (Z.log2 n + 1) by lia.
    apply Z.pow_le_mono_l. lia. }
  destruct (digits_fuel_correct _ n EmptyString Hf) as (s & Heq & H).
  rewrite Heq, app_empty_r. exact H.
Qed.

Lemma two_digits_correct (k : Z) : 0 <= k < 100 ->
  all_chars is_digit (two_digits k) = true /\ digits_value 0 (two_digits k) = k.
Proof.
  intros Hk. unfold two_digits.
  pose proof (Z.mod_pos_bound k 10 ltac:(lia)).
  pose proof (Z.div_mod k 10 ltac:(lia)).
  assert (0 <= k / 10 <= 9) by lia.
  cbn [all_chars digits_value].
  rewrite !is_digit_digit_char, !digit_val_digit_char by lia.
  split; [reflexivity | lia].
Qed.

(** A two-character numeral is determined by its value. *)
Lemma two_chars_numeral (c1 c2 : ascii) (k : Z) :
  is_digit c1 = true -> is_digit c2 = true ->
  digits_value 0 (String c1 (String c2 EmptyString)) = k ->
  String c1 (String c2 EmptyString) = two_digits k.
Proof.
  intros H1 H2 Hv. cbn [digits_value] in Hv.
  destruct (is_digit_val c1 H1) as [B1 E1], (is_digit_val c2 H2) as [B2 E2].
  unfold two_digits.
  assert (k / 10 = digit_val c1) as -> by (symmetry; apply (Z.div_unique k 10 _ (digit_val c2)); lia).
  assert (k mod 10 = digit_val c2) as -> by (symmetry; apply (Z.mod_unique k 10 (digit_val c1)); lia).
  congruence.
Qed.

Lemma digits_two (k : Z) : 0 <= k < 100 ->
  zero_pad 2 false (digits k) = two_digits k.
Proof.
  intros Hk. destruct (digits_correct k ltac:(lia)) as (Hd & Hv & Hub & Hone & Hlb).
  unfold zero_pad. cbn [String.length Nat.sub append].
  destruct (Z.ltb_spec k 10) as [Hlt|Hge].
  - rewrite (Hone Hlt). cbn. unfold two_digits.
    rewrite Z.div_small, Z.mod_small by lia. reflexivity.
  - specialize (Hlb Hge).
    destruct (digits k) as [|c1 [|c2 [|c3 s]]] eqn:E.
    + simpl in Hub. lia.
    + simpl in Hub. lia.
    + cbn [String.length Nat.sub zeros append].
      cbn [all_chars] in Hd. apply andb_prop in Hd. destruct Hd as [D1 D2].
      apply andb_prop in D2. destruct D2 as [D2 _].
      apply two_chars_numeral; assumption.
    + exfalso. cbn [String.length] in Hlb.
      assert (10 ^ 2 <= 10 ^ (Z.of_nat (S (S (S (String.length s)))) - 1))
        by (apply Z.pow_le_mono_r; lia).
      simpl (10 ^ 2) in *. lia.
Qed.

Lemma fmt_02d_small (m : Z) : 0 <= m < 100 -> fmt_02d m = two_digits m.
Proof.
  intros Hm. unfold fmt_02d.
  destruct (Z.ltb_spec m 0); [lia|]. rewrite Z.abs_eq by lia.
  apply digits_two; lia.
Qed.

Lemma fmt_02d_large (m : Z) : 100 <= m ->
  fmt_02d m = digits m /\ (3 <= String.length (digits m))%nat.
Proof.
  intros Hm. unfold fmt_02d.
  destruct (Z.ltb_spec m 0); [lia|]. rewrite Z.abs_eq by lia.
  destruct (digits_correct m ltac:(lia)) as (_ & _ & Hub & _ & _).
  assert (Hlen : (3 <= String.length (digits m))%nat).
  { destruct (digits m) as [|c1 [|c2 [|c3 s]]]; simpl in Hub; try lia. simpl. lia. }
  split; [|exact Hlen].
  unfold zero_pad.
  replace (2 - String.length EmptyString - String.length (digits m))%nat
    with 0%nat by (simpl String.length; lia).
  reflexivity.
Qed.

(** The minutes field reads back as the number of minutes, however large. *)
Lemma fmt_02d_value (m : Z) : 0 <= m ->
  all_chars is_digit (fmt_02d m) = true /\ digits_value 0 (fmt_02d m) = m.
Proof.
  intros Hm. destruct (Z.ltb_spec m 100) as [Hlt|Hge].
  - rewrite fmt_02d_small by lia. apply two_digits_correct; lia.
  - destruct (fmt_02d_large m Hge) as [-> _].
    destruct (digits_correct m Hm) as (Hd & Hv & _). split; assumption.
Qed.

(** ** Rounding to centiseconds *)

Lemma round_half_even_cases (q : Q) :
  (round_half_even q = Qfloor q /\ (q - inject_Z (Qfloor q) <= 1 # 2)%Q)
  \/ (round_half_even q = Qfloor q + 1 /\ (1 # 2 <= q - inject_Z (Qfloor q))%Q).
Proof.
  unfold round_half_even.
  destruct (Qcompare_spec (q - inject_Z (Qfloor q)) (1 # 2)) as [E|L|G].
  - destruct (Z.even (Qfloor q)); [left|right]; split; try reflexivity; rewrite E; lra.
  - left. split; [reflexivity|lra].
  - right. split; [reflexivity|lra].
Qed.

(** The rounded value is at most one half away. *)
Lemma round_half_even_near (q : Q) :
  (inject_Z (round_half_even q) - (1 # 2) <= q
   /\ q <= inject_Z (round_half_even q) + (1 # 2))%Q.
Proof.
  pose proof (Qfloor_le q) as Hlo. pose proof (Qlt_floor q) as Hhi.
  rewrite inject_Z_plus in Hhi.
  destruct (round_half_even_cases q) as [[-> H]|[-> H]].
  - change (inject_Z 1) with 1%Q in Hhi. lra.
  - rewrite inject_Z_plus. change (inject_Z 1) with 1%Q in *. lra.
Qed.

Lemma Qfloor_unique (z : Z) (q : Q) :
  (inject_Z z <= q)%Q -> (q < inject_Z z + 1)%Q -> Qfloor q = z.
Proof.
  intros Hlo Hhi. apply Z.le_antisymm.
  - assert (Qfloor q < z + 1); [|lia].
    rewrite Zlt_Qlt. rewrite inject_Z_plus. change (inject_Z 1) with 1%Q.
    pose proof (Qfloor_le q). lra.
  - rewrite <- (Qfloor_Z z). apply Qfloor_resp_le. exact Hlo.
Qed.

Lemma round_half_even_range (q : Q) (lo hi : Z) :
  (inject_Z lo <= q)%Q -> (q <= inject_Z hi)%Q -> lo <= round_half_even q <= hi.
Proof.
  intros Hlo Hhi.
  assert (Hf1 : lo <= Qfloor q).
  { rewrite <- (Qfloor_Z lo). apply Qfloor_resp_le. exact Hlo. }
  assert (Hf2 : Qfloor q <= hi).
  { rewrite <- (Qfloor_Z hi). apply Qfloor_resp_le. exact Hhi. }
  destruct (round_half_even_cases q) as [[-> H]|[-> H]]; [lia|].
  split; [lia|].
  destruct (Z.eq_dec (Qfloor q) hi) as [E|N]; [|lia].
  exfalso. rewrite E in H. lra.
Qed.

#[global] Instance round_half_even_comp : Proper (Qeq ==> eq) round_half_even.
Proof.
  intros x y E. unfold round_half_even.
  rewrite (Qfloor_comp x y E).
  assert (Hc : ((x - inject_Z (Qfloor y) ?= 1 # 2) = (y - inject_Z (Qfloor y) ?= 1 # 2))%Q).
  { apply Qcompare_comp; [rewrite E|]; reflexivity. }
  rewrite Hc. reflexivity.
Qed.

(** Rounding commutes with the addition of an even number, so rounding the
    seconds of a minute rounds the whole time. *)
Lemma round_half_even_add_even (q : Q) (k : Z) :
  round_half_even (q + inject_Z (2 * k)) = round_half_even q + 2 * k.
Proof.
  unfold round_half_even.
  assert (Hf : Qfloor (q + inject_Z (2 * k)) = Qfloor q + 2 * k).
  { pose proof (Qfloor_le q). pose proof (Qlt_floor q) as Hhi.
    rewrite inject_Z_plus in Hhi. change (inject_Z 1) with 1%Q in Hhi.
    apply Qfloor_unique; rewrite inject_Z_plus; lra. }
  rewrite Hf.
  assert (Hc : ((q + inject_Z (2 * k) - inject_Z (Qfloor q + 2 * k) ?= 1 # 2)
                = (q - inject_Z (Qfloor q) ?= 1 # 2))%Q).
  { apply Qcompare_comp; [|reflexivity]. rewrite !inject_Z_plus. ring. }
  rewrite Hc. rewrite Z.even_add_mul_2.
  destruct (q - inject_Z (Qfloor q) ?= 1 # 2)%Q; try lia.
  destruct (Z.even (Qfloor q)); lia.
Qed.

(** ** The formatter, line by line *)

Lemma py_int_inject_Z (z : Z) : py_int (inject_Z z) = z.
Proof.
  unfold py_int. destruct (Qle_bool 0 (inject_Z z)).
  - apply Qfloor_Z.
  - apply Qceiling_Z.
Qed.

Lemma Qltb_false (a b : Q) : (b <= a)%Q -> Qltb a b = false.
Proof.
  intros H. unfold Qltb. apply Qle_bool_iff in H. rewrite H. reflexivity.
Qed.

Lemma Qltb_true (a b : Q) : (a < b)%Q -> Qltb a b = true.
Proof.
  intros H. unfold Qltb. destruct (Qle_bool b a) eqn:E; [|reflexivity].
  apply Qle_bool_iff in E. lra.
Qed.

Lemma seconds_of_range (t : Q) : (0 <= seconds_of t /\ seconds_of t < 60)%Q.
Proof.
  unfold seconds_of, minutes_of.
  pose proof (Qfloor_le (t / 60)) as Hlo. pose proof (Qlt_floor (t / 60)) as Hhi.
  rewrite inject_Z_plus in Hhi. change (inject_Z 1) with 1%Q in Hhi.
  assert (E : (t == 60 * (t / 60))%Q) by (field).
  split; lra.
Qed.

Lemma minutes_of_nonneg (t : Q) : (0 <= t)%Q -> 0 <= minutes_of t.
Proof.
  intros H. unfold minutes_of. rewrite <- (Qfloor_Z 0).
  apply Qfloor_resp_le. change (inject_Z 0) with 0%Q.
  assert (E : (t == 60 * (t / 60))%Q) by (field). lra.
Qed.

Lemma minutes_of_lt (t : Q) (k : Z) : (t < inject_Z (60 * k))%Q -> minutes_of t < k.
Proof.
  intros H. unfold minutes_of. rewrite Zlt_Qlt.
  pose proof (Qfloor_le (t / 60)) as Hlo.
  assert (E : (t == 60 * (t / 60))%Q) by (field).
  rewrite inject_Z_mult in H. change (inject_Z 60) with 60%Q in H. lra.
Qed.

Lemma centis_of_range (t : Q) : 0 <= centis_of t <= 6000.
Proof.
  unfold centis_of. pose proof (seconds_of_range t) as [H0 H60].
  apply round_half_even_range.
  - change (inject_Z 0) with 0%Q. lra.
  - change (inject_Z 6000) with 6000%Q. lra.
Qed.

Lemma lrc_line_eq (seg : segment) :
  lrc_line seg =
  Ok ("[" ++ fmt_02d (minutes_of (start seg)) ++ ":"
      ++ fmt_05_2f (Qred (seconds_of (start seg))) ++ "]" ++ strip (text seg)).
Proof.
  unfold lrc_line, py_divmod. change (Qeq_bool 60 0) with false.
  cbn [bind]. rewrite py_int_inject_Z. reflexivity.
Qed.

Lemma zero_pad_5_2 (d td : string) : String.length td = 2%nat ->
  zero_pad 5 false (d ++ "." ++ td) = zero_pad 2 false d ++ "." ++ td.
Proof.
  intros H. unfold zero_pad. cbn [append String.length].
  rewrite length_app. cbn [append String.length]. rewrite H.
  replace (5 - 0 - (String.length d + 3))%nat with (2 - 0 - String.length d)%nat by lia.
  rewrite app_assoc_str. reflexivity.
Qed.

(** The seconds field of a remainder below one minute: two digits, a dot and
    two digits, holding the remainder rounded to the nearest hundredth. *)
Lemma fmt_05_2f_seconds (x : Q) : (0 <= x)%Q -> (x < 60)%Q ->
  let n := round_half_even (x * 100) in
  0 <= n <= 6000
  /\ fmt_05_2f x = two_digits (n / 100) ++ "." ++ two_digits (n mod 100).
Proof.
  intros H0 H60 n.
  assert (Hn : 0 <= n <= 6000).
  { apply round_half_even_range.
    - change (inject_Z 0) with 0%Q. lra.
    - change (inject_Z 6000) with 6000%Q. lra. }
  split; [exact Hn|].
  unfold fmt_05_2f. rewrite Qltb_false by exact H0.
  assert (E : round_half_even (Qabs x * 100) = n).
  { unfold n. apply round_half_even_comp. rewrite Qabs_pos by exact H0. reflexivity. }
  rewrite E. rewrite zero_pad_5_2 by reflexivity.
  pose proof (Z.mod_pos_bound n 100 ltac:(lia)).
  pose proof (Z.div_mod n 100 ltac:(lia)).
  rewrite digits_two by lia. reflexivity.
Qed.

(** ** The parser, line by line *)

Lemma no_linebreak_app (s t : string) :
  no_linebreak (s ++ t) <-> no_linebreak s /\ no_linebreak t.
Proof.
  unfold no_linebreak. rewrite all_chars_app. apply andb_true_iff.
Qed.

(** Induction two characters at a time, as [splitlines] reads CR LF. *)
Lemma string_ind2 (P : string -> Prop) :
  P EmptyString ->
  (forall c, P (String c EmptyString)) ->
  (forall c c' s, P s -> P (String c' s) -> P (String c (String c' s))) ->
  forall s, P s.
Proof.
  intros H0 H1 H2 s.
  assert (H : P s /\ forall c, P (String c s)).
  { induction s as [|c' s [IHa IHb]].
    - split; [exact H0|exact H1].
    - split; [apply IHb|]. intros c. apply H2; [exact IHa|apply IHb]. }
  apply H.
Qed.

Lemma splitlines_from_cons (cur : option string) (c : ascii) (s : string) :
  splitlines_from cur (String c s) =
  if is_linebreak c then
    line_of cur :: match s with
                   | String c' s'' =>
                       if (Ascii.eqb c CR && Ascii.eqb c' LF)%bool
                       then splitlines_from None s''
                       else splitlines_from None s
                   | EmptyString => []
                   end
  else splitlines_from (Some (line_of cur ++ String c EmptyString)) s.
Proof. reflexivity. Qed.

Lemma splitlines_from_no_linebreak (s : string) : forall cur,
  (forall l, cur = Some l -> no_linebreak l) ->
  Forall no_linebreak (splitlines_from cur s).
Proof.
  induction s as [|c|c c' s IH IH'] using string_ind2; intros cur Hcur;
    assert (Hl : no_linebreak (line_of cur))
      by (destruct cur; [apply Hcur|]; reflexivity).
  - simpl. destruct cur; constructor; auto.
  - rewrite splitlines_from_cons. destruct (is_linebreak c) eqn:Ec.
    + repeat constructor. exact Hl.
    + repeat constructor. apply no_linebreak_app. split; [exact Hl|].
      unfold no_linebreak. cbn. rewrite Ec. reflexivity.
  - rewrite splitlines_from_cons. destruct (is_linebreak c) eqn:Ec.
    + constructor; [exact Hl|].
      destruct (Ascii.eqb c CR && Ascii.eqb c' LF)%bool.
      * apply IH. discriminate.
      * apply IH'. discriminate.
    + apply IH'. intros l [= <-]. apply no_linebreak_app. split; [exact Hl|].
      unfold no_linebreak. cbn. rewrite Ec. reflexivity.
Qed.

Lemma splitlines_no_linebreak (s : string) : Forall no_linebreak (splitlines s).
Proof. apply splitlines_from_no_linebreak. discriminate. Qed.

Lemma dot_star_no_linebreak (s : string) : no_linebreak s -> dot_star s = s.
Proof.
  unfold no_linebreak. induction s as [|c s IH]; [reflexivity|].
  cbn [all_chars dot_star]. intros H. apply andb_prop in H. destruct H as [Hc Hs].
  destruct (Ascii.eqb_spec c LF) as [->|_]; [discriminate Hc|].
  rewrite (IH Hs). reflexivity.
Qed.

Lemma digit_not_dot (c : ascii) : is_digit c = true -> Ascii.eqb c "." = false.
Proof.
  intros H. destruct (Ascii.eqb_spec c ".") as [->|_]; [discriminate H|reflexivity].
Qed.

Lemma py_int_of_two_digits (m1 m2 : ascii) :
  is_digit m1 = true -> is_digit m2 = true ->
  py_int_of_str (String m1 (String m2 EmptyString))
  = Ok (10 * digit_val m1 + digit_val m2).
Proof.
  intros H1 H2. unfold py_int_of_str. cbn [all_chars digits_value].
  rewrite H1, H2. cbn [andb]. f_equal; lia.
Qed.

Lemma py_float_of_seconds (s1 s2 c1 c2 : ascii) :
  is_digit s1 = true -> is_digit s2 = true ->
  is_digit c1 = true -> is_digit c2 = true ->
  py_float_of_str (String s1 (String s2 (String "." (String c1 (String c2 EmptyString)))))
  = Ok (Qred (100 * (10 * digit_val s1 + digit_val s2)
              + (10 * digit_val c1 + digit_val c2) # 100)).
Proof.
  intros H1 H2 H3 H4. unfold py_float_of_str. cbn [split_dot].
  rewrite (digit_not_dot s1 H1), (digit_not_dot s2 H2). cbn [Ascii.eqb Bool.eqb].
  cbn [nonempty_digits all_chars]. rewrite H1, H2, H3, H4. cbn [andb].
  cbn [append digits_value String.length].
  change (Z.to_pos (10 ^ Z.of_nat 2)) with 100%positive.
  match goal with
  | |- Ok (Qred (?a # _)) = Ok (Qred (?b # _)) => replace a with b by lia
  end.
  reflexivity.
Qed.

Lemma re_match_lrc_lyric_line (m1 m2 s1 s2 c1 c2 : ascii) (rest : string) :
  is_digit m1 = true -> is_digit m2 = true -> is_digit s1 = true ->
  is_digit s2 = true -> is_digit c1 = true -> is_digit c2 = true ->
  re_match_lrc (String "[" (String m1 (String m2 (String ":" (String s1 (String s2
                 (String "." (String c1 (String c2 (String "]" rest))))))))))
  = Some (String m1 (String m2 EmptyString),
          String s1 (String s2 (String "." (String c1 (String c2 EmptyString)))),
          dot_star rest).
Proof.
  intros H1 H2 H3 H4 H5 H6. unfold re_match_lrc.
  rewrite H1, H2, H3, H4, H5, H6. reflexivity.
Qed.

Lemma re_match_lrc_Some (line mi se txt : string) :
  re_match_lrc line = Some (mi, se, txt) ->
  exists m1 m2 s1 s2 c1 c2 rest,
    is_digit m1 = true /\ is_digit m2 = true /\ is_digit s1 = true
    /\ is_digit s2 = true /\ is_digit c1 = true /\ is_digit c2 = true
    /\ line = String "[" (String m1 (String m2 (String ":" (String s1 (String s2
                (String "." (String c1 (String c2 (String "]" rest)))))))))
    /\ mi = String m1 (String m2 EmptyString)
    /\ se = String s1 (String s2 (String "." (String c1 (String c2 EmptyString))))
    /\ txt = dot_star rest.
Proof.
  unfold re_match_lrc.
  destruct line as [|b [|m1 [|m2 [|co [|s1 [|s2 [|dt [|c1 [|c2 [|e rest]]]]]]]]]];
    try discriminate.
  destruct (Ascii.eqb_spec b "["); [subst b|discriminate].
  destruct (is_digit m1) eqn:D1; [|discriminate].
  destruct (is_digit m2) eqn:D2; [|discriminate].
  destruct (Ascii.eqb_spec co ":"); [subst co|discriminate].
  destruct (is_digit s1) eqn:D3; [|discriminate].
  destruct (is_digit s2) eqn:D4; [|discriminate].
  destruct (Ascii.eqb_spec dt "."); [subst dt|discriminate].
  destruct (is_digit c1) eqn:D5; [|discriminate].
  destruct (is_digit c2) eqn:D6; [|discriminate].
  destruct (Ascii.eqb_spec e "]"); [subst e|discriminate].
  cbn [andb]. intros [= <- <- <-].
  exists m1, m2, s1, s2, c1, c2, rest. repeat split; assumption.
Qed.

Lemma lyric_time_eq (mm ss cc : Z) :
  Qred (inject_Z (mm * 60) + Qred (100 * ss + cc # 100)) = lyric_time mm ss cc.
Proof.
  unfold lyric_time. apply Qred_complete.
  rewrite Qred_correct, (Qmake_Qdiv (100 * ss + cc) 100). reflexivity.
Qed.

Lemma line_entries_lyric_line (line : string) (mm ss cc : Z) (rest : string) :
  lyric_line line mm ss cc rest ->
  line_entries line = [(lyric_time mm ss cc, dot_star rest)].
Proof.
  intros (m1 & m2 & s1 & s2 & c1 & c2 & D1 & D2 & D3 & D4 & D5 & D6 & -> & -> & -> & ->).
  unfold line_entries.
  rewrite re_match_lrc_lyric_line, py_int_of_two_digits, py_float_of_seconds by assumption.
  rewrite lyric_time_eq. reflexivity.
Qed.

Lemma re_match_lrc_None (line : string) :
  re_match_lrc line = None <-> (forall mm ss cc rest, ~ lyric_line line mm ss cc rest).
Proof.
  split.
  - intros HN mm ss cc rest (m1 & m2 & s1 & s2 & c1 & c2 & D1 & D2 & D3 & D4 & D5 & D6 & E & _).
    subst line. rewrite re_match_lrc_lyric_line in HN by assumption. discriminate.
  - intros H. destruct (re_match_lrc line) as [[[mi se] txt]|] eqn:E; [|reflexivity].
    exfalso. apply re_match_lrc_Some in E.
    destruct E as (m1 & m2 & s1 & s2 & c1 & c2 & rest & D1 & D2 & D3 & D4 & D5 & D6 & E & _).
    eapply H. exists m1, m2, s1, s2, c1, c2. repeat split; eauto.
Qed.

Lemma line_entries_None (line : string) :
  re_match_lrc line = None -> line_entries line = [].
Proof. intros H. unfold line_entries. rewrite H. reflexivity. Qed.

(** The loop of [parse_lrc] never raises, and appends the entries of the
    lines in their order. *)
Lemma parse_lrc_lines_eq (lines : list string) : forall acc,
  parse_lrc_lines lines acc = Ok (acc ++ flat_map line_entries lines)%list.
Proof.
  induction lines as [|line lines IH]; intros acc.
  - simpl. rewrite app_nil_r. reflexivity.
  - cbn [parse_lrc_lines flat_map]. unfold line_entries at 1.
    destruct (re_match_lrc line) as [[[mi se] txt]|] eqn:E.
    + apply re_match_lrc_Some in E.
      destruct E as (m1 & m2 & s1 & s2 & c1 & c2 & rest & D1 & D2 & D3 & D4 & D5 & D6 & _ & -> & -> & _).
      rewrite py_int_of_two_digits, py_float_of_seconds by assumption.
      cbn [bind]. rewrite IH, <- app_assoc. reflexivity.
    + apply IH.
Qed.

Lemma parse_lrc_eq (lrc_text : string) :
  parse_lrc lrc_text = Ok (flat_map line_entries (splitlines lrc_text)).
Proof. unfold parse_lrc. apply parse_lrc_lines_eq. Qed.

(** ** Lines of a text *)

Lemma splitlines_from_LF (cur : option string) (r : string) :
  splitlines_from cur (String LF r) = line_of cur :: splitlines_from None r.
Proof. rewrite splitlines_from_cons. destruct r; reflexivity. Qed.

(** A line boundary LF cuts a text in two wherever it stands. *)
Lemma splitlines_from_app_LF (a r : string) : forall cur,
  splitlines_from cur (a ++ String LF r)
  = (splitlines_from cur (a ++ newline) ++ splitlines_from None r)%list.
Proof.
  induction a as [|c|c c' a IH IH'] using string_ind2; intros cur.
  - cbn [append]. unfold newline. rewrite !splitlines_from_LF. reflexivity.
  - cbn [append]. unfold newline. rewrite !(splitlines_from_cons cur c).
    destruct (is_linebreak c).
    + destruct (Ascii.eqb c CR && Ascii.eqb LF LF)%bool.
      * reflexivity.
      * rewrite !splitlines_from_LF. reflexivity.
    + rewrite !splitlines_from_LF. reflexivity.
  - cbn [append]. rewrite !(splitlines_from_cons cur c).
    destruct (is_linebreak c).
    + cbn [app]. f_equal.
      destruct (Ascii.eqb c CR && Ascii.eqb c' LF)%bool; [apply IH|apply IH'].
    + apply IH'.
Qed.

Lemma splitlines_from_one_line (l : string) : forall cur,
  no_linebreak l ->
  splitlines_from cur (l ++ newline) = [line_of cur ++ l].
Proof.
  unfold no_linebreak.
  induction l as [|c l IH]; intros cur H.
  - cbn [append]. unfold newline. rewrite splitlines_from_LF, app_empty_r. reflexivity.
  - cbn [all_chars] in H. apply andb_prop in H. destruct H as [Hc Hl].
    cbn [append]. rewrite splitlines_from_cons.
    destruct (is_linebreak c); [discriminate Hc|].
    rewrite (IH _ Hl). cbn [line_of]. rewrite app_assoc_str. reflexivity.
Qed.

Lemma splitlines_from_final_line (l : string) : forall cur,
  no_linebreak l ->
  splitlines_from (Some cur) l = [cur ++ l].
Proof.
  unfold no_linebreak.
  induction l as [|c l IH]; intros cur H.
  - cbn. rewrite app_empty_r. reflexivity.
  - cbn [all_chars] in H. apply andb_prop in H. destruct H as [Hc Hl].
    rewrite splitlines_from_cons.
    destruct (is_linebreak c); [discriminate Hc|].
    rewrite (IH _ Hl). cbn [line_of]. rewrite app_assoc_str. reflexivity.
Qed.

(** A text without line boundary is one line, unless it is empty. *)
Lemma splitlines_single (c : ascii) (l : string) :
  no_linebreak (String c l) -> splitlines (String c l) = [String c l].
Proof.
  intros H. unfold splitlines. rewrite splitlines_from_cons.
  pose proof H as H'. unfold no_linebreak in H'. cbn [all_chars] in H'.
  apply andb_prop in H'. destruct H' as [Hc Hl].
  destruct (is_linebreak c); [discriminate Hc|].
  cbn [line_of append]. apply (splitlines_from_final_line l (String c EmptyString) Hl).
Qed.

Lemma lyric_line_rest_no_linebreak (line : string) (mm ss cc : Z) (rest : string) :
  lyric_line line mm ss cc rest -> no_linebreak line -> no_linebreak rest.
Proof.
  intros (m1 & m2 & s1 & s2 & c1 & c2 & _ & _ & _ & _ & _ & _ & -> & _) H.
  unfold no_linebreak in *. cbn [all_chars] in H.
  repeat (apply andb_prop in H; destruct H as [_ H]). exact H.
Qed.

Lemma line_entries_contributes (line : string) :
  no_linebreak line -> line_contributes line (line_entries line).
Proof.
  intros Hnl. destruct (re_match_lrc line) as [[[mi se] txt]|] eqn:E.
  - left. apply re_match_lrc_Some in E.
    destruct E as (m1 & m2 & s1 & s2 & c1 & c2 & rest & D1 & D2 & D3 & D4 & D5 & D6 & E & _).
    assert (HL : lyric_line line (10 * digit_val m1 + digit_val m2)
                   (10 * digit_val s1 + digit_val s2)
                   (10 * digit_val c1 + digit_val c2) rest).
    { exists m1, m2, s1, s2, c1, c2. repeat split; assumption. }
    eexists _, _, _, rest. split; [exact HL|].
    rewrite (line_entries_lyric_line _ _ _ _ _ HL).
    rewrite dot_star_no_linebreak; [reflexivity|].
    eapply lyric_line_rest_no_linebreak; eassumption.
  - right. split; [apply re_match_lrc_None; exact E|apply line_entries_None; exact E].
Qed.

(** C4.  For every input text, [parse_lrc] returns the concatenation, in the
    order of the lines of the text, of what each line contributes: a line of
    the shape bracket, two digits, colon, two digits, dot, two digits, bracket,
    rest contributes exactly the entry (minutes * 60 + seconds.hundredths,
    rest), with the rest of the line unchanged; and the result is not
    sorted, as the two lines in decreasing time order show. *)
Theorem parse_lrc_match_semantics (lrc_text : string) :
  (exists per_line : list (list (Q * string)),
      parse_lrc lrc_text = Ok (concat per_line)
      /\ Forall2 line_contributes (splitlines lrc_text) per_line)
  /\ parse_lrc ("[01:05.50] b " ++ newline ++ "[00:00.00]a")
     = Ok [(131 # 2, " b "); (0%Q, "a")].
Proof.
  split; [|vm_compute; reflexivity].
  exists (map line_entries (splitlines lrc_text)). split.
  - rewrite parse_lrc_eq, flat_map_concat_map. reflexivity.
  - pose proof (splitlines_no_linebreak lrc_text) as H.
    induction H as [|line lines Hl _ IH]; cbn [map]; constructor.
    + apply line_entries_contributes. exact Hl.
    + exact IH.
Qed.

(** C5.  [parse_lrc] returns a result on every text: it never raises.  A
    line [bad] that the pattern does not match contributes no entry, and the
    entries of the other lines are the same with it and without it, whether
    it stands between two parts of the text, first or alone; the empty text
    has no entry, and neither have the two malformed lines of the
    specification. *)
Theorem parse_lrc_tolerant (a bad b : string) :
  no_linebreak bad -> re_match_lrc bad = None ->
  (forall lrc_text, exists out, parse_lrc lrc_text = Ok out)
  /\ parse_lrc (a ++ newline ++ bad ++ newline ++ b) = parse_lrc (a ++ newline ++ b)
  /\ parse_lrc (bad ++ newline ++ b) = parse_lrc b
  /\ parse_lrc bad = Ok []
  /\ parse_lrc EmptyString = Ok []
  /\ parse_lrc "not a lyric line" = Ok []
  /\ parse_lrc "[1:2.3]hi" = Ok []
  /\ parse_lrc ("[1:2.3]hi" ++ newline ++ "[00:01.00]x" ++ newline
                ++ "not a lyric line" ++ newline ++ "[00:02.50]y")
     = Ok [(1%Q, "x"); (5 # 2, "y")].
Proof.
  intros Hnl Hbad.
  split; [intros t; eexists; apply parse_lrc_eq|].
  split; [|split; [|split; [|repeat split; vm_compute; reflexivity]]].
  - rewrite !parse_lrc_eq. unfold splitlines, newline. cbn [append].
    rewrite (splitlines_from_app_LF a), (splitlines_from_app_LF bad).
    rewrite (splitlines_from_app_LF a b).
    rewrite (splitlines_from_one_line bad None Hnl). cbn [line_of append].
    rewrite !flat_map_app. cbn [flat_map].
    rewrite (line_entries_None bad Hbad). reflexivity.
  - rewrite !parse_lrc_eq. unfold splitlines, newline. cbn [append].
    rewrite (splitlines_from_app_LF bad).
    rewrite (splitlines_from_one_line bad None Hnl). cbn [line_of append].
    cbn [app flat_map]. rewrite (line_entries_None bad Hbad). reflexivity.
  - rewrite parse_lrc_eq. destruct bad as [|c l]; [reflexivity|].
    rewrite (splitlines_single c l Hnl). cbn [flat_map].
    rewrite (line_entries_None _ Hbad). reflexivity.
Qed.

Lemma parse_lrc_tolerant_witness :
  parse_lrc ("[00:01.00]x" ++ newline ++ "[1:2.3]hi" ++ newline ++ "[00:02.50]y")
  = parse_lrc ("[00:01.00]x" ++ newline ++ "[00:02.50]y").
Proof.
  apply (parse_lrc_tolerant "[00:01.00]x" "[1:2.3]hi" "[00:02.50]y");
    reflexivity.
Defined.

(** ** Stripping *)

Lemma lstrip_spec (s : string) :
  exists pre, s = pre ++ lstrip s
    /\ all_chars is_space pre = true /\ starts_with_space (lstrip s) = false.
Proof.
  induction s as [|c s (pre & E & Hp & Hs)].
  - exists EmptyString. repeat split.
  - cbn [lstrip]. destruct (is_space c) eqn:Ec.
    + exists (String c pre). cbn [append all_chars]. rewrite <- E, Ec, Hp. repeat split. exact Hs.
    + exists EmptyString. repeat split. exact Ec.
Qed.

Lemma rstrip_spec (s : string) :
  exists post, s = rstrip s ++ post
    /\ all_chars is_space post = true /\ ends_with_space (rstrip s) = false.
Proof.
  induction s as [|c s (post & E & Hp & Hs)].
  - exists EmptyString. repeat split.
  - cbn [rstrip]. destruct (rstrip s) as [|c' r] eqn:Er.
    + destruct (is_space c) eqn:Ec.
      * exists (String c post). cbn [append] in *. subst post. cbn [all_chars].
        rewrite Ec, Hp. repeat split.
      * exists post. cbn [append] in *. subst post. repeat split; assumption.
    + exists post. cbn [append] in *. rewrite <- E. repeat split; assumption.
Qed.

Lemma rstrip_starts (s : string) :
  starts_with_space s = false -> starts_with_space (rstrip s) = false.
Proof.
  destruct s as [|c s]; [reflexivity|]. cbn [starts_with_space rstrip]. intros Hc.
  destruct (rstrip s); [rewrite Hc|]; exact Hc.
Qed.

Lemma strip_spec (s : string) : stripped_of s (strip s).
Proof.
  unfold strip.
  destruct (lstrip_spec s) as (pre & E1 & Hpre & Hst).
  destruct (rstrip_spec (lstrip s)) as (post & E2 & Hpost & Hen).
  exists pre, post. repeat split; try assumption.
  - rewrite <- E2. exact E1.
  - apply rstrip_starts. exact Hst.
Qed.

(** ** The formatter as a whole *)

Lemma generate_lrc_lines_eq (segments : list segment) : forall acc,
  generate_lrc_lines segments acc = Ok (acc ++ map lrc_line_text segments)%list.
Proof.
  induction segments as [|seg segments IH]; intros acc.
  - simpl. rewrite app_nil_r. reflexivity.
  - cbn [generate_lrc_lines map]. rewrite lrc_line_eq. cbn [bind].
    rewrite IH, <- app_assoc. reflexivity.
Qed.

Lemma generate_lrc_content_eq (segments : list segment) :
  generate_lrc_content segments = Ok (join newline (map lrc_line_text segments)).
Proof.
  unfold generate_lrc_content. rewrite generate_lrc_lines_eq. reflexivity.
Qed.

Lemma fmt_05_2f_time (t : Q) :
  fmt_05_2f (Qred (seconds_of t))
  = two_digits (centis_of t / 100) ++ "." ++ two_digits (centis_of t mod 100).
Proof.
  pose proof (seconds_of_range t) as [H0 H60].
  assert (E : (Qred (seconds_of t) == seconds_of t)%Q) by apply Qred_correct.
  destruct (fmt_05_2f_seconds (Qred (seconds_of t))) as [_ H]; [rewrite E; exact H0|rewrite E; exact H60|].
  rewrite H. unfold centis_of.
  assert (En : round_half_even (Qred (seconds_of t) * 100) = round_half_even (seconds_of t * 100)).
  { apply round_half_even_comp. rewrite E. reflexivity. }
  rewrite En. reflexivity.
Qed.

Lemma centis_of_near (t : Q) :
  (Qabs (inject_Z (centis_of t) / 100 - seconds_of t) <= 1 # 200)%Q.
Proof.
  unfold centis_of. pose proof (round_half_even_near (seconds_of t * 100)) as [H1 H2].
  generalize dependent (inject_Z (round_half_even (seconds_of t * 100))).
  generalize (seconds_of t). intros s n H1 H2.
  unfold Qdiv. change (/ 100)%Q with (1 # 100)%Q.
  apply Qabs_Qle_condition. split; lra.
Qed.

Lemma lrc_line_text_shape (seg : segment) :
  (0 <= start seg)%Q -> lrc_line_shape seg (lrc_line_text seg).
Proof.
  intros H0. unfold lrc_line_shape. cbv zeta.
  fold (minutes_of (start seg)). fold (seconds_of (start seg)).
  fold (centis_of (start seg)).
  split; [apply seconds_of_range|].
  pose proof (minutes_of_nonneg _ H0) as Hm.
  pose proof (centis_of_range (start seg)) as Hn.
  exists (fmt_02d (minutes_of (start seg))), (fmt_05_2f (Qred (seconds_of (start seg)))).
  destruct (fmt_02d_value _ Hm) as [Hd Hv].
  split; [reflexivity|]. split; [exact Hd|]. split; [exact Hv|].
  split; [intros Hlt; rewrite fmt_02d_small by lia; reflexivity|].
  split.
  { intros Hge. destruct (fmt_02d_large _ Hge) as [E Hl]. rewrite E. split; [reflexivity|exact Hl]. }
  rewrite fmt_05_2f_time.
  split; [reflexivity|]. split; [reflexivity|]. split; [exact Hn|].
  apply centis_of_near.
Qed.

Lemma two_digits_chars (k : Z) : 0 <= k < 100 ->
  0 <= k / 10 <= 9 /\ 0 <= k mod 10 <= 9 /\ 10 * (k / 10) + k mod 10 = k.
Proof.
  intros Hk.
  pose proof (Z.mod_pos_bound k 10 ltac:(lia)).
  pose proof (Z.div_mod k 10 ltac:(lia)). lia.
Qed.

Lemma lyric_line_two_digits (m a b : Z) (rest : string) :
  0 <= m < 100 -> 0 <= a < 100 -> 0 <= b < 100 ->
  lyric_line ("[" ++ two_digits m ++ ":" ++ two_digits a ++ "."
              ++ two_digits b ++ "]" ++ rest) m a b rest.
Proof.
  intros Hm Ha Hb.
  destruct (two_digits_chars m Hm) as (M1 & M2 & M3).
  destruct (two_digits_chars a Ha) as (A1 & A2 & A3).
  destruct (two_digits_chars b Hb) as (B1 & B2 & B3).
  exists (digit_char (m / 10)), (digit_char (m mod 10)),
         (digit_char (a / 10)), (digit_char (a mod 10)),
         (digit_char (b / 10)), (digit_char (b mod 10)).
  rewrite !is_digit_digit_char, !digit_val_digit_char by lia.
  repeat split; try reflexivity; lia.
Qed.

Lemma no_linebreak_two_digits (k : Z) : 0 <= k < 100 -> no_linebreak (two_digits k).
Proof.
  intros Hk. destruct (two_digits_chars k Hk) as (K1 & K2 & _).
  unfold no_linebreak, two_digits. cbn [all_chars].
  rewrite !is_digit_not_linebreak by (apply is_digit_digit_char; lia).
  reflexivity.
Qed.

Lemma py_float_of_two_digits (a b : Z) : 0 <= a < 100 -> 0 <= b < 100 ->
  py_float_of_str (two_digits a ++ "." ++ two_digits b) = Ok (Qred (100 * a + b # 100)).
Proof.
  intros Ha Hb.
  destruct (two_digits_chars a Ha) as (A1 & A2 & A3).
  destruct (two_digits_chars b Hb) as (B1 & B2 & B3).
  unfold two_digits. cbn [append].
  rewrite py_float_of_seconds by (apply is_digit_digit_char; lia).
  rewrite !digit_val_digit_char by lia. rewrite A3, B3. reflexivity.
Qed.

Lemma centis_split (t : Q) :
  0 <= centis_of t / 100 < 100 /\ 0 <= centis_of t mod 100 < 100
  /\ 100 * (centis_of t / 100) + centis_of t mod 100 = centis_of t.
Proof.
  pose proof (centis_of_range t).
  pose proof (Z.mod_pos_bound (centis_of t) 100 ltac:(lia)).
  pose proof (Z.div_mod (centis_of t) 100 ltac:(lia)). lia.
Qed.

(** The time written for [t]: [t] rounded to the nearest hundredth. *)
Lemma centis_total (t : Q) :
  6000 * minutes_of t + centis_of t = round_half_even (t * 100).
Proof.
  unfold centis_of.
  replace (6000 * minutes_of t) with (2 * (3000 * minutes_of t)) by lia.
  rewrite Z.add_comm, <- round_half_even_add_even.
  apply round_half_even_comp. unfold seconds_of.
  rewrite inject_Z_mult, inject_Z_mult.
  change (inject_Z 2) with 2%Q. change (inject_Z 3000) with 3000%Q. ring.
Qed.

(** The round trip of one line below one hundred minutes. *)
Lemma parse_lrc_line_text (seg : segment) :
  (0 <= start seg)%Q -> (start seg < 6000)%Q -> no_linebreak (strip (text seg)) ->
  parse_lrc (lrc_line_text seg)
  = Ok [(lyric_time (minutes_of (start seg)) (centis_of (start seg) / 100)
           (centis_of (start seg) mod 100), strip (text seg))].
Proof.
  intros H0 H1 Hnl.
  assert (Hm : 0 <= minutes_of (start seg) < 100).
  { split; [apply minutes_of_nonneg; exact H0|].
    apply minutes_of_lt. change (inject_Z (60 * 100)) with 6000%Q. exact H1. }
  destruct (centis_split (start seg)) as (Ha & Hb & _).
  unfold lrc_line_text. rewrite fmt_05_2f_time, fmt_02d_small by exact Hm.
  set (line := "[" ++ _).
  assert (HL : lyric_line line (minutes_of (start seg)) (centis_of (start seg) / 100)
                 (centis_of (start seg) mod 100) (strip (text seg))).
  { unfold line. rewrite !app_assoc_str.
    apply (lyric_line_two_digits _ _ _ _ Hm Ha Hb). }
  assert (Hline : no_linebreak line).
  { unfold line. rewrite !app_assoc_str.
    repeat (apply no_linebreak_app; split);
      try (apply no_linebreak_two_digits; assumption); try reflexivity; exact Hnl. }
  rewrite parse_lrc_eq. unfold line in *. cbn [append] in *.
  rewrite splitlines_single by exact Hline. cbn [flat_map].
  rewrite (line_entries_lyric_line _ _ _ _ _ HL), app_nil_r.
  rewrite dot_star_no_linebreak by exact Hnl. reflexivity.
Qed.

Lemma lyric_time_of_centis (t : Q) :
  (lyric_time (minutes_of t) (centis_of t / 100) (centis_of t mod 100)
   == inject_Z (round_half_even (t * 100)) / 100)%Q.
Proof.
  destruct (centis_split t) as (_ & _ & E).
  unfold lyric_time. rewrite Qred_correct, E, <- centis_total.
  rewrite !inject_Z_plus, !inject_Z_mult.
  change (inject_Z 60) with 60%Q. change (inject_Z 6000) with 6000%Q. field.
Qed.

Lemma round_half_even_centis_near (t : Q) :
  (Qabs (inject_Z (round_half_even (t * 100)) / 100 - t) <= 1 # 200)%Q.
Proof.
  pose proof (round_half_even_near (t * 100)) as [H1 H2].
  generalize dependent (inject_Z (round_half_even (t * 100))). intros n H1 H2.
  unfold Qdiv. change (/ 100)%Q with (1 # 100)%Q.
  apply Qabs_Qle_condition. split; lra.
Qed.

(** The stamp written for a start below one hundred minutes: two digits of
    minutes, two digits of seconds and two digits of hundredths, which read
    together are the start rounded to the nearest hundredth. *)
Lemma stamp_written (seg : segment) :
  (0 <= start seg)%Q -> (start seg < 6000)%Q ->
  let mm := minutes_of (start seg) in
  let ss := centis_of (start seg) / 100 in
  let cc := centis_of (start seg) mod 100 in
  lrc_line_text seg
  = "[" ++ two_digits mm ++ ":" ++ two_digits ss ++ "." ++ two_digits cc ++ "]"
    ++ strip (text seg)
  /\ 0 <= mm < 100 /\ 0 <= ss <= 60 /\ 0 <= cc < 100
  /\ 100 * (60 * mm + ss) + cc = round_half_even (start seg * 100).
Proof.
  intros H0 H1. cbv zeta.
  assert (Hm : 0 <= minutes_of (start seg) < 100).
  { split; [apply minutes_of_nonneg; exact H0|].
    apply minutes_of_lt. change (inject_Z (60 * 100)) with 6000%Q. exact H1. }
  destruct (centis_split (start seg)) as (Ha & Hb & E).
  pose proof (centis_of_range (start seg)) as Hc.
  pose proof (centis_total (start seg)) as Ht.
  split; [|repeat split; lia].
  unfold lrc_line_text. rewrite fmt_05_2f_time, fmt_02d_small by exact Hm.
  rewrite !app_assoc_str. reflexivity.
Qed.

(** What the parser makes of a stamped line: the time is computed as
    [int(minutes) * 60 + float(seconds)] from the two fields of the stamp. *)
Lemma parse_lrc_stamp (mm ss cc : Z) (rest : string) :
  0 <= mm < 100 -> 0 <= ss < 100 -> 0 <= cc < 100 -> no_linebreak rest ->
  exists s,
    py_int_of_str (two_digits mm) = Ok mm
    /\ py_float_of_str (two_digits ss ++ "." ++ two_digits cc) = Ok s
    /\ line_entries ("[" ++ two_digits mm ++ ":" ++ two_digits ss ++ "."
                     ++ two_digits cc ++ "]" ++ rest)
       = [(Qred (inject_Z (mm * 60) + s), rest)]
    /\ parse_lrc ("[" ++ two_digits mm ++ ":" ++ two_digits ss ++ "."
                  ++ two_digits cc ++ "]" ++ rest)
       = Ok [(Qred (inject_Z (mm * 60) + s), rest)].
Proof.
  intros Hm Hs Hc Hnl. exists (Qred (100 * ss + cc # 100)).
  destruct (two_digits_chars mm Hm) as (M1 & M2 & M3).
  assert (Hi : py_int_of_str (two_digits mm) = Ok mm).
  { unfold two_digits.
    rewrite py_int_of_two_digits by (apply is_digit_digit_char; lia).
    rewrite !digit_val_digit_char by lia. rewrite M3. reflexivity. }
  assert (He : line_entries ("[" ++ two_digits mm ++ ":" ++ two_digits ss ++ "."
                              ++ two_digits cc ++ "]" ++ rest)
               = [(Qred (inject_Z (mm * 60) + Qred (100 * ss + cc # 100)), rest)]).
  { rewrite (line_entries_lyric_line _ _ _ _ _
               (lyric_line_two_digits mm ss cc rest Hm Hs Hc)).
    rewrite lyric_time_eq, dot_star_no_linebreak by exact Hnl. reflexivity. }
  split; [exact Hi|]. split; [apply py_float_of_two_digits; assumption|].
  split; [exact He|].
  assert (Hline : no_linebreak ("[" ++ two_digits mm ++ ":" ++ two_digits ss ++ "."
                                ++ two_digits cc ++ "]" ++ rest)).
  { apply (no_linebreak_app "["). split; [reflexivity|].
    apply no_linebreak_app. split; [apply no_linebreak_two_digits; exact Hm|].
    apply (no_linebreak_app ":"). split; [reflexivity|].
    apply no_linebreak_app. split; [apply no_linebreak_two_digits; exact Hs|].
    apply (no_linebreak_app "."). split; [reflexivity|].
    apply no_linebreak_app. split; [apply no_linebreak_two_digits; exact Hc|].
    apply (no_linebreak_app "]"). split; [reflexivity|exact Hnl]. }
  rewrite parse_lrc_eq.
  change ("[" ++ two_digits mm ++ ":" ++ two_digits ss ++ "." ++ two_digits cc
          ++ "]" ++ rest)
    with (String "[" (two_digits mm ++ ":" ++ two_digits ss ++ "." ++ two_digits cc
                      ++ "]" ++ rest)) in *.
  rewrite splitlines_single by exact Hline. cbn [flat_map].
  rewrite He. reflexivity.
Qed.

(** C1, as amended.  For every segment whose start is at least 0 and below
    6000 seconds (one hundred minutes) and whose stripped text is not empty and
    holds no line boundary, the formatter writes the line [MM:SS.CC]text with
    the stripped text, and the stamp MM:SS.CC, two digits each, read as
    minutes, seconds and hundredths, is the start rounded to the nearest
    hundredth of a second (ties to the even hundredth), hence at most 0.005 s
    away from the start.  Parsing that line gives exactly one entry: its text
    is the stripped text, and its time is the one the parser computes from the
    stamp, int(MM) * 60 + float(SS.CC).  The two segments of the scenario
    format and parse back as the specification says. *)
Theorem lrc_round_trip (seg : segment) :
  (0 <= start seg)%Q -> (start seg < 6000)%Q ->
  strip (text seg) <> EmptyString -> no_linebreak (strip (text seg)) ->
  (exists mm ss cc s,
      generate_lrc_content [seg]
      = Ok ("[" ++ two_digits mm ++ ":" ++ two_digits ss ++ "." ++ two_digits cc
            ++ "]" ++ strip (text seg))
      /\ 0 <= mm < 100 /\ 0 <= ss <= 60 /\ 0 <= cc < 100
      /\ 100 * (60 * mm + ss) + cc = round_half_even (start seg * 100)
      /\ (Qabs (inject_Z (100 * (60 * mm + ss) + cc) / 100 - start seg) <= 1 # 200)%Q
      /\ py_int_of_str (two_digits mm) = Ok mm
      /\ py_float_of_str (two_digits ss ++ "." ++ two_digits cc) = Ok s
      /\ parse_lrc ("[" ++ two_digits mm ++ ":" ++ two_digits ss ++ "."
                    ++ two_digits cc ++ "]" ++ strip (text seg))
         = Ok [(Qred (inject_Z (mm * 60) + s), strip (text seg))])
  /\ generate_lrc_content [Segment 0 " Hello "; Segment (131 # 2) "world"]
     = Ok ("[00:00.00]Hello" ++ newline ++ "[01:05.50]world")
  /\ parse_lrc ("[00:00.00]Hello" ++ newline ++ "[01:05.50]world")
     = Ok [(0%Q, "Hello"); (131 # 2, "world")].
Proof.
  intros H0 H1 _ Hnl.
  split; [|split; vm_compute; reflexivity].
  destruct (stamp_written seg H0 H1) as (El & Hm & Hs & Hc & Et). cbv zeta in *.
  destruct (centis_split (start seg)) as (Hs' & _ & _).
  destruct (parse_lrc_stamp _ _ _ (strip (text seg)) Hm Hs' Hc Hnl)
    as (s & Hi & Hf & _ & Hp).
  exists (minutes_of (start seg)), (centis_of (start seg) / 100),
         (centis_of (start seg) mod 100), s.
  split; [rewrite (generate_lrc_content_eq [seg]); cbn [map join]; rewrite El; reflexivity|].
  repeat (split; [assumption|]).
  split; [rewrite Et; apply round_half_even_centis_near|].
  repeat (split; [assumption|]). exact Hp.
Qed.

Lemma lrc_round_trip_witness :
  (0 <= 131 # 2)%Q /\ (131 # 2 < 6000)%Q
  /\ exists mm ss cc s,
      generate_lrc_content [Segment (131 # 2) " world "]
      = Ok ("[" ++ two_digits mm ++ ":" ++ two_digits ss ++ "." ++ two_digits cc
            ++ "]" ++ "world")
      /\ 0 <= mm < 100 /\ 0 <= ss <= 60 /\ 0 <= cc < 100
      /\ 100 * (60 * mm + ss) + cc = round_half_even ((131 # 2) * 100)
      /\ (Qabs (inject_Z (100 * (60 * mm + ss) + cc) / 100 - (131 # 2)) <= 1 # 200)%Q
      /\ py_int_of_str (two_digits mm) = Ok mm
      /\ py_float_of_str (two_digits ss ++ "." ++ two_digits cc) = Ok s
      /\ parse_lrc ("[" ++ two_digits mm ++ ":" ++ two_digits ss ++ "."
                    ++ two_digits cc ++ "]" ++ "world")
         = Ok [(Qred (inject_Z (mm * 60) + s), "world")].
Proof.
  split; [unfold Qle; simpl; lia|]. split; [unfold Qlt; simpl; lia|].
  apply (lrc_round_trip (Segment (131 # 2) " world ")).
  - unfold Qle; simpl; lia.
  - unfold Qlt; simpl; lia.
  - simpl. discriminate.
  - reflexivity.
Defined.

(** C1 as stated fails in three ways.  At one hundred minutes the minutes
    field has three digits and the parser drops the line.  A start of 1/128 s
    is written 00.01 and parsed as 0.01 s, while the start cut to two
    decimal places is 0.  A text with a line boundary inside is cut at
    the boundary. *)
Lemma lrc_round_trip_counterexample :
  (generate_lrc_content [Segment 6000 "x"] = Ok "[100:00.00]x"
   /\ parse_lrc "[100:00.00]x" = Ok [])
  /\ (generate_lrc_content [Segment (1 # 128) "x"] = Ok "[00:00.01]x"
      /\ parse_lrc "[00:00.01]x" = Ok [(1 # 100, "x")]
      /\ Qred (truncate_centis (1 # 128)) = 0%Q)
  /\ (strip ("a" ++ newline ++ "b") = "a" ++ newline ++ "b"
      /\ generate_lrc_content [Segment 0 ("a" ++ newline ++ "b")]
         = Ok ("[00:00.00]a" ++ newline ++ "b")
      /\ parse_lrc ("[00:00.00]a" ++ newline ++ "b") = Ok [(0%Q, "a")]).
Proof. vm_compute. repeat split; reflexivity. Qed.

Lemma no_linebreak_digits_string (s : string) :
  all_chars is_digit s = true -> no_linebreak s.
Proof.
  unfold no_linebreak. induction s as [|c s IH]; [reflexivity|].
  cbn [all_chars]. intros H. apply andb_prop in H. destruct H as [Hc Hs].
  rewrite (is_digit_not_linebreak c Hc), (IH Hs). reflexivity.
Qed.

Lemma no_linebreak_zeros (k : nat) : no_linebreak (zeros k).
Proof. induction k as [|k IH]; [reflexivity|exact IH]. Qed.

Lemma no_linebreak_zero_pad (w : nat) (neg : bool) (body : string) :
  no_linebreak body -> no_linebreak (zero_pad w neg body).
Proof.
  intros H. unfold zero_pad.
  apply no_linebreak_app. split; [destruct neg; reflexivity|].
  apply no_linebreak_app. split; [apply no_linebreak_zeros|exact H].
Qed.

Lemma no_linebreak_fmt_02d (n : Z) : no_linebreak (fmt_02d n).
Proof.
  unfold fmt_02d. apply no_linebreak_zero_pad, no_linebreak_digits_string.
  apply (digits_correct (Z.abs n)). lia.
Qed.

Lemma round_half_even_nonneg (q : Q) : (0 <= q)%Q -> 0 <= round_half_even q.
Proof.
  intros H.
  assert (Hf : 0 <= Qfloor q).
  { rewrite <- (Qfloor_Z 0). apply Qfloor_resp_le. exact H. }
  destruct (round_half_even_cases q) as [[-> _]|[-> _]]; lia.
Qed.

Lemma no_linebreak_fmt_05_2f (x : Q) : no_linebreak (fmt_05_2f x).
Proof.
  unfold fmt_05_2f. apply no_linebreak_zero_pad.
  set (n := round_half_even (Qabs x * 100)).
  assert (Hn : 0 <= n).
  { apply round_half_even_nonneg. pose proof (Qabs_nonneg x). lra. }
  apply no_linebreak_app. split.
  - apply no_linebreak_digits_string. apply (digits_correct (n / 100)).
    apply Z.div_pos; lia.
  - apply no_linebreak_app. split; [reflexivity|].
    apply no_linebreak_two_digits. apply Z.mod_pos_bound. lia.
Qed.

(** A line of the formatter holds no line boundary unless the text does. *)
Lemma no_linebreak_lrc_line_text (seg : segment) :
  no_linebreak (strip (text seg)) -> no_linebreak (lrc_line_text seg).
Proof.
  intros H. unfold lrc_line_text.
  apply (no_linebreak_app "["). split; [reflexivity|].
  apply no_linebreak_app. split; [apply no_linebreak_fmt_02d|].
  apply (no_linebreak_app ":"). split; [reflexivity|].
  apply no_linebreak_app. split; [apply no_linebreak_fmt_05_2f|].
  apply (no_linebreak_app "]"). split; [reflexivity|exact H].
Qed.

(** Lines without boundary, none of them empty, are what [splitlines] finds
    in their join. *)
Lemma splitlines_join (lines : list string) :
  Forall (fun l => no_linebreak l /\ nonempty l) lines ->
  splitlines (join newline lines) = lines.
Proof.
  induction 1 as [|l rest [Hl Hne] Hrest IH]; [reflexivity|].
  destruct rest as [|l2 rest].
  - cbn [join]. destruct l as [|c l]; [exfalso; apply Hne; reflexivity|].
    apply splitlines_single. exact Hl.
  - change (join newline (l :: l2 :: rest))
      with (l ++ newline ++ join newline (l2 :: rest)).
    unfold newline at 1. cbn [append].
    unfold splitlines. rewrite splitlines_from_app_LF.
    rewrite (splitlines_from_one_line l None Hl). cbn [line_of append app].
    f_equal. exact IH.
Qed.

Lemma nonempty_lrc_line_text (seg : segment) : nonempty (lrc_line_text seg).
Proof. unfold nonempty, lrc_line_text. cbn [append]. discriminate. Qed.

Lemma splitlines_generated (segments : list segment) :
  Forall (fun seg => no_linebreak (strip (text seg))) segments ->
  splitlines (join newline (map lrc_line_text segments)) = map lrc_line_text segments.
Proof.
  intros H. apply splitlines_join. apply Forall_map.
  eapply Forall_impl; [|exact H]. intros seg Hseg. cbn beta.
  split; [apply no_linebreak_lrc_line_text; exact Hseg|apply nonempty_lrc_line_text].
Qed.

(** C6.  For every sequence of segments with starts from 0 up to, but not
    including, 2^53 seconds the formatter raises nothing and returns the lines
    of the segments, one per segment and in their order, joined by line feeds
    (the character of code 10); when no stripped text holds a line boundary,
    the lines of the returned text are exactly these lines.  Each line is a
    bracket, the minutes, a colon, the seconds, a bracket and the stripped
    text: the minutes are floor(start / 60) in decimal, two digits below 100
    and the plain numeral of three or more digits from 100 on; the seconds are
    the remainder start - minutes * 60, which lies in [0, 60), written in five
    characters as two digits, a dot and two digits; a segment with empty
    text gives a line that ends at the bracket. *)
Theorem generate_lrc_content_shape (segments : list segment) :
  Forall (fun seg => exact_range (start seg)) segments ->
  (exists lines,
      generate_lrc_content segments
      = Ok (join (String "010"%char EmptyString) lines)
      /\ List.length lines = List.length segments
      /\ Forall2 lrc_line_shape segments lines
      /\ (Forall (fun seg => no_linebreak (strip (text seg))) segments ->
          splitlines (join (String "010"%char EmptyString) lines) = lines))
  /\ (forall s, stripped_of s (strip s))
  /\ generate_lrc_content [Segment (15 # 2) EmptyString; Segment 6000 " x "; Segment 1 "y"]
     = Ok ("[00:07.50]" ++ String "010"%char
             ("[100:00.00]x" ++ String "010"%char "[00:01.00]y")).
Proof.
  intros Hpos.
  split; [|split; [exact strip_spec|vm_compute; reflexivity]].
  exists (map lrc_line_text segments).
  split; [apply generate_lrc_content_eq|].
  split; [apply length_map|].
  split; [|apply splitlines_generated].
  induction Hpos as [|seg segments [H0 _] _ IH]; cbn [map]; constructor.
  - apply lrc_line_text_shape. exact H0.
  - exact IH.
Qed.

Lemma generate_lrc_content_shape_witness :
  Forall (fun seg => exact_range (start seg))
    [Segment 0 " Hello "; Segment (131 # 2) "world"]
  /\ exists lines,
      generate_lrc_content [Segment 0 " Hello "; Segment (131 # 2) "world"]
      = Ok (join (String "010"%char EmptyString) lines)
      /\ List.length lines = 2%nat
      /\ Forall2 lrc_line_shape [Segment 0 " Hello "; Segment (131 # 2) "world"] lines
      /\ splitlines (join (String "010"%char EmptyString) lines) = lines.
Proof.
  assert (H : Forall (fun seg => exact_range (start seg))
                [Segment 0 " Hello "; Segment (131 # 2) "world"]).
  { repeat constructor; cbn; try (unfold Qle; simpl; lia); unfold Qlt; simpl; lia. }
  split; [exact H|].
  destruct (generate_lrc_content_shape _ H) as [(lines & E & L & S & Hl) _].
  exists lines. repeat split; try assumption.
  apply Hl. repeat constructor.
Defined.

(** C7, as amended.  For every segment whose start is at least 0 and below
    2^53 seconds the seconds field is the remainder
    start - minutes * 60 rounded to the nearest hundredth, ties to the even
    hundredth: the field reads back as n / 100 where n is the integer nearest
    to 100 times the remainder, so it is at most 0.005 s below or above the
    remainder, and n is the truncation of 100 times the remainder or one
    more. *)
Theorem seconds_field_rounds_to_nearest (seg : segment) :
  exact_range (start seg) ->
  let seconds := seconds_of (start seg) in
  let n := round_half_even (seconds * 100) in
  exists SS,
    lrc_line seg = Ok ("[" ++ fmt_02d (minutes_of (start seg)) ++ ":" ++ SS ++ "]"
                       ++ strip (text seg))
    /\ py_float_of_str SS = Ok (Qred (n # 100))
    /\ (Qabs (inject_Z n / 100 - seconds) <= 1 # 200)%Q
    /\ (n = Qfloor (seconds * 100) \/ n = Qfloor (seconds * 100) + 1).
Proof.
  intros _. cbv zeta. fold (centis_of (start seg)).
  exists (fmt_05_2f (Qred (seconds_of (start seg)))).
  split; [apply lrc_line_eq|].
  rewrite fmt_05_2f_time.
  destruct (centis_split (start seg)) as (Ha & Hb & E).
  split; [rewrite py_float_of_two_digits, E by assumption; reflexivity|].
  split; [apply centis_of_near|].
  unfold centis_of.
  destruct (round_half_even_cases (seconds_of (start seg) * 100)) as [[-> _]|[-> _]]; auto.
Qed.

Lemma seconds_field_rounds_to_nearest_witness :
  let seg := Segment (1 # 128) "x" in
  let seconds := seconds_of (start seg) in
  let n := round_half_even (seconds * 100) in
  exact_range (start seg)
  /\ exists SS,
      lrc_line seg = Ok ("[" ++ fmt_02d (minutes_of (start seg)) ++ ":" ++ SS ++ "]"
                         ++ strip (text seg))
      /\ py_float_of_str SS = Ok (Qred (n # 100))
      /\ (Qabs (inject_Z n / 100 - seconds) <= 1 # 200)%Q
      /\ (n = Qfloor (seconds * 100) \/ n = Qfloor (seconds * 100) + 1).
Proof.
  intros seg seconds n.
  assert (H : exact_range (start seg)).
  { split; [unfold Qle; simpl; lia|unfold Qlt; simpl; lia]. }
  split; [exact H|]. exact (seconds_field_rounds_to_nearest seg H).
Defined.

(** C7 as stated fails: a start of 1/128 s is written 00.01, not the
    truncation 00.00, and the time parsed back, 0.01 s, exceeds the start. *)
Lemma seconds_field_truncation_counterexample :
  lrc_line (Segment (1 # 128) "x") = Ok "[00:00.01]x"
  /\ Qfloor (seconds_of (1 # 128) * 100) = 0
  /\ parse_lrc "[00:00.01]x" = Ok [(1 # 100, "x")]
  /\ Qltb (1 # 128) (1 # 100) = true.
Proof. vm_compute. repeat split; reflexivity. Qed.

(** ** Playback sync *)

Lemma progress_value (e d : Q) : (0 < d)%Q ->
  progress e d = Ok (py_min (Qred (e / d)) 1).
Proof.
  intros Hd. unfold progress, py_truediv.
  destruct (Qeq_bool d 0) eqn:E; [|reflexivity].
  apply Qeq_bool_iff in E. lra.
Qed.

Lemma py_min_Qmin (a b : Q) : (py_min a b == Qmin a b)%Q.
Proof.
  unfold py_min, Qltb. destruct (Qle_bool a b) eqn:E.
  - apply Qle_bool_iff in E. rewrite Q.min_l by exact E. reflexivity.
  - assert (H : ~ (a <= b)%Q) by (intros H; apply Qle_bool_iff in H; congruence).
    rewrite Q.min_r by lra. reflexivity.
Qed.

(** C3.  For every elapsed time at least 0 and every duration above 0 the
    progress is min(elapsed / duration, 1.0), and it lies between 0 and 1;
    progress(150, 120) = 1, progress(0, 120) = 0 and progress(60, 120) = 0.5. *)
Theorem progress_rule (elapsed song_duration : Q) :
  (0 <= elapsed)%Q -> (0 < song_duration)%Q ->
  (exists p, progress elapsed song_duration = Ok p
             /\ (p == Qmin (elapsed / song_duration) 1)%Q
             /\ (0 <= p)%Q /\ (p <= 1)%Q)
  /\ progress 150 120 = Ok 1%Q
  /\ progress 0 120 = Ok 0%Q
  /\ progress 60 120 = Ok (1 # 2).
Proof.
  intros He Hd. split; [|vm_compute; repeat split; reflexivity].
  exists (py_min (Qred (elapsed / song_duration)) 1).
  split; [apply progress_value; exact Hd|].
  assert (Hq : (0 <= elapsed / song_duration)%Q).
  { apply Qle_shift_div_l; [exact Hd|]. lra. }
  assert (E : (py_min (Qred (elapsed / song_duration)) 1
               == Qmin (elapsed / song_duration) 1)%Q).
  { rewrite py_min_Qmin. rewrite Qred_correct. reflexivity. }
  split; [exact E|]. rewrite E. split.
  - apply Q.min_glb; [exact Hq|lra].
  - apply Q.le_min_r.
Qed.

Lemma progress_rule_witness :
  (0 <= 90)%Q /\ (0 < 120)%Q
  /\ exists p, progress 90 120 = Ok p
               /\ (p == Qmin (90 / 120) 1)%Q /\ (0 <= p)%Q /\ (p <= 1)%Q.
Proof.
  assert (H1 : (0 <= 90)%Q) by (unfold Qle; simpl; lia).
  assert (H2 : (0 < 120)%Q) by (unfold Qlt; simpl; lia).
  split; [exact H1|]. split; [exact H2|].
  apply (progress_rule 90 120 H1 H2).
Defined.

(** Without the precondition on the duration the division raises. *)
Lemma progress_zero_duration (elapsed : Q) :
  progress elapsed 0 = Raise (ZeroDivisionError "float division by zero").
Proof. reflexivity. Qed.

Lemma last_cons_default {A : Type} (l : list A) : forall x d,
  last (x :: l) d = last l x.
Proof.
  induction l as [|y l IH]; intros x d; [reflexivity|].
  change (last (x :: y :: l) d) with (last (y :: l) d).
  rewrite (IH y d), (IH y x). reflexivity.
Qed.

Lemma scan_lyrics_app (t : Q) (reached rest : list (Q * string)) : forall cur,
  Forall (fun l => (fst l <= t)%Q) reached ->
  scan_lyrics t (reached ++ rest) cur
  = scan_lyrics t rest (last (map snd reached) cur).
Proof.
  induction reached as [|[time_sec txt] reached IH]; intros cur H; [reflexivity|].
  inversion H as [|? ? Hle Hrest]; subst. cbn [fst] in Hle.
  cbn [app scan_lyrics]. apply Qle_bool_iff in Hle. rewrite Hle.
  rewrite (IH _ Hrest). f_equal.
  cbn [map snd]. symmetry. apply last_cons_default.
Qed.

(** The lines the scan keeps: those before the first one not yet reached. *)
Lemma scan_split (t : Q) (lyrics_data : list (Q * string)) :
  exists reached rest,
    lyrics_data = (reached ++ rest)%list
    /\ Forall (fun l => (fst l <= t)%Q) reached
    /\ match rest with
       | [] => True
       | l :: _ => (t < fst l)%Q
       end.
Proof.
  induction lyrics_data as [|[time_sec txt] data (reached & rest & E & Hr & Hs)].
  - exists [], []. repeat split. constructor.
  - destruct (Qle_bool time_sec t) eqn:Ele.
    + exists ((time_sec, txt) :: reached), rest. subst data.
      repeat split; [|exact Hs]. constructor; [|exact Hr].
      apply Qle_bool_iff. exact Ele.
    + exists [], ((time_sec, txt) :: data). repeat split; [constructor|].
      cbn [fst]. apply Qnot_le_lt. intros H. apply Qle_bool_iff in H. congruence.
Qed.

Lemma scan_lyrics_stop (t : Q) (rest : list (Q * string)) (cur : string) :
  match rest with
  | [] => True
  | l :: _ => (t < fst l)%Q
  end -> scan_lyrics t rest cur = cur.
Proof.
  destruct rest as [|[time_sec txt] rest]; [reflexivity|].
  cbn [fst scan_lyrics]. intros H.
  destruct (Qle_bool time_sec t) eqn:E; [|reflexivity].
  apply Qle_bool_iff in E. lra.
Qed.

Lemma filter_reached_prefix (t : Q) (reached rest : list (Q * string)) :
  Forall (fun l => (fst l <= t)%Q) reached ->
  match rest with
  | [] => True
  | l :: _ => (t < fst l)%Q
  end ->
  ascending (reached ++ rest) ->
  filter (reached_by t) (reached ++ rest) = reached.
Proof.
  intros Hr Hs Ha.
  induction reached as [|l reached IH].
  - cbn [app] in *. destruct rest as [|l rest]; [reflexivity|].
    destruct Ha as [Hall _].
    assert (Hnone : Forall (fun l' => reached_by t l' = false) (l :: rest)).
    { assert (Hl : reached_by t l = false).
      { unfold reached_by. destruct (Qle_bool (fst l) t) eqn:E; [|reflexivity].
        apply Qle_bool_iff in E. lra. }
      constructor; [exact Hl|].
      eapply Forall_impl; [|exact Hall]. intros l' Hl'. cbn beta in Hl'.
      unfold reached_by. destruct (Qle_bool (fst l') t) eqn:E; [|reflexivity].
      apply Qle_bool_iff in E. lra. }
    clear - Hnone. induction Hnone as [|x xs Hx _ IH]; [reflexivity|].
    cbn [filter]. rewrite Hx. exact IH.
  - inversion Hr as [|? ? Hl Hr']; subst. destruct Ha as [_ Ha].
    cbn [app filter]. unfold reached_by at 1.
    apply Qle_bool_iff in Hl. rewrite Hl. f_equal. apply IH; assumption.
Qed.

(** C2.  For every track and every elapsed time, the current lyric is the
    text of the last line reached by the scan, which runs through the lines
    in their order and stops at the first one whose time exceeds the elapsed
    time: the track splits into the lines kept, all with a time at most the
    elapsed time, and the rest, which is empty or begins with a line whose
    time exceeds it, and the result is the text of the last line kept, or
    the empty string when none is kept.  When the elapsed time is below the
    time of the first line the result is the empty string.  On a track in
    ascending order the result is the text of the last of all the lines
    whose time is at most the elapsed time.  On the track (0, a), (10, b),
    (20, c) the results at 5, 15, 25 and -1 are a, b, c and the empty
    string; on the track (10, a), (0, b), which is not ascending, the scan
    stops at once at 5 and the result is the empty string. *)
Theorem current_lyric_rule (lyrics_data : list (Q * string)) (elapsed : Q) :
  (exists reached rest,
      lyrics_data = (reached ++ rest)%list
      /\ Forall (fun l => (fst l <= elapsed)%Q) reached
      /\ match rest with
         | [] => True
         | l :: _ => (elapsed < fst l)%Q
         end
      /\ current_lyric elapsed lyrics_data = last (map snd reached) EmptyString
      /\ (ascending lyrics_data ->
          reached = filter (reached_by elapsed) lyrics_data))
  /\ (forall l rest, lyrics_data = l :: rest -> (elapsed < fst l)%Q ->
                     current_lyric elapsed lyrics_data = EmptyString)
  /\ current_lyric 5 [(0%Q, "a"); (10%Q, "b"); (20%Q, "c")] = "a"
  /\ current_lyric 15 [(0%Q, "a"); (10%Q, "b"); (20%Q, "c")] = "b"
  /\ current_lyric 25 [(0%Q, "a"); (10%Q, "b"); (20%Q, "c")] = "c"
  /\ current_lyric (-1) [(0%Q, "a"); (10%Q, "b"); (20%Q, "c")] = EmptyString
  /\ current_lyric 5 [(10%Q, "a"); (0%Q, "b")] = EmptyString.
Proof.
  split; [|split; [|vm_compute; repeat split; reflexivity]].
  - destruct (scan_split elapsed lyrics_data) as (reached & rest & E & Hr & Hs).
    exists reached, rest. subst lyrics_data.
    split; [reflexivity|]. split; [exact Hr|]. split; [exact Hs|]. split.
    + unfold current_lyric. rewrite scan_lyrics_app by exact Hr.
      apply scan_lyrics_stop. exact Hs.
    + intros Ha. symmetry. apply filter_reached_prefix; assumption.
  - intros l rest -> Hlt. unfold current_lyric.
    apply (scan_lyrics_stop elapsed (l :: rest)). exact Hlt.
Qed.

(** ** Highlighting *)

Lemma render_lyrics_eq (cur : string) (lyrics_data : list (Q * string)) : forall acc,
  render_lyrics cur lyrics_data acc
  = acc ++ String.concat EmptyString (map (fun l => render_line cur (snd l)) lyrics_data).
Proof.
  induction lyrics_data as [|[time_sec txt] data IH]; intros acc.
  - cbn. rewrite app_empty_r. reflexivity.
  - cbn [render_lyrics map snd]. rewrite IH, app_assoc_str. f_equal.
    destruct data as [|l data]; [cbn; rewrite app_empty_r; reflexivity|].
    reflexivity.
Qed.

Lemma full_text_html_eq (cur : string) (lyrics_data : list (Q * string)) :
  full_text_html cur lyrics_data
  = String.concat EmptyString (map (fun l => render_line cur (snd l)) lyrics_data).
Proof. unfold full_text_html. rewrite render_lyrics_eq. reflexivity. Qed.

Lemma highlighted_empty (txt : string) : highlighted EmptyString txt = is_empty txt.
Proof. destruct txt; reflexivity. Qed.

(** C8, as amended.  For every track and every elapsed time below the time of
    its first line, the current lyric is the empty string and a line is
    marked exactly when its text is empty: every line with a text is rendered
    unmarked, in grey; a line without text is rendered marked. *)
Theorem no_highlight_before_first_line
  (first : Q * string) (rest : list (Q * string)) (elapsed : Q) :
  (elapsed < fst first)%Q ->
  let lyrics_data := first :: rest in
  let cur := current_lyric elapsed lyrics_data in
  cur = EmptyString
  /\ highlight_flags cur lyrics_data = map (fun l => is_empty (snd l)) lyrics_data
  /\ full_text_html cur lyrics_data
     = String.concat EmptyString
         (map (fun l => if is_empty (snd l)
                        then "<mark><b></b></mark><br>"
                        else "<span style='color: #888;'>" ++ snd l ++ "</span><br>")
              lyrics_data)
  /\ (Forall (fun l => snd l <> EmptyString) lyrics_data ->
      Forall (fun flag => flag = false) (highlight_flags cur lyrics_data)).
Proof.
  intros Hlt lyrics_data cur.
  assert (Hcur : cur = EmptyString).
  { unfold cur, current_lyric. apply (scan_lyrics_stop elapsed (first :: rest)). exact Hlt. }
  rewrite Hcur. split; [reflexivity|].
  assert (Hflags : highlight_flags EmptyString lyrics_data
                   = map (fun l => is_empty (snd l)) lyrics_data).
  { unfold highlight_flags. apply map_ext. intros l. apply highlighted_empty. }
  split; [exact Hflags|]. split.
  - rewrite full_text_html_eq. f_equal. apply map_ext. intros [time_sec txt].
    unfold render_line. rewrite highlighted_empty. cbn [snd].
    destruct txt; reflexivity.
  - intros Hne. rewrite Hflags. apply Forall_map.
    eapply Forall_impl; [|exact Hne]. intros [time_sec txt] H. cbn [snd] in *.
    destruct txt; [congruence|reflexivity].
Qed.

Lemma no_highlight_before_first_line_witness :
  (1 < 5)%Q
  /\ current_lyric 1 [(5%Q, "la"); (7%Q, EmptyString)] = EmptyString
  /\ highlight_flags (current_lyric 1 [(5%Q, "la"); (7%Q, EmptyString)])
       [(5%Q, "la"); (7%Q, EmptyString)] = [false; true].
Proof.
  assert (H : (1 < fst (5%Q, "la"))%Q) by (unfold Qlt; simpl; lia).
  split; [exact H|].
  destruct (no_highlight_before_first_line (5%Q, "la") [(7%Q, EmptyString)] 1 H)
    as (H1 & H2 & _).
  split; [exact H1|exact H2].
Defined.

(** C8 as stated fails: a segment whose text is blank gives a line with an
    empty text; before its time the current lyric is the empty string, which
    is equal to that text, so the line is marked. *)
Lemma no_highlight_counterexample :
  generate_lrc_content [Segment 5 " "] = Ok "[00:05.00]"
  /\ parse_lrc "[00:05.00]" = Ok [(5%Q, EmptyString)]
  /\ Qltb 1 5 = true
  /\ current_lyric 1 [(5%Q, EmptyString)] = EmptyString
  /\ highlight_flags (current_lyric 1 [(5%Q, EmptyString)]) [(5%Q, EmptyString)] = [true]
  /\ full_text_html (current_lyric 1 [(5%Q, EmptyString)]) [(5%Q, EmptyString)]
     = "<mark><b></b></mark><br>".
Proof. vm_compute. repeat split; reflexivity. Qed.

(** ** Upload processing *)

Ltac step_res :=
  match goal with
  | |- context [match ?r with Ok _ => _ | Raise _ => _ end] =>
      destruct r eqn:?; cbn -[append]
  end.

(** A body that raises has added no song. *)
Lemma process_body_raise (C : collaborators) (f : uploaded_file)
  (st st' : app_state) (e : exn) :
  process_body C f st = (Raise e, st') -> processed_songs st' = processed_songs st.
Proof.
  unfold process_body, bindM, lift, emit, append_song. cbn -[append].
  repeat step_res; intros [= <- <-]; reflexivity.
Qed.

(** A body that ends has added one song, named after the file. *)
Lemma process_body_ok (C : collaborators) (f : uploaded_file) (st st' : app_state) :
  process_body C f st = (Ok tt, st') ->
  exists s, processed_songs st' = (processed_songs st ++ [s])%list
            /\ name s = up_name f.
Proof.
  unfold process_body, bindM, lift, emit, append_song. cbn -[append].
  repeat step_res; intros [= <-]; eexists; split; reflexivity.
Qed.

Lemma process_upload_eq (C : collaborators) (f : uploaded_file) (st : app_state) :
  process_upload C f st =
  let st0 := AppState (processed_songs st)
               (ui_log st ++ [StatusOpen ("Processing " ++ up_name f ++ "...")]) in
  match process_body C f st0 with
  | (Ok tt, st') => (Ok tt, st')
  | (Raise e, st') =>
      (Ok tt, AppState (processed_songs st')
                ((ui_log st' ++ [StatusUpdate ("Error processing " ++ up_name f) "error"])
                 ++ [SidebarError ("Details: " ++ exn_message e)]))
  end.
Proof.
  unfold process_upload, try_except, report_error, bindM, emit.
  cbv beta iota zeta.
  destruct (process_body C f _) as [[[]|e] st']; reflexivity.
Qed.

Lemma process_upload_ok (C : collaborators) (f : uploaded_file) (st : app_state) :
  exists st', process_upload C f st = (Ok tt, st').
Proof.
  rewrite process_upload_eq. cbv zeta.
  destruct (process_body C f _) as [[[]|e] st']; eexists; reflexivity.
Qed.

Lemma upload_loop_cons_new (C : collaborators) (names : list string)
  (f : uploaded_file) (rest : list uploaded_file) (did : bool) (st st' : app_state) :
  name_in (up_name f) names = false ->
  process_upload C f st = (Ok tt, st') ->
  upload_loop C names (f :: rest) did st = upload_loop C names rest true st'.
Proof.
  intros Hnew Hp. cbn [upload_loop]. rewrite Hnew.
  unfold bindM. rewrite Hp. reflexivity.
Qed.

Lemma upload_loop_cons_known (C : collaborators) (names : list string)
  (f : uploaded_file) (rest : list uploaded_file) (did : bool) (st : app_state) :
  name_in (up_name f) names = true ->
  upload_loop C names (f :: rest) did st = upload_loop C names rest did st.
Proof.
  intros Hk. cbn [upload_loop]. rewrite Hk. reflexivity.
Qed.

(** The loop never raises. *)
Lemma upload_loop_ok (C : collaborators) (names : list string)
  (files : list uploaded_file) :
  forall did st, exists d st', upload_loop C names files did st = (Ok d, st').
Proof.
  induction files as [|f files IH]; intros did st.
  - exists did, st. reflexivity.
  - destruct (name_in (up_name f) names) eqn:E.
    + rewrite upload_loop_cons_known by exact E. apply IH.
    + destruct (process_upload_ok C f st) as [st' Hp].
      rewrite (upload_loop_cons_new _ _ _ _ _ _ _ E Hp). apply IH.
Qed.

Lemma upload_loop_app (C : collaborators) (names : list string)
  (before after : list uploaded_file) :
  forall did st,
    upload_loop C names (before ++ after) did st
    = upload_loop C names after
        (match fst (upload_loop C names before did st) with
         | Ok d => d
         | Raise _ => did
         end)
        (snd (upload_loop C names before did st)).
Proof.
  induction before as [|f before IH]; intros did st.
  - reflexivity.
  - cbn [app]. destruct (name_in (up_name f) names) eqn:E.
    + rewrite !upload_loop_cons_known by exact E. apply IH.
    + destruct (process_upload_ok C f st) as [st' Hp].
      rewrite !(upload_loop_cons_new _ _ _ _ _ _ _ E Hp). rewrite IH.
      destruct (upload_loop_ok C names before true st') as (d & st'' & ->).
      reflexivity.
Qed.

(** A file whose name is in the collection when the batch starts is
    skipped: no song, no message, no call of a collaborator. *)
Lemma upload_known_name_skipped (C : collaborators) (f : uploaded_file)
  (st : app_state) :
  name_in (up_name f) (map name (processed_songs st)) = true ->
  handle_uploads C [f] st = (Ok tt, st).
Proof.
  intros Hk. unfold handle_uploads, bindM. cbn [upload_loop]. rewrite Hk.
  reflexivity.
Qed.

(** Whether the body raises does not depend on the session. *)
Lemma process_body_result (C : collaborators) (f : uploaded_file)
  (st st' : app_state) :
  fst (process_body C f st) = fst (process_body C f st').
Proof.
  unfold process_body, bindM, lift, emit, append_song. cbn -[append].
  repeat step_res; reflexivity.
Qed.

(** A failure of the metadata reader is a failure of the body. *)
Lemma process_body_probe_failure (C : collaborators) (f : uploaded_file)
  (st : app_state) (e : exn) :
  makedirs C temp_dir = Ok tt ->
  write_file C (path_join temp_dir (up_name f)) (up_buffer f) = Ok tt ->
  (if String.eqb (up_type f) "audio/mpeg"
   then MP3_length C (path_join temp_dir (up_name f))
   else WAVE_length C (path_join temp_dir (up_name f))) = Raise e ->
  process_body C f st
  = (Raise e, AppState (processed_songs st)
                (ui_log st ++ [StatusWrite "Saving file..."])).
Proof.
  intros H1 H2 H3.
  unfold process_body, bindM, lift, emit, append_song. cbn -[append].
  rewrite H1, H2, H3. reflexivity.
Qed.

(** A failure of the transcription is a failure of the body. *)
Lemma process_body_transcribe_failure (C : collaborators) (f : uploaded_file)
  (st : app_state) (e : exn) (d : Q) (m : Model C) :
  makedirs C temp_dir = Ok tt ->
  write_file C (path_join temp_dir (up_name f)) (up_buffer f) = Ok tt ->
  (if String.eqb (up_type f) "audio/mpeg"
   then MP3_length C (path_join temp_dir (up_name f))
   else WAVE_length C (path_join temp_dir (up_name f))) = Ok d ->
  load_model C "medium" (if cuda_is_available C then "cuda" else "cpu") = Ok m ->
  transcribe C m (path_join temp_dir (up_name f)) "en" = Raise e ->
  process_body C f st
  = (Raise e, AppState (processed_songs st)
                ((ui_log st ++ [StatusWrite "Saving file..."])
                 ++ [StatusWrite "Transcribing with AI..."])).
Proof.
  intros H1 H2 H3 H4 H5.
  unfold process_body, bindM, lift, emit, append_song. cbn -[append].
  rewrite H1, H2, H3, H4, H5. reflexivity.
Qed.

Lemma process_upload_songs (C : collaborators) (f : uploaded_file) (st : app_state) :
  exists added,
    processed_songs (snd (process_upload C f st)) = (processed_songs st ++ added)%list
    /\ map name added = if succeeds C f then [up_name f] else [].
Proof.
  rewrite process_upload_eq. cbv zeta. unfold succeeds.
  rewrite (process_body_result C f empty_session
             (AppState (processed_songs st)
                (ui_log st ++ [StatusOpen ("Processing " ++ up_name f ++ "...")]))).
  destruct (process_body C f _) as [[[]|e] st'] eqn:E; cbn [fst snd].
  - destruct (process_body_ok _ _ _ _ E) as (s & Hs & Hn).
    exists [s]. cbn [processed_songs] in Hs. rewrite Hs, <- Hn. split; reflexivity.
  - exists []. rewrite app_nil_r. cbn [processed_songs].
    rewrite (process_body_raise _ _ _ _ _ E). split; reflexivity.
Qed.

(** The songs the loop adds: one for each file that is not skipped and is
    processed without raising, in the order of the batch. *)
Lemma upload_loop_songs (C : collaborators) (names : list string)
  (files : list uploaded_file) : forall did st,
  exists added,
    processed_songs (snd (upload_loop C names files did st))
    = (processed_songs st ++ added)%list
    /\ map name added = map up_name (filter (succeeds C) (new_files names files)).
Proof.
  induction files as [|f files IH]; intros did st.
  - exists []. rewrite app_nil_r. split; reflexivity.
  - unfold new_files. cbn [filter]. destruct (name_in (up_name f) names) eqn:E.
    + rewrite upload_loop_cons_known by exact E. cbn [negb]. apply IH.
    + destruct (process_upload_ok C f st) as [st' Hp].
      rewrite (upload_loop_cons_new _ _ _ _ _ _ _ E Hp).
      destruct (process_upload_songs C f st) as (a1 & Ha1 & Hn1).
      rewrite Hp in Ha1. cbn [snd] in Ha1.
      destruct (IH true st') as (a2 & Ha2 & Hn2).
      exists (a1 ++ a2)%list. rewrite Ha2, Ha1, <- app_assoc. split; [reflexivity|].
      rewrite map_app, Hn1, Hn2. cbn [negb filter]. fold (new_files names files).
      destruct (succeeds C f); reflexivity.
Qed.

Lemma name_in_In (n : string) (names : list string) :
  name_in n names = true <-> In n names.
Proof.
  unfold name_in. rewrite existsb_exists. split.
  - intros (x & Hx & E). apply String.eqb_eq in E. subst. exact Hx.
  - intros H. exists n. split; [exact H|apply String.eqb_refl].
Qed.

Lemma NoDup_map_filter {A B : Type} (g : A -> B) (p : A -> bool) (l : list A) :
  NoDup (map g l) -> NoDup (map g (filter p l)).
Proof.
  induction l as [|x l IH]; intros H; [constructor|].
  cbn [map] in H. apply NoDup_cons_iff in H. destruct H as [Hx Hl].
  cbn [filter]. destruct (p x); [|apply IH; exact Hl].
  cbn [map]. constructor; [|apply IH; exact Hl].
  intros Hin. apply Hx. apply in_map_iff in Hin. destruct Hin as (y & Ey & Hy).
  apply filter_In in Hy. apply in_map_iff. exists y. split; [exact Ey|apply Hy].
Qed.

(** What holds of the names: when the names of the collection are distinct
    and the names of the batch are distinct, the names of the collection
    after the batch are distinct. *)
Lemma upload_preserves_distinct_names (C : collaborators)
  (files : list uploaded_file) (st : app_state) :
  NoDup (map name (processed_songs st)) ->
  NoDup (map up_name files) ->
  NoDup (map name (processed_songs (snd (handle_uploads C files st)))).
Proof.
  intros Hst Hfiles. unfold handle_uploads.
  destruct files as [|f files]; [exact Hst|].
  set (batch := f :: files) in *.
  set (names := map name (processed_songs st)) in *.
  unfold bindM.
  destruct (upload_loop_songs C names batch false st) as (added & Hs & Hn).
  destruct (upload_loop_ok C names batch false st) as (d & st' & E).
  rewrite E in *. cbn [snd] in Hs.
  assert (Hgoal : NoDup (map name (processed_songs st'))).
  { rewrite Hs, map_app. fold names. rewrite Hn. apply NoDup_app.
    - exact Hst.
    - apply NoDup_map_filter. unfold new_files. apply NoDup_map_filter. exact Hfiles.
    - intros n Hin Hin'. apply in_map_iff in Hin'. destruct Hin' as (y & <- & Hy).
      apply filter_In in Hy. destruct Hy as [Hy _]. unfold new_files in Hy.
      apply filter_In in Hy. destruct Hy as [_ Hy].
      apply name_in_In in Hin. rewrite Hin in Hy. discriminate. }
  destruct d; exact Hgoal.
Qed.

(** Two files of one name in a batch, both processed without raising, give
    two songs of that name, whatever the collaborators. *)
Lemma upload_duplicate_names (C : collaborators) (f : uploaded_file) (st : app_state) :
  name_in (up_name f) (map name (processed_songs st)) = false ->
  succeeds C f = true ->
  exists s1 s2,
    processed_songs (snd (handle_uploads C [f; f] st))
    = (processed_songs st ++ [s1; s2])%list
    /\ name s1 = up_name f /\ name s2 = up_name f.
Proof.
  intros Hnew Hok. unfold handle_uploads, bindM.
  set (names := map name (processed_songs st)) in *.
  destruct (upload_loop_songs C names [f; f] false st) as (added & Hs & Hn).
  destruct (upload_loop_ok C names [f; f] false st) as (d & st' & E).
  rewrite E in *. cbn [snd] in Hs.
  unfold new_files in Hn. cbn [filter] in Hn. rewrite Hnew in Hn.
  cbn [negb filter] in Hn. rewrite Hok in Hn. cbn [map] in Hn.
  destruct added as [|s1 [|s2 [|s3 added]]]; try discriminate Hn.
  injection Hn as H1 H2.
  exists s1, s2. destruct d; cbn [snd emit ret processed_songs]; auto.
Qed.

(** C10.  For every batch, when the processing of a file [f] of the batch
    raises an exception [e], the exception is caught: the status of the
    file becomes an error that names the file and the message of [e] is
    shown, no song is added for [f], and the loop goes on with the files
    after [f]; the loop as a whole raises nothing. *)
Theorem upload_error_isolation (C : collaborators) (names : list string)
  (before : list uploaded_file) (f : uploaded_file) (after : list uploaded_file)
  (did : bool) (st st_f : app_state) (e : exn) :
  name_in (up_name f) names = false ->
  let st1 := snd (upload_loop C names before did st) in
  let st0 := AppState (processed_songs st1)
               (ui_log st1 ++ [StatusOpen ("Processing " ++ up_name f ++ "...")]) in
  process_body C f st0 = (Raise e, st_f) ->
  let st2 := AppState (processed_songs st_f)
               (ui_log st_f
                ++ [StatusUpdate ("Error processing " ++ up_name f) "error";
                    SidebarError ("Details: " ++ exn_message e)]) in
  process_upload C f st1 = (Ok tt, st2)
  /\ processed_songs st2 = processed_songs st1
  /\ upload_loop C names (before ++ f :: after) did st
     = upload_loop C names after true st2
  /\ exists d st', upload_loop C names (before ++ f :: after) did st = (Ok d, st').
Proof.
  intros Hnew st1 st0 Hraise st2.
  assert (Hp : process_upload C f st1 = (Ok tt, st2)).
  { rewrite process_upload_eq. cbv zeta. fold st0. rewrite Hraise.
    unfold st2. rewrite <- app_assoc. reflexivity. }
  split; [exact Hp|]. split.
  - unfold st2. cbn [processed_songs].
    rewrite (process_body_raise _ _ _ _ _ Hraise). reflexivity.
  - split; [|apply upload_loop_ok].
    rewrite upload_loop_app. fold st1.
    apply (upload_loop_cons_new _ _ _ _ _ _ _ Hnew Hp).
Qed.

Lemma upload_error_isolation_witness :
  let st0 := AppState [Song "a.mp3" "/tmp/streamlit_uploads/a.mp3" 120
                         ("[00:00.00]Hello" ++ newline ++ "[01:05.50]world")]
              [StatusOpen "Processing a.mp3..."; StatusWrite "Saving file...";
               StatusWrite "Transcribing with AI..."; StatusWrite "Saving LRC data...";
               StatusUpdate "Processed a.mp3!" "complete";
               StatusOpen "Processing bad.mp3..."] in
  let st_f := AppState (processed_songs st0) (ui_log st0 ++ [StatusWrite "Saving file..."]) in
  let st2 := AppState (processed_songs st_f)
               (ui_log st_f
                ++ [StatusUpdate "Error processing bad.mp3" "error";
                    SidebarError "Details: can't sync to MPEG frame"]) in
  name_in (up_name bad_mp3) [] = false
  /\ process_body demo bad_mp3 st0
     = (Raise (OtherError "can't sync to MPEG frame"), st_f)
  /\ upload_loop demo [] [a_mp3; bad_mp3; b_wav] false empty_session
     = upload_loop demo [] [b_wav] true st2.
Proof.
  intros st0 st_f st2.
  assert (H1 : name_in (up_name bad_mp3) [] = false) by reflexivity.
  assert (H2 : process_body demo bad_mp3 st0
               = (Raise (OtherError "can't sync to MPEG frame"), st_f))
    by (vm_compute; reflexivity).
  split; [exact H1|]. split; [exact H2|].
  exact (proj1 (proj2 (proj2
    (upload_error_isolation demo [] [a_mp3] bad_mp3 [b_wav] false empty_session
       st_f (OtherError "can't sync to MPEG frame") H1 H2)))).
Defined.

(** C9.  The code at a batch that holds the same name twice: the list of
    names is computed once, before the loop, so the second file is not
    skipped, it is transcribed again and the collection ends with two songs
    of that name.  A later batch with that name is skipped. *)
Theorem upload_duplicate_in_batch :
  map name (processed_songs (snd (handle_uploads demo [a_mp3; a_mp3] empty_session)))
  = ["a.mp3"; "a.mp3"]
  /\ ui_log (snd (handle_uploads demo [a_mp3; a_mp3] empty_session))
     = [StatusOpen "Processing a.mp3..."; StatusWrite "Saving file...";
        StatusWrite "Transcribing with AI..."; StatusWrite "Saving LRC data...";
        StatusUpdate "Processed a.mp3!" "complete";
        StatusOpen "Processing a.mp3..."; StatusWrite "Saving file...";
        StatusWrite "Transcribing with AI..."; StatusWrite "Saving LRC data...";
        StatusUpdate "Processed a.mp3!" "complete"; Rerun]
  /\ handle_uploads demo [a_mp3]
       (snd (handle_uploads demo [a_mp3] empty_session))
     = (Ok tt, snd (handle_uploads demo [a_mp3] empty_session)).
Proof. vm_compute. repeat split; reflexivity. Qed.

(** ** One pass of the loop *)

Lemma clock_label_ok (t : Q) :
  clock_label t
  = Ok (fmt_02d (minutes_of t) ++ ":" ++ fmt_02d (py_int (Qred (seconds_of t)))).
Proof.
  unfold clock_label, py_divmod. change (Qeq_bool 60 0) with false.
  cbn [bind]. rewrite py_int_inject_Z. reflexivity.
Qed.

Lemma st_progress_ok (value : Q) :
  (0 <= value)%Q -> (value <= 1)%Q -> st_progress value = Ok tt.
Proof.
  intros H0 H1. unfold st_progress.
  apply Qle_bool_iff in H0. apply Qle_bool_iff in H1. rewrite H0, H1. reflexivity.
Qed.

(** With a duration above 0 a pass at or after the start raises nothing; its
    frame holds the progress, the current lyric and the lyrics rendered for
    that lyric. *)
Lemma sync_tick_frame (s : song) (lyrics_data : list (Q * string)) (start_time now : Q) :
  (0 < duration s)%Q -> (start_time <= now)%Q ->
  let t := Qred (now - start_time) in
  exists p label,
    progress t (duration s) = Ok p
    /\ sync_tick s lyrics_data start_time now
       = Ok (Frame p label (current_lyric t lyrics_data)
               ("<div style='font-size: 24px; font-weight: bold;'>"
                ++ full_text_html (current_lyric t lyrics_data) lyrics_data
                ++ "</div>")).
Proof.
  intros Hd Hn t. unfold sync_tick. fold t.
  rewrite (progress_value t (duration s) Hd), !clock_label_ok. cbn [bind].
  assert (Hq : (0 <= Qred (t / duration s))%Q).
  { rewrite Qred_correct. unfold t. rewrite Qred_correct.
    apply Qle_shift_div_l; [exact Hd|lra]. }
  rewrite st_progress_ok.
  - cbn [bind]. eexists _, _. split; reflexivity.
  - rewrite py_min_Qmin. apply Q.min_glb; [exact Hq|lra].
  - rewrite py_min_Qmin. apply Q.le_min_r.
Qed.

(* ================================================================= *)
(** * Further properties *)

(** ** Formatter and parser together *)

Lemma lyric_time_rounded (t : Q) :
  lyric_time (minutes_of t) (centis_of t / 100) (centis_of t mod 100) = rounded_time t.
Proof.
  pose proof (lyric_time_of_centis t) as E.
  unfold lyric_time in *. unfold rounded_time.
  apply Qred_complete. rewrite Qred_correct in E. exact E.
Qed.

Lemma line_entries_lrc_line_text (seg : segment) :
  readable seg -> line_entries (lrc_line_text seg) = [segment_entry seg].
Proof.
  intros (H0 & H1 & Hnl).
  pose proof (parse_lrc_line_text seg H0 H1 Hnl) as Hp.
  rewrite parse_lrc_eq in Hp.
  assert (Hs : splitlines (lrc_line_text seg) = [lrc_line_text seg]).
  { apply (splitlines_generated [seg]). repeat constructor. exact Hnl. }
  rewrite Hs in Hp. cbn [flat_map] in Hp. rewrite app_nil_r in Hp.
  injection Hp as Hp. rewrite Hp, lyric_time_rounded. reflexivity.
Qed.

Lemma parse_generated (segments : list segment) :
  Forall readable segments ->
  parse_lrc (join newline (map lrc_line_text segments))
  = Ok (map segment_entry segments).
Proof.
  intros H. rewrite parse_lrc_eq, splitlines_generated.
  - f_equal. induction H as [|seg segments Hseg _ IH]; [reflexivity|].
    cbn [map flat_map]. rewrite (line_entries_lrc_line_text seg Hseg), IH.
    reflexivity.
  - eapply Forall_impl; [|exact H]. intros seg (_ & _ & Hnl). exact Hnl.
Qed.

Lemma read_back_entry (seg : segment) :
  readable seg -> read_back seg (segment_entry seg).
Proof.
  intros (H0 & H1 & Hnl).
  destruct (stamp_written seg H0 H1) as (El & Hm & Hs & Hc & Et). cbv zeta in *.
  destruct (centis_split (start seg)) as (Hs' & _ & _).
  destruct (parse_lrc_stamp _ _ _ (strip (text seg)) Hm Hs' Hc Hnl)
    as (s & Hi & Hf & He & _).
  exists (minutes_of (start seg)), (centis_of (start seg) / 100),
         (centis_of (start seg) mod 100), s.
  split; [rewrite lrc_line_eq; fold (lrc_line_text seg); rewrite El; reflexivity|].
  repeat (split; [assumption|]).
  rewrite <- El, (line_entries_lrc_line_text seg (conj H0 (conj H1 Hnl))) in He.
  exact (f_equal (fun l => hd (segment_entry seg) l) He).
Qed.

(** X1.  For every sequence of segments that start below one hundred minutes
    and whose stripped texts hold no line boundary, parsing the formatted
    text gives back one entry per segment, in the order of the segments: the
    entry of a segment holds its stripped text, and its time is the one the
    parser computes, int(MM) * 60 + float(SS.CC), from the stamp written for
    the segment, which is the start rounded to the nearest hundredth.
    Segments with an empty text are kept, and the empty sequence comes back
    empty. *)
Theorem lrc_round_trip_all (segments : list segment) :
  Forall readable segments ->
  exists lrc entries,
    generate_lrc_content segments = Ok lrc
    /\ parse_lrc lrc = Ok entries
    /\ Forall2 read_back segments entries
    /\ map snd entries = map (fun seg => strip (text seg)) segments.
Proof.
  intros H.
  exists (join newline (map lrc_line_text segments)), (map segment_entry segments).
  split; [apply generate_lrc_content_eq|].
  split; [apply parse_generated; exact H|].
  split.
  - induction H as [|seg segments Hseg _ IH]; cbn [map]; constructor.
    + apply read_back_entry. exact Hseg.
    + exact IH.
  - rewrite map_map. reflexivity.
Qed.

Lemma lrc_round_trip_all_witness :
  exists lrc entries,
    generate_lrc_content [Segment (1 # 8) " la "; Segment 7 EmptyString; Segment (131 # 2) "world"]
    = Ok lrc
    /\ parse_lrc lrc = Ok entries
    /\ Forall2 read_back
         [Segment (1 # 8) " la "; Segment 7 EmptyString; Segment (131 # 2) "world"]
         entries
    /\ map snd entries = ["la"; EmptyString; "world"].
Proof.
  apply (lrc_round_trip_all
           [Segment (1 # 8) " la "; Segment 7 EmptyString; Segment (131 # 2) "world"]).
  repeat constructor; cbn; try (unfold Qle; simpl; lia); try (unfold Qlt; simpl; lia).
Defined.

(** X2.  The formatter writes one line of text per segment, also from one
    hundred minutes on: for starts from 0 up to, but not including, 2^53
    seconds, when no stripped text holds a line boundary, the lines of the
    formatted text are the lines written for the segments, as many as there
    are segments. *)
Theorem generate_lrc_content_lines (segments : list segment) :
  Forall (fun seg => exact_range (start seg)) segments ->
  Forall (fun seg => no_linebreak (strip (text seg))) segments ->
  exists lrc,
    generate_lrc_content segments = Ok lrc
    /\ Forall2 (fun seg line => lrc_line seg = Ok line) segments (splitlines lrc)
    /\ List.length (splitlines lrc) = List.length segments.
Proof.
  intros _ H. exists (join newline (map lrc_line_text segments)).
  split; [apply generate_lrc_content_eq|].
  rewrite (splitlines_generated segments H).
  split; [|apply length_map].
  clear H. induction segments as [|seg segments IH]; cbn [map]; constructor.
  - apply lrc_line_eq.
  - exact IH.
Qed.

Lemma generate_lrc_content_lines_witness :
  exists lrc,
    generate_lrc_content [Segment (1 # 2) "early"; Segment 6000 " late "] = Ok lrc
    /\ splitlines lrc = ["[00:00.50]early"; "[100:00.00]late"]
    /\ List.length (splitlines lrc) = 2%nat.
Proof.
  destruct (generate_lrc_content_lines [Segment (1 # 2) "early"; Segment 6000 " late "])
    as (lrc & E & HF & HL).
  - repeat constructor; cbn; try (unfold Qle; simpl; lia); unfold Qlt; simpl; lia.
  - repeat constructor.
  - exists lrc. split; [exact E|]. split; [|exact HL].
    inversion HF as [|? l1 ? r1 Ha HFa]; subst.
    inversion HFa as [|? l2 ? r2 Hb HFb]; subst.
    inversion HFb; subst.
    vm_compute in Ha, Hb. injection Ha as <-. injection Hb as <-. reflexivity.
Defined.

Lemma round_half_even_mono (x y : Q) :
  (x <= y)%Q -> round_half_even x <= round_half_even y.
Proof.
  intros Hxy.
  pose proof (round_half_even_near x) as [Hx _].
  pose proof (round_half_even_near y) as [_ Hy].
  destruct (Z_le_gt_dec (round_half_even x) (round_half_even y)) as [Hle|Hgt];
    [exact Hle|exfalso].
  assert (H1 : (inject_Z (round_half_even y) + 1 <= inject_Z (round_half_even x))%Q).
  { change 1%Q with (inject_Z 1). rewrite <- inject_Z_plus, <- Zle_Qle. lia. }
  assert (Exy : (x == y)%Q) by lra.
  pose proof (round_half_even_comp x y Exy). lia.
Qed.

Lemma rounded_time_mono (t u : Q) :
  (t <= u)%Q -> (rounded_time t <= rounded_time u)%Q.
Proof.
  intros H. unfold rounded_time. rewrite !Qred_correct.
  assert (Hm : round_half_even (t * 100) <= round_half_even (u * 100))
    by (apply round_half_even_mono; lra).
  rewrite Zle_Qle in Hm. unfold Qdiv. change (/ 100)%Q with (1 # 100)%Q. lra.
Qed.

Lemma ascending_entries (segments : list segment) :
  ascending_starts segments -> ascending (map segment_entry segments).
Proof.
  unfold ascending_starts.
  induction segments as [|seg segments IH]; [trivial|].
  cbn [map ascending fst]. intros [Hall Hrest]. split; [|apply IH; exact Hrest].
  rewrite Forall_map in *. eapply Forall_impl; [|exact Hall].
  intros seg' H. cbn [fst segment_entry] in *. apply rounded_time_mono. exact H.
Qed.

Lemma current_lyric_ascending (lyrics_data : list (Q * string)) (t : Q) :
  ascending lyrics_data ->
  current_lyric t lyrics_data
  = last (map snd (filter (reached_by t) lyrics_data)) EmptyString.
Proof.
  intros Ha.
  destruct (scan_split t lyrics_data) as (reached & rest & E & Hr & Hs).
  subst lyrics_data. rewrite (filter_reached_prefix t reached rest Hr Hs Ha).
  unfold current_lyric. rewrite scan_lyrics_app by exact Hr.
  apply scan_lyrics_stop. exact Hs.
Qed.

(** X3.  Rounding keeps the order: when the starts of readable segments
    ascend, the track parsed from the formatted text ascends too, so at
    every elapsed time the current lyric is the text of the last of all the
    lines whose time has been reached. *)
Theorem formatted_track_ascending (segments : list segment) (elapsed : Q) :
  Forall readable segments -> ascending_starts segments ->
  exists lrc track,
    generate_lrc_content segments = Ok lrc
    /\ parse_lrc lrc = Ok track
    /\ ascending track
    /\ current_lyric elapsed track
       = last (map snd (filter (reached_by elapsed) track)) EmptyString.
Proof.
  intros Hr Ha.
  exists (join newline (map lrc_line_text segments)), (map segment_entry segments).
  split; [apply generate_lrc_content_eq|]. split; [apply parse_generated; exact Hr|].
  pose proof (ascending_entries segments Ha) as Hasc.
  split; [exact Hasc|]. apply current_lyric_ascending. exact Hasc.
Qed.

Lemma formatted_track_ascending_witness :
  exists lrc track,
    generate_lrc_content [Segment 0 "a"; Segment (1 # 128) "b"; Segment 10 "c"] = Ok lrc
    /\ parse_lrc lrc = Ok track
    /\ ascending track
    /\ current_lyric 5 track
       = last (map snd (filter (reached_by 5) track)) EmptyString.
Proof.
  apply (formatted_track_ascending
           [Segment 0 "a"; Segment (1 # 128) "b"; Segment 10 "c"] 5).
  - repeat constructor; cbn; try (unfold Qle; simpl; lia); try (unfold Qlt; simpl; lia).
  - unfold ascending_starts. cbn.
    repeat split; repeat constructor; cbn; unfold Qle; simpl; lia.
Defined.

(** ** The parser alone *)

Lemma lyric_time_range (mm ss cc : Z) :
  0 <= mm <= 99 -> 0 <= ss <= 99 -> 0 <= cc <= 99 ->
  (0 <= lyric_time mm ss cc /\ lyric_time mm ss cc <= max_lyric_time)%Q.
Proof.
  intros Hm Hs Hc. unfold lyric_time, max_lyric_time. rewrite Qred_correct.
  assert (H1 : (0 <= inject_Z (mm * 60) /\ inject_Z (mm * 60) <= 5940)%Q).
  { change 0%Q with (inject_Z 0). change 5940%Q with (inject_Z 5940).
    rewrite <- !Zle_Qle. lia. }
  assert (H2 : (0 <= inject_Z (100 * ss + cc) /\ inject_Z (100 * ss + cc) <= 9999)%Q).
  { change 0%Q with (inject_Z 0). change 9999%Q with (inject_Z 9999).
    rewrite <- !Zle_Qle. lia. }
  unfold Qdiv. change (/ 100)%Q with (1 # 100)%Q. lra.
Qed.

Lemma lyric_line_digits (line : string) (mm ss cc : Z) (rest : string) :
  lyric_line line mm ss cc rest -> 0 <= mm <= 99 /\ 0 <= ss <= 99 /\ 0 <= cc <= 99.
Proof.
  intros (m1 & m2 & s1 & s2 & c1 & c2 & D1 & D2 & D3 & D4 & D5 & D6 & _ & -> & -> & ->).
  pose proof (is_digit_val _ D1). pose proof (is_digit_val _ D2).
  pose proof (is_digit_val _ D3). pose proof (is_digit_val _ D4).
  pose proof (is_digit_val _ D5). pose proof (is_digit_val _ D6). lia.
Qed.

(** X4.  Whatever the text, every entry the parser returns has a time between
    0 and 99 minutes 99.99 seconds (the seconds field is not held below 60)
    and a text without line boundary. *)
Theorem parse_lrc_entries_bounded (lrc_text : string) :
  exists out,
    parse_lrc lrc_text = Ok out
    /\ Forall (fun e => (0 <= fst e)%Q /\ (fst e <= max_lyric_time)%Q
                        /\ no_linebreak (snd e)) out.
Proof.
  exists (flat_map line_entries (splitlines lrc_text)).
  split; [apply parse_lrc_eq|].
  pose proof (splitlines_no_linebreak lrc_text) as H.
  induction H as [|line lines Hl _ IH]; [constructor|].
  cbn [flat_map]. apply Forall_app. split; [|exact IH].
  destruct (line_entries_contributes line Hl)
    as [(mm & ss & cc & rest & HL & ->)|[_ ->]]; [|constructor].
  constructor; [|constructor]. cbn [fst snd].
  destruct (lyric_line_digits _ _ _ _ _ HL) as (Hm & Hs & Hc).
  destruct (lyric_time_range mm ss cc Hm Hs Hc) as [H0 H1].
  split; [exact H0|]. split; [exact H1|].
  eapply lyric_line_rest_no_linebreak; eassumption.
Qed.

Lemma line_entries_empty : line_entries EmptyString = [].
Proof. reflexivity. Qed.

Lemma entries_trailing_newline (s : string) : forall cur,
  flat_map line_entries (splitlines_from cur (s ++ newline))
  = flat_map line_entries (splitlines_from cur s).
Proof.
  unfold newline.
  induction s as [|c|c c' s IH IH'] using string_ind2; intros cur.
  - cbn [append]. rewrite splitlines_from_LF. destruct cur; reflexivity.
  - cbn [append]. rewrite !(splitlines_from_cons cur c).
    destruct (is_linebreak c).
    + destruct (Ascii.eqb c CR && Ascii.eqb LF LF)%bool; reflexivity.
    + rewrite splitlines_from_LF. reflexivity.
  - cbn [append]. rewrite !(splitlines_from_cons cur c).
    destruct (is_linebreak c).
    + cbn [flat_map]. f_equal.
      destruct (Ascii.eqb c CR && Ascii.eqb c' LF)%bool; [apply IH|apply IH'].
    + apply IH'.
Qed.

(** X5.  A line feed at the end of the text changes nothing: the parser
    returns the same entries with it and without it. *)
Theorem parse_lrc_trailing_newline (lrc_text : string) :
  parse_lrc (lrc_text ++ newline) = parse_lrc lrc_text.
Proof.
  rewrite !parse_lrc_eq. unfold splitlines.
  rewrite entries_trailing_newline. reflexivity.
Qed.

(** X6.  The parser works line by line: the entries of two texts put
    together with a line feed between them are the entries of the first
    followed by the entries of the second. *)
Theorem parse_lrc_concat (a b : string) :
  exists ea eb,
    parse_lrc a = Ok ea /\ parse_lrc b = Ok eb
    /\ parse_lrc (a ++ newline ++ b) = Ok (ea ++ eb)%list.
Proof.
  exists (flat_map line_entries (splitlines a)), (flat_map line_entries (splitlines b)).
  rewrite !parse_lrc_eq. repeat split.
  unfold splitlines, newline at 1. cbn [append].
  rewrite splitlines_from_app_LF, flat_map_app, entries_trailing_newline.
  reflexivity.
Qed.

(** ** Stripping and the formatter *)

Lemma lstrip_spaces (pre s : string) :
  all_chars is_space pre = true -> lstrip (pre ++ s) = lstrip s.
Proof.
  induction pre as [|c pre IH]; [reflexivity|].
  cbn [all_chars append lstrip]. intros H. apply andb_prop in H.
  destruct H as [Hc Hp]. rewrite Hc. apply IH. exact Hp.
Qed.

Lemma rstrip_all_spaces (s : string) :
  all_chars is_space s = true -> rstrip s = EmptyString.
Proof.
  induction s as [|c s IH]; [reflexivity|].
  cbn [all_chars rstrip]. intros H. apply andb_prop in H.
  destruct H as [Hc Hs]. rewrite (IH Hs), Hc. reflexivity.
Qed.

Lemma rstrip_spaces (s post : string) :
  all_chars is_space post = true -> rstrip (s ++ post) = rstrip s.
Proof.
  intros H. induction s as [|c s IH].
  - cbn [append]. rewrite rstrip_all_spaces by exact H. reflexivity.
  - cbn [append rstrip]. rewrite IH. reflexivity.
Qed.

Lemma lstrip_all_spaces (s : string) :
  all_chars is_space s = true -> lstrip s = EmptyString.
Proof.
  induction s as [|c s IH]; [reflexivity|].
  cbn [all_chars lstrip]. intros H. apply andb_prop in H.
  destruct H as [Hc Hs]. rewrite Hc. apply IH. exact Hs.
Qed.

Lemma strip_spaces_right (s post : string) :
  all_chars is_space post = true -> strip (s ++ post) = strip s.
Proof.
  intros H. unfold strip. induction s as [|c s IH].
  - cbn [append lstrip]. rewrite lstrip_all_spaces by exact H. reflexivity.
  - cbn [append lstrip]. destruct (is_space c); [exact IH|].
    apply (rstrip_spaces (String c s) post H).
Qed.

Lemma strip_spaces (pre s post : string) :
  all_chars is_space pre = true -> all_chars is_space post = true ->
  strip (pre ++ s ++ post) = strip s.
Proof.
  intros Hpre Hpost. unfold strip. rewrite lstrip_spaces by exact Hpre.
  apply strip_spaces_right. exact Hpost.
Qed.

Lemma strip_idempotent (s : string) : strip (strip s) = strip s.
Proof.
  destruct (strip_spec s) as (pre & post & E & Hpre & Hpost & _).
  rewrite E at 2. symmetry. apply strip_spaces; assumption.
Qed.

(** X7.  White space around the text of a segment does not reach the
    output: two sequences of segments that differ only by white space added
    before and after the texts are formatted alike, and a text of white
    space only is written as an empty text. *)
Theorem generate_lrc_content_ignores_padding
  (segments : list segment) (pre post : string) :
  all_chars is_space pre = true -> all_chars is_space post = true ->
  generate_lrc_content
    (map (fun seg => Segment (start seg) (pre ++ text seg ++ post)) segments)
  = generate_lrc_content segments
  /\ generate_lrc_content (map (fun seg => Segment (start seg) pre) segments)
     = generate_lrc_content (map (fun seg => Segment (start seg) EmptyString) segments).
Proof.
  intros Hpre Hpost. rewrite !generate_lrc_content_eq, !map_map. split.
  - do 2 f_equal. apply map_ext. intros seg. unfold lrc_line_text. cbn [start text].
    rewrite strip_spaces by assumption. reflexivity.
  - do 2 f_equal. apply map_ext. intros seg. unfold lrc_line_text. cbn [start text].
    unfold strip. rewrite lstrip_all_spaces by exact Hpre. reflexivity.
Qed.

Lemma generate_lrc_content_ignores_padding_witness :
  generate_lrc_content [Segment 1 "   la  "; Segment 2 "  "]
  = generate_lrc_content [Segment 1 " la"; Segment 2 EmptyString].
Proof.
  pose proof (generate_lrc_content_ignores_padding
                [Segment 1 " la"; Segment 2 EmptyString] "  " "  "
                eq_refl eq_refl) as [H _].
  exact H.
Defined.

(** ** The passes of the sync loop *)

Lemma py_min_mono (a b : Q) : (a <= b)%Q -> (py_min a 1 <= py_min b 1)%Q.
Proof.
  intros H. rewrite !py_min_Qmin. apply Q.min_le_compat_r. exact H.
Qed.

Lemma Qdiv_le_mono (a b d : Q) : (0 < d)%Q -> (a <= b)%Q -> (a / d <= b / d)%Q.
Proof.
  intros Hd H. unfold Qdiv. apply Qmult_le_compat_r; [exact H|].
  apply Qlt_le_weak, Qinv_lt_0_compat. exact Hd.
Qed.

(** X8.  With a duration above 0 the progress never goes back when the
    elapsed time goes on, it is exactly 1 from the duration on, and it is
    not held at 0: a negative elapsed time gives a negative progress. *)
Theorem progress_monotone (e1 e2 song_duration : Q) :
  (0 < song_duration)%Q -> (e1 <= e2)%Q ->
  (exists p1 p2, progress e1 song_duration = Ok p1
                 /\ progress e2 song_duration = Ok p2 /\ (p1 <= p2)%Q)
  /\ ((song_duration <= e1)%Q -> progress e1 song_duration = Ok 1%Q)
  /\ ((e1 < 0)%Q -> exists p, progress e1 song_duration = Ok p /\ (p < 0)%Q).
Proof.
  intros Hd He. rewrite !progress_value by exact Hd. split; [|split].
  - eexists _, _. split; [reflexivity|]. split; [reflexivity|].
    apply py_min_mono. rewrite !Qred_correct. apply Qdiv_le_mono; assumption.
  - intros Hge. f_equal. unfold py_min.
    assert (Hq : (1 <= e1 / song_duration)%Q).
    { apply Qle_shift_div_l; [exact Hd|lra]. }
    destruct (Qltb 1 (Qred (e1 / song_duration))) eqn:E; [reflexivity|].
    unfold Qltb in E. apply negb_false_iff, Qle_bool_iff in E.
    rewrite Qred_correct in E.
    change 1%Q with (Qred 1). apply Qred_complete. lra.
  - intros Hneg. eexists. split; [reflexivity|].
    assert (Hq : (e1 / song_duration < 0)%Q).
    { apply Qlt_shift_div_r; [exact Hd|lra]. }
    rewrite py_min_Qmin, Qred_correct.
    eapply Qle_lt_trans; [apply Q.le_min_l|exact Hq].
Qed.

Lemma progress_monotone_witness :
  exists p1 p2, progress 30 120 = Ok p1 /\ progress 60 120 = Ok p2 /\ (p1 <= p2)%Q.
Proof.
  refine (proj1 (progress_monotone 30 60 120 _ _)).
  - unfold Qlt; simpl; lia.
  - unfold Qle; simpl; lia.
Defined.

(** X9.  A duration of 0 is not checked: the first pass of the loop raises
    ZeroDivisionError before anything is rendered, whatever the lyrics and
    the time. *)
Theorem sync_loop_zero_duration (s : song) (start_time now : Q) (later : list Q) :
  (duration s == 0)%Q ->
  sync_loop s start_time (now :: later)
  = Raise (ZeroDivisionError "float division by zero").
Proof.
  intros Hd. unfold sync_loop. rewrite parse_lrc_eq. cbn [bind sync_passes].
  unfold sync_tick, progress, py_truediv.
  apply Qeq_bool_iff in Hd. rewrite Hd. reflexivity.
Qed.

Lemma sync_loop_zero_duration_witness :
  sync_loop (Song "a.mp3" "/tmp/streamlit_uploads/a.mp3" 0 "[00:00.00]Hello") 100 [101%Q; 102%Q]
  = Raise (ZeroDivisionError "float division by zero").
Proof.
  apply (sync_loop_zero_duration
           (Song "a.mp3" "/tmp/streamlit_uploads/a.mp3" 0 "[00:00.00]Hello")).
  reflexivity.
Defined.

Lemma sync_passes_frames (s : song) (track : list (Q * string)) (start_time : Q)
  (clock : list Q) :
  (0 < duration s)%Q -> Forall (fun now => (start_time <= now)%Q) clock ->
  exists frames,
    sync_passes s track start_time clock = Ok frames
    /\ Forall2 (fun now f =>
                  frame_lyric f = current_lyric (Qred (now - start_time)) track
                  /\ progress (Qred (now - start_time)) (duration s)
                     = Ok (frame_progress f))
         clock frames.
Proof.
  intros Hd Hc. induction Hc as [|now later Hn _ (frames & E & HF)].
  - exists []. split; [reflexivity|constructor].
  - destruct (sync_tick_frame s track start_time now Hd Hn) as (p & label & Hp & Ht).
    cbv zeta in Hp, Ht. cbn [sync_passes]. rewrite Ht, E. cbn [bind].
    eexists. split; [reflexivity|]. constructor; [|exact HF].
    cbn [frame_lyric frame_progress]. split; [reflexivity|exact Hp].
Qed.

(** X10.  With a duration above 0 and readings of the clock at or after the
    start time, the loop raises nothing and renders one frame for each
    reading, in order; the frame of a reading shows the current lyric and
    the progress at the time elapsed since the start, computed from that
    reading alone. *)
Theorem sync_loop_frames (s : song) (start_time : Q) (clock : list Q) :
  (0 < duration s)%Q -> Forall (fun now => (start_time <= now)%Q) clock ->
  exists track frames,
    parse_lrc (lrc_data s) = Ok track
    /\ sync_loop s start_time clock = Ok frames
    /\ Forall2 (fun now f =>
                  frame_lyric f = current_lyric (Qred (now - start_time)) track
                  /\ progress (Qred (now - start_time)) (duration s)
                     = Ok (frame_progress f))
         clock frames.
Proof.
  intros Hd Hc.
  exists (flat_map line_entries (splitlines (lrc_data s))).
  destruct (sync_passes_frames s (flat_map line_entries (splitlines (lrc_data s)))
              start_time clock Hd Hc) as (frames & E & HF).
  exists frames. split; [apply parse_lrc_eq|]. split; [|exact HF].
  unfold sync_loop. rewrite parse_lrc_eq. cbn [bind]. exact E.
Qed.

Lemma sync_loop_frames_witness :
  exists track frames,
    parse_lrc ("[00:00.00]Hello" ++ newline ++ "[01:05.50]world") = Ok track
    /\ sync_loop (Song "a.mp3" "/tmp/streamlit_uploads/a.mp3" 120
                    ("[00:00.00]Hello" ++ newline ++ "[01:05.50]world"))
         100 [100%Q; 301 # 2; 166%Q] = Ok frames
    /\ Forall2 (fun now f =>
                  frame_lyric f = current_lyric (Qred (now - 100)) track
                  /\ progress (Qred (now - 100)) 120 = Ok (frame_progress f))
         [100%Q; 301 # 2; 166%Q] frames.
Proof.
  apply (sync_loop_frames
           (Song "a.mp3" "/tmp/streamlit_uploads/a.mp3" 120
              ("[00:00.00]Hello" ++ newline ++ "[01:05.50]world"))
           100 [100%Q; 301 # 2; 166%Q]).
  - unfold Qlt; simpl; lia.
  - repeat constructor; unfold Qle; simpl; lia.
Defined.

Lemma Qle_bool_false (a b : Q) : (b < a)%Q -> Qle_bool a b = false.
Proof.
  intros H. destruct (Qle_bool a b) eqn:E; [|reflexivity].
  apply Qle_bool_iff in E. lra.
Qed.

Lemma isclose_far (a b : Q) :
  (tolerance < Qabs (a - b))%Q ->
  (tolerance * Qabs a < Qabs (a - b))%Q ->
  (tolerance * Qabs b < Qabs (a - b))%Q ->
  isclose a b = false.
Proof.
  intros H1 H2 H3. unfold isclose. apply Qle_bool_false.
  apply Q.max_lub_lt; [|exact H1].
  destruct (Q.max_spec (Qabs a) (Qabs b)) as [[_ Em]|[_ Em]]; rewrite Em; assumption.
Qed.

Lemma st_progress_below (value : Q) :
  (value < - tolerance)%Q ->
  exists msg, st_progress value = Raise (StreamlitAPIException msg).
Proof.
  intros H. unfold st_progress.
  assert (Ht : (0 < tolerance)%Q) by reflexivity.
  assert (Ht1 : (tolerance < 1)%Q) by reflexivity.
  assert (Ha : (Qabs value == - value)%Q) by (apply Qabs_neg; lra).
  rewrite (Qle_bool_false 0 value) by lra.
  rewrite (isclose_far value 0), (isclose_far value 1).
  - cbn [andb orb]. eexists. reflexivity.
  - rewrite (Qabs_neg (value - 1)) by lra. lra.
  - rewrite (Qabs_neg (value - 1)) by lra. rewrite Ha. nra.
  - rewrite (Qabs_neg (value - 1)) by lra. change (Qabs 1) with 1%Q. lra.
  - rewrite (Qabs_neg (value - 0)) by lra. lra.
  - rewrite (Qabs_neg (value - 0)) by lra. rewrite Ha. nra.
  - rewrite (Qabs_neg (value - 0)) by lra. change (Qabs 0) with 0%Q. lra.
Qed.

(** X24.  The progress is not held at 0, and the progress bar refuses a
    value below 0: with a duration above 0, a reading of the clock so far
    before the start time that the progress falls below -1e-8 makes that
    pass raise the error of the user interface, and nothing is rendered from
    that pass on. *)
Theorem sync_loop_before_start (s : song) (start_time now : Q) (later : list Q) :
  (0 < duration s)%Q ->
  ((now - start_time) / duration s < - (1 # 100000000))%Q ->
  exists msg,
    sync_loop s start_time (now :: later) = Raise (StreamlitAPIException msg).
Proof.
  intros Hd Hn. unfold sync_loop. rewrite parse_lrc_eq. cbn [bind sync_passes].
  unfold sync_tick.
  rewrite (progress_value _ (duration s) Hd), !clock_label_ok. cbn [bind].
  destruct (st_progress_below (py_min (Qred (Qred (now - start_time) / duration s)) 1))
    as (msg & E).
  - rewrite py_min_Qmin, !Qred_correct.
    eapply Qle_lt_trans; [apply Q.le_min_l|].
    eapply Qlt_trans; [exact Hn|reflexivity].
  - rewrite E. cbn [bind]. exists msg. reflexivity.
Qed.

Lemma sync_loop_before_start_witness :
  exists msg,
    sync_loop (Song "a.mp3" "/tmp/streamlit_uploads/a.mp3" 120 "[00:00.00]Hello")
      100 [99%Q; 105%Q]
    = Raise (StreamlitAPIException msg).
Proof.
  apply (sync_loop_before_start
           (Song "a.mp3" "/tmp/streamlit_uploads/a.mp3" 120 "[00:00.00]Hello")
           100 99 [105%Q]).
  - unfold Qlt; simpl; lia.
  - unfold Qlt; simpl; lia.
Defined.

(** ** The current lyric over time *)

Lemma filter_unreached (t : Q) (l : Q * string) (rest : list (Q * string)) :
  ascending (l :: rest) -> (t < fst l)%Q -> filter (reached_by t) (l :: rest) = [].
Proof.
  intros Ha Hlt.
  apply (filter_reached_prefix t [] (l :: rest)); [constructor|exact Hlt|exact Ha].
Qed.

Lemma filter_reached_mono (t1 t2 : Q) (lyrics_data : list (Q * string)) :
  ascending lyrics_data -> (t1 <= t2)%Q ->
  exists more,
    filter (reached_by t2) lyrics_data
    = (filter (reached_by t1) lyrics_data ++ more)%list.
Proof.
  intros Ha H12. induction lyrics_data as [|l data IH].
  - exists []. reflexivity.
  - destruct (Qlt_le_dec t1 (fst l)) as [Hlt|Hle].
    + rewrite (filter_unreached t1 l data Ha Hlt). eexists. reflexivity.
    + destruct Ha as [_ Ha]. destruct (IH Ha) as (more & E).
      exists more. cbn [filter].
      assert (H2 : (fst l <= t2)%Q) by lra.
      assert (R1 : reached_by t1 l = true) by (apply Qle_bool_iff; exact Hle).
      assert (R2 : reached_by t2 l = true) by (apply Qle_bool_iff; exact H2).
      rewrite R1, R2, E. reflexivity.
Qed.

(** X11.  On a track in ascending order the current lyric only moves
    forward: the lines reached at an elapsed time are still reached at any
    later time, in the same order and followed by the lines reached since,
    and at both times the current lyric is the text of the last line
    reached. *)
Theorem current_lyric_moves_forward (lyrics_data : list (Q * string)) (t1 t2 : Q) :
  ascending lyrics_data -> (t1 <= t2)%Q ->
  exists more,
    reached_texts t2 lyrics_data = (reached_texts t1 lyrics_data ++ more)%list
    /\ current_lyric t1 lyrics_data = last (reached_texts t1 lyrics_data) EmptyString
    /\ current_lyric t2 lyrics_data = last (reached_texts t2 lyrics_data) EmptyString.
Proof.
  intros Ha H12.
  destruct (filter_reached_mono t1 t2 lyrics_data Ha H12) as (more & E).
  exists (map snd more). unfold reached_texts.
  rewrite E, map_app. split; [reflexivity|]. rewrite <- map_app, <- E.
  split; apply current_lyric_ascending; exact Ha.
Qed.

Lemma current_lyric_moves_forward_witness :
  exists more,
    reached_texts 15 [(0%Q, "a"); (10%Q, "b"); (20%Q, "c")]
    = (reached_texts 5 [(0%Q, "a"); (10%Q, "b"); (20%Q, "c")] ++ more)%list
    /\ current_lyric 5 [(0%Q, "a"); (10%Q, "b"); (20%Q, "c")]
       = last (reached_texts 5 [(0%Q, "a"); (10%Q, "b"); (20%Q, "c")]) EmptyString
    /\ current_lyric 15 [(0%Q, "a"); (10%Q, "b"); (20%Q, "c")]
       = last (reached_texts 15 [(0%Q, "a"); (10%Q, "b"); (20%Q, "c")]) EmptyString.
Proof.
  apply (current_lyric_moves_forward [(0%Q, "a"); (10%Q, "b"); (20%Q, "c")] 5 15).
  - cbn. repeat split; repeat constructor; cbn; unfold Qle; simpl; lia.
  - unfold Qle; simpl; lia.
Defined.

Lemma last_In {A : Type} (l : list A) (x d : A) : In (last (x :: l) d) (x :: l).
Proof.
  revert x. induction l as [|y l IH]; intros x; [left; reflexivity|].
  right. change (last (x :: y :: l) d) with (last (y :: l) d). apply IH.
Qed.

(** X12.  Once the time of the first line is reached, the current lyric is
    the text of a line of the track and at least one line is marked; every
    line whose text is equal to the current lyric is marked, wherever it
    stands. *)
Theorem some_line_highlighted
  (first : Q * string) (rest : list (Q * string)) (elapsed : Q) :
  (fst first <= elapsed)%Q ->
  let lyrics_data := first :: rest in
  let cur := current_lyric elapsed lyrics_data in
  In cur (map snd lyrics_data)
  /\ existsb (fun flag => flag) (highlight_flags cur lyrics_data) = true
  /\ highlight_flags cur lyrics_data
     = map (fun l => String.eqb (snd l) cur) lyrics_data.
Proof.
  intros Hle lyrics_data cur.
  assert (Hin : In cur (map snd lyrics_data)).
  { destruct (scan_split elapsed lyrics_data) as (reached & rest' & E & Hr & Hs).
    assert (Hcur : cur = last (map snd reached) EmptyString).
    { unfold cur, current_lyric. rewrite E, scan_lyrics_app by exact Hr.
      apply scan_lyrics_stop. exact Hs. }
    destruct reached as [|r reached].
    - exfalso. cbn [app] in E. subst rest'. unfold lyrics_data in Hs. lra.
    - rewrite Hcur, E, map_app. apply in_or_app. left.
      cbn [map]. apply last_In. }
  split; [exact Hin|]. split; [|reflexivity].
  apply existsb_exists. exists true. split; [|reflexivity].
  unfold highlight_flags. apply in_map_iff in Hin. destruct Hin as (l & El & Hl).
  apply in_map_iff. exists l. split; [|exact Hl].
  unfold highlighted. rewrite El. apply String.eqb_refl.
Qed.

Lemma some_line_highlighted_witness :
  In (current_lyric 12 [(0%Q, "la"); (10%Q, "la"); (20%Q, "c")]) ["la"; "la"; "c"]
  /\ existsb (fun flag => flag)
       (highlight_flags (current_lyric 12 [(0%Q, "la"); (10%Q, "la"); (20%Q, "c")])
          [(0%Q, "la"); (10%Q, "la"); (20%Q, "c")]) = true.
Proof.
  assert (H : (fst (0%Q, "la") <= 12)%Q) by (unfold Qle; simpl; lia).
  destruct (some_line_highlighted (0%Q, "la") [(10%Q, "la"); (20%Q, "c")] 12 H)
    as (H1 & H2 & _).
  split; [exact H1|exact H2].
Defined.

(** X13.  The clock label cuts the seconds instead of rounding them: for
    every time from 0 up to, but not including, 2^53 seconds its seconds
    field is the whole part of the remainder, two digits between 00 and 59,
    so it never shows 60, and below one hundred minutes the label has five
    characters. *)
Theorem clock_label_truncates (t : Q) :
  exact_range t ->
  let s := Qfloor (seconds_of t) in
  0 <= s <= 59
  /\ clock_label t = Ok (fmt_02d (minutes_of t) ++ ":" ++ two_digits s)
  /\ ((t < 6000)%Q ->
      clock_label t = Ok (two_digits (minutes_of t) ++ ":" ++ two_digits s)).
Proof.
  intros [Ht0 _]. cbv zeta. pose proof (seconds_of_range t) as [H0 H60].
  assert (Hs : 0 <= Qfloor (seconds_of t) <= 59).
  { split.
    - rewrite <- (Qfloor_Z 0). apply Qfloor_resp_le. exact H0.
    - assert (Qfloor (seconds_of t) < 60); [|lia].
      rewrite Zlt_Qlt. pose proof (Qfloor_le (seconds_of t)).
      change (inject_Z 60) with 60%Q. lra. }
  assert (Hl : clock_label t
               = Ok (fmt_02d (minutes_of t) ++ ":" ++ two_digits (Qfloor (seconds_of t)))).
  { rewrite clock_label_ok. unfold py_int.
    assert (E : (Qred (seconds_of t) == seconds_of t)%Q) by apply Qred_correct.
    assert (Hb : Qle_bool 0 (Qred (seconds_of t)) = true)
      by (apply Qle_bool_iff; rewrite E; exact H0).
    rewrite Hb, (Qfloor_comp _ _ E).
    rewrite (fmt_02d_small (Qfloor (seconds_of t))) by lia. reflexivity. }
  split; [exact Hs|]. split; [exact Hl|].
  intros Ht1. rewrite Hl, fmt_02d_small; [reflexivity|].
  split; [apply minutes_of_nonneg; exact Ht0|].
  apply minutes_of_lt. change (inject_Z (60 * 100)) with 6000%Q. exact Ht1.
Qed.

Lemma clock_label_truncates_witness :
  exact_range (11999 # 100) /\ clock_label (11999 # 100) = Ok "01:59".
Proof.
  assert (H : exact_range (11999 # 100)).
  { split; [unfold Qle; simpl; lia|unfold Qlt; simpl; lia]. }
  split; [exact H|].
  exact (proj1 (proj2 (clock_label_truncates (11999 # 100) H))).
Defined.

(** ** The upload code as a whole *)

Lemma process_body_log (C : collaborators) (f : uploaded_file) (st : app_state) :
  exists evs,
    ui_log (snd (process_body C f st)) = (ui_log st ++ evs)%list
    /\ Forall (fun ev => is_rerun ev = false) evs.
Proof.
  unfold process_body, bindM, lift, emit, append_song. cbn -[append].
  repeat step_res;
    (eexists; split;
     [cbn [snd ui_log]; rewrite <- ?app_assoc; reflexivity
     | repeat constructor]).
Qed.

Lemma process_upload_log (C : collaborators) (f : uploaded_file) (st : app_state) :
  exists evs,
    ui_log (snd (process_upload C f st)) = (ui_log st ++ evs)%list
    /\ Forall (fun ev => is_rerun ev = false) evs.
Proof.
  rewrite process_upload_eq. cbv zeta.
  destruct (process_body_log C f
              (AppState (processed_songs st)
                 (ui_log st ++ [StatusOpen ("Processing " ++ up_name f ++ "...")])))
    as (evs & E & Hev).
  destruct (process_body C f _) as [[[]|e] st']; cbn [snd ui_log] in *;
    rewrite E, <- ?app_assoc; eexists; (split; [reflexivity|]).
  - constructor; [reflexivity|exact Hev].
  - constructor; [reflexivity|]. apply Forall_app. split; [exact Hev|].
    repeat constructor.
Qed.

Lemma upload_loop_log (C : collaborators) (names : list string)
  (files : list uploaded_file) : forall did st,
  exists evs,
    ui_log (snd (upload_loop C names files did st)) = (ui_log st ++ evs)%list
    /\ Forall (fun ev => is_rerun ev = false) evs.
Proof.
  induction files as [|f files IH]; intros did st.
  - exists []. rewrite app_nil_r. split; [reflexivity|constructor].
  - destruct (name_in (up_name f) names) eqn:E.
    + rewrite upload_loop_cons_known by exact E. apply IH.
    + destruct (process_upload_ok C f st) as [st' Hp].
      rewrite (upload_loop_cons_new _ _ _ _ _ _ _ E Hp).
      destruct (process_upload_log C f st) as (e1 & E1 & H1).
      rewrite Hp in E1. cbn [snd] in E1.
      destruct (IH true st') as (e2 & E2 & H2).
      exists (e1 ++ e2)%list. rewrite E2, E1, <- app_assoc.
      split; [reflexivity|]. apply Forall_app. split; assumption.
Qed.

(** The flag the loop returns: set when a file was not skipped. *)
Lemma upload_loop_flag (C : collaborators) (names : list string)
  (files : list uploaded_file) : forall did st,
  fst (upload_loop C names files did st)
  = Ok (match new_files names files with
        | [] => did
        | _ :: _ => true
        end).
Proof.
  induction files as [|f files IH]; intros did st; [reflexivity|].
  unfold new_files. cbn [filter]. destruct (name_in (up_name f) names) eqn:E.
  - rewrite upload_loop_cons_known by exact E. cbn [negb]. apply IH.
  - destruct (process_upload_ok C f st) as [st' Hp].
    rewrite (upload_loop_cons_new _ _ _ _ _ _ _ E Hp). cbn [negb].
    rewrite IH. destruct (new_files names files); reflexivity.
Qed.

Lemma upload_loop_all_known (C : collaborators) (names : list string)
  (files : list uploaded_file) : forall did st,
  new_files names files = [] ->
  upload_loop C names files did st = (Ok did, st).
Proof.
  induction files as [|f files IH]; intros did st H; [reflexivity|].
  unfold new_files in H. cbn [filter] in H.
  destruct (name_in (up_name f) names) eqn:E; [|discriminate H].
  rewrite upload_loop_cons_known by exact E. apply IH. exact H.
Qed.

(** What a run of the upload code does to the session, in one equation. *)
Lemma handle_uploads_result (C : collaborators) (files : list uploaded_file)
  (st : app_state) :
  exists added evs,
    handle_uploads C files st
    = (Ok tt, AppState (processed_songs st ++ added)
                (ui_log st ++ evs
                 ++ match new_files (song_names st) files with
                    | [] => []
                    | _ :: _ => [Rerun]
                    end))
    /\ map name added = map up_name (added_files C st files)
    /\ Forall (fun ev => is_rerun ev = false) evs.
Proof.
  unfold handle_uploads, added_files, song_names.
  destruct files as [|f0 files0].
  - exists [], []. rewrite !app_nil_r. destruct st. repeat split. constructor.
  - set (files := f0 :: files0). set (names := map name (processed_songs st)).
    unfold bindM.
    destruct (upload_loop_songs C names files false st) as (added & Hs & Hn).
    destruct (upload_loop_log C names files false st) as (evs & Hl & Hev).
    pose proof (upload_loop_flag C names files false st) as Hf.
    destruct (upload_loop C names files false st) as [r st'] eqn:E.
    cbn [fst snd] in *. subst r.
    exists added, evs. split; [|split; assumption].
    destruct st' as [songs' log']. cbn [processed_songs ui_log] in *. subst songs' log'.
    destruct (new_files names files); cbn [emit ret processed_songs ui_log].
    + rewrite app_nil_r. reflexivity.
    + unfold emit. cbn [processed_songs ui_log]. rewrite <- app_assoc. reflexivity.
Qed.

(** X14.  A run of the upload code never raises, whatever the collaborators
    do, and never touches the songs it finds: the collection after the run
    is the collection before it followed by one song for each file that
    was not skipped and was processed without raising, in the order of the
    batch and under the name of its file. *)
Theorem handle_uploads_extends (C : collaborators) (files : list uploaded_file)
  (st : app_state) :
  exists st' added,
    handle_uploads C files st = (Ok tt, st')
    /\ processed_songs st' = (processed_songs st ++ added)%list
    /\ map name added = map up_name (added_files C st files).
Proof.
  destruct (handle_uploads_result C files st) as (added & evs & E & Hn & _).
  eexists _, added. split; [exact E|]. split; [reflexivity|exact Hn].
Qed.

Lemma handle_uploads_rerun_count (C : collaborators) (files : list uploaded_file)
  (st : app_state) :
  rerun_count (snd (handle_uploads C files st))
  = (rerun_count st
     + match new_files (song_names st) files with
       | [] => 0
       | _ :: _ => 1
       end)%nat.
Proof.
  destruct (handle_uploads_result C files st) as (added & evs & E & _ & Hev).
  rewrite E. unfold rerun_count. cbn [snd ui_log].
  rewrite !filter_app, !List.length_app.
  assert (H0 : filter is_rerun evs = []).
  { clear - Hev. induction Hev as [|ev evs H _ IH]; [reflexivity|].
    cbn [filter]. rewrite H. exact IH. }
  rewrite H0. destruct (new_files (song_names st) files); cbn; lia.
Qed.

(** X15.  The script asks to be run again exactly when a file of the batch
    was not skipped, whether its processing worked or raised: the log of
    the run ends with the request in that case and holds no request
    otherwise. *)
Theorem handle_uploads_rerun (C : collaborators) (files : list uploaded_file)
  (st : app_state) :
  exists evs,
    ui_log (snd (handle_uploads C files st))
    = (ui_log st ++ evs
       ++ match new_files (song_names st) files with
          | [] => []
          | _ :: _ => [Rerun]
          end)%list
    /\ Forall (fun ev => is_rerun ev = false) evs
    /\ rerun_count (snd (handle_uploads C files st))
       = (rerun_count st
          + match new_files (song_names st) files with
            | [] => 0
            | _ :: _ => 1
            end)%nat.
Proof.
  destruct (handle_uploads_result C files st) as (added & evs & E & _ & Hev).
  exists evs. split; [rewrite E; reflexivity|]. split; [exact Hev|].
  apply handle_uploads_rerun_count.
Qed.

Lemma handle_uploads_names (C : collaborators) (files : list uploaded_file)
  (st : app_state) :
  song_names (snd (handle_uploads C files st))
  = (song_names st ++ map up_name (added_files C st files))%list.
Proof.
  destruct (handle_uploads_result C files st) as (added & evs & E & Hn & _).
  rewrite E. unfold song_names. cbn [snd processed_songs].
  rewrite map_app, Hn. reflexivity.
Qed.

Lemma added_files_new (C : collaborators) (st : app_state)
  (files : list uploaded_file) (f : uploaded_file) :
  In f (added_files C st files) ->
  In f files /\ name_in (up_name f) (song_names st) = false /\ succeeds C f = true.
Proof.
  unfold added_files, new_files. intros H.
  apply filter_In in H. destruct H as [H Hs].
  apply filter_In in H. destruct H as [H Hn].
  apply negb_true_iff in Hn. repeat split; assumption.
Qed.

(** X16.  When the names of the collection are distinct before a run, they
    are distinct after it exactly when the files that add a song have
    distinct names: the names found are never taken again, so only two files
    of one name in the same batch, both processed without raising, give
    two songs of one name. *)
Theorem handle_uploads_distinct_names (C : collaborators)
  (files : list uploaded_file) (st : app_state) :
  NoDup (song_names st) ->
  (NoDup (song_names (snd (handle_uploads C files st)))
   <-> NoDup (map up_name (added_files C st files))).
Proof.
  intros Hst. rewrite handle_uploads_names. split.
  - apply NoDup_app_remove_l.
  - intros Hadd. apply NoDup_app; [exact Hst|exact Hadd|].
    intros n Hin Hin'. apply in_map_iff in Hin'. destruct Hin' as (f & <- & Hf).
    apply added_files_new in Hf. destruct Hf as (_ & Hn & _).
    apply name_in_In in Hin. unfold song_names in *. congruence.
Qed.

Lemma handle_uploads_distinct_names_witness :
  NoDup (song_names empty_session)
  /\ (NoDup (song_names (snd (handle_uploads demo [a_mp3; b_wav; a_mp3] empty_session)))
      <-> NoDup (map up_name (added_files demo empty_session [a_mp3; b_wav; a_mp3]))).
Proof.
  assert (H : NoDup (song_names empty_session)) by constructor.
  split; [exact H|].
  apply (handle_uploads_distinct_names demo [a_mp3; b_wav; a_mp3] empty_session H).
Defined.

Lemma new_files_nil (names : list string) (files : list uploaded_file) :
  (forall f, In f files -> name_in (up_name f) names = true) ->
  new_files names files = [].
Proof.
  intros H. unfold new_files. induction files as [|f files IH]; [reflexivity|].
  cbn [filter]. rewrite (H f (or_introl eq_refl)). cbn [negb].
  apply IH. intros g Hg. apply H. right. exact Hg.
Qed.

Lemma filter_all {A : Type} (p : A -> bool) (l : list A) :
  Forall (fun x => p x = true) l -> filter p l = l.
Proof.
  induction 1 as [|x l Hx _ IH]; [reflexivity|].
  cbn [filter]. rewrite Hx, IH. reflexivity.
Qed.

Lemma handle_uploads_all_known (C : collaborators) (files : list uploaded_file)
  (st : app_state) :
  new_files (song_names st) files = [] -> handle_uploads C files st = (Ok tt, st).
Proof.
  intros H. unfold handle_uploads. destruct files as [|f files]; [reflexivity|].
  unfold bindM. fold (song_names st).
  rewrite (upload_loop_all_known C _ _ false st H). reflexivity.
Qed.

(** X17.  The upload code is idempotent once every file has worked: when
    each file that is not skipped is processed without raising, a second run
    on the same batch skips every file, so it adds no song, shows nothing
    and does not ask for another run. *)
Theorem handle_uploads_idempotent (C : collaborators) (files : list uploaded_file)
  (st : app_state) :
  Forall (fun f => succeeds C f = true) (new_files (song_names st) files) ->
  handle_uploads C files (snd (handle_uploads C files st))
  = (Ok tt, snd (handle_uploads C files st)).
Proof.
  intros Hall. apply handle_uploads_all_known. apply new_files_nil.
  intros f Hf. apply name_in_In. rewrite handle_uploads_names.
  unfold added_files. rewrite (filter_all _ _ Hall).
  apply in_or_app.
  destruct (name_in (up_name f) (song_names st)) eqn:E.
  - left. apply name_in_In. exact E.
  - right. apply in_map. unfold new_files. apply filter_In.
    split; [exact Hf|]. rewrite E. reflexivity.
Qed.

Lemma handle_uploads_idempotent_witness :
  handle_uploads demo [a_mp3; b_wav; a_mp3]
    (snd (handle_uploads demo [a_mp3; b_wav; a_mp3] empty_session))
  = (Ok tt, snd (handle_uploads demo [a_mp3; b_wav; a_mp3] empty_session)).
Proof.
  apply (handle_uploads_idempotent demo [a_mp3; b_wav; a_mp3] empty_session).
  repeat constructor.
Defined.

Lemma handle_uploads_failing (C : collaborators) (f : uploaded_file) (st : app_state) :
  name_in (up_name f) (song_names st) = false -> succeeds C f = false ->
  processed_songs (snd (handle_uploads C [f] st)) = processed_songs st
  /\ rerun_count (snd (handle_uploads C [f] st)) = S (rerun_count st).
Proof.
  intros Hnew Hfail. split.
  - destruct (handle_uploads_result C [f] st) as (added & evs & E & Hn & _).
    rewrite E. cbn [snd processed_songs].
    unfold added_files, new_files in Hn. cbn [filter] in Hn.
    rewrite Hnew in Hn. cbn [negb filter] in Hn. rewrite Hfail in Hn.
    destruct added; [apply app_nil_r|discriminate Hn].
  - rewrite handle_uploads_rerun_count. unfold new_files. cbn [filter].
    rewrite Hnew. cbn. lia.
Qed.

(** X18.  A file that raises is tried again on every run: when the only
    file of the batch is not in the collection and its processing raises,
    each run of the script leaves the collection as it was and asks for
    another run, so after [n] runs on that batch the collection is unchanged
    and [n] more runs have been asked for, for every [n]. *)
Theorem failing_upload_retried (C : collaborators) (f : uploaded_file)
  (st : app_state) (n : nat) :
  name_in (up_name f) (song_names st) = false -> succeeds C f = false ->
  processed_songs (reruns C [f] n st) = processed_songs st
  /\ rerun_count (reruns C [f] n st) = (rerun_count st + n)%nat.
Proof.
  intros Hnew Hfail. revert st Hnew.
  induction n as [|n IH]; intros st Hnew.
  - cbn [reruns]. split; [reflexivity|lia].
  - cbn [reruns].
    destruct (handle_uploads_failing C f st Hnew Hfail) as [Hs Hc].
    assert (Hnew' : name_in (up_name f)
                      (song_names (snd (handle_uploads C [f] st))) = false).
    { unfold song_names in *. rewrite Hs. exact Hnew. }
    destruct (IH _ Hnew') as [Hs' Hc'].
    split; [rewrite Hs'; exact Hs|rewrite Hc', Hc; lia].
Qed.

Lemma failing_upload_retried_witness :
  processed_songs (reruns demo [bad_mp3] 3 empty_session) = []
  /\ rerun_count (reruns demo [bad_mp3] 3 empty_session) = 3%nat.
Proof.
  apply (failing_upload_retried demo bad_mp3 empty_session 3); reflexivity.
Defined.

(** X19.  From the upload to the track that is played: when the file is not
    in the collection and every collaborator works, the run adds exactly one
    song, with the name of the file, its path in the upload directory, the
    duration read from its metadata and the formatted transcription; and
    when the segments of the transcription are readable, the lyrics of
    that song parse to one entry per segment, in order. *)
Theorem upload_stores_transcription (C : collaborators) (f : uploaded_file)
  (st : app_state) (d : Q) (m : Model C) (segments : list segment) :
  name_in (up_name f) (song_names st) = false ->
  makedirs C temp_dir = Ok tt ->
  write_file C (path_join temp_dir (up_name f)) (up_buffer f) = Ok tt ->
  (if String.eqb (up_type f) "audio/mpeg"
   then MP3_length C (path_join temp_dir (up_name f))
   else WAVE_length C (path_join temp_dir (up_name f))) = Ok d ->
  load_model C "medium" (if cuda_is_available C then "cuda" else "cpu") = Ok m ->
  transcribe C m (path_join temp_dir (up_name f)) "en" = Ok segments ->
  exists lrc,
    generate_lrc_content segments = Ok lrc
    /\ processed_songs (snd (handle_uploads C [f] st))
       = (processed_songs st
          ++ [Song (up_name f) (path_join temp_dir (up_name f)) d lrc])%list
    /\ (Forall readable segments ->
        exists entries,
          parse_lrc lrc = Ok entries
          /\ List.length entries = List.length segments
          /\ map snd entries = map (fun seg => strip (text seg)) segments).
Proof.
  intros Hnew H1 H2 H3 H4 H5.
  exists (join newline (map lrc_line_text segments)).
  split; [apply generate_lrc_content_eq|].
  split;
    [|intros Hr; exists (map segment_entry segments);
      split; [apply parse_generated; exact Hr|];
      split; [apply length_map|rewrite map_map; reflexivity]].
  unfold handle_uploads, bindM. cbn [upload_loop].
  fold (song_names st). rewrite Hnew.
  unfold bindM, process_upload, try_except, bindM, emit, process_body, bindM, lift,
    emit, append_song. cbn -[append generate_lrc_content].
  rewrite H1, H2, H3, H4, H5, generate_lrc_content_eq. reflexivity.
Qed.

Lemma upload_stores_transcription_witness :
  exists lrc,
    generate_lrc_content [Segment 0 " Hello "; Segment (131 # 2) "world"] = Ok lrc
    /\ processed_songs (snd (handle_uploads demo [a_mp3] empty_session))
       = [Song "a.mp3" "/tmp/streamlit_uploads/a.mp3" 120 lrc]
    /\ exists entries,
        parse_lrc lrc = Ok entries
        /\ List.length entries = 2%nat
        /\ map snd entries = ["Hello"; "world"].
Proof.
  destruct (upload_stores_transcription demo a_mp3 empty_session 120 tt
              [Segment 0 " Hello "; Segment (131 # 2) "world"]
              eq_refl eq_refl eq_refl eq_refl eq_refl eq_refl)
    as (lrc & E & Hs & Hp).
  exists lrc. split; [exact E|]. split; [exact Hs|].
  apply Hp.
  repeat constructor; cbn; try (unfold Qle; simpl; lia); try (unfold Qlt; simpl; lia).
Defined.

(** ** The audio element *)

Example b64encode_Man :
  b64encode "Man" = "TWFu" /\ b64encode "Ma" = "TWE=" /\ b64encode "M" = "TQ=="
  /\ b64encode "light work." = "bGlnaHQgd29yay4=".
Proof. repeat split. Qed.

Lemma is_b64_char_chr (n : Z) :
  65 <= n <= 90 \/ 97 <= n <= 122 \/ 48 <= n <= 57 ->
  is_b64_char (chr n) = true.
Proof.
  intros H. unfold is_b64_char. cbv zeta. rewrite code_chr by lia. cases_Z.
Qed.

Lemma b64_char_alphabet (i : Z) : 0 <= i < 64 -> is_b64_char (b64_char i) = true.
Proof.
  intros Hi. unfold b64_char.
  destruct (Z.ltb_spec i 26) as [H1|H1]; [apply is_b64_char_chr; lia|].
  destruct (Z.ltb_spec i 52) as [H2|H2]; [apply is_b64_char_chr; lia|].
  destruct (Z.ltb_spec i 62) as [H3|H3]; [apply is_b64_char_chr; lia|].
  destruct (Z.eqb_spec i 62); reflexivity.
Qed.

Lemma b64_char_safe (c : ascii) : is_b64_char c = true -> html_safe c = true.
Proof.
  unfold is_b64_char, html_safe, is_linebreak. cbv zeta. intros H.
  assert (E : forall k, 0 <= k < 256 -> code c <> k -> Ascii.eqb c (chr k) = false).
  { intros k Hk Hne. destruct (Ascii.eqb_spec c (chr k)) as [->|]; [|reflexivity].
    rewrite code_chr in Hne by lia. congruence. }
  assert (Hq : code c <> 34) by (intros E'; rewrite E' in H; discriminate H).
  assert (Hl : code c <> 60) by (intros E'; rewrite E' in H; discriminate H).
  assert (Hg : code c <> 62) by (intros E'; rewrite E' in H; discriminate H).
  rewrite (E 34), (E 60 ltac:(lia) Hl : Ascii.eqb c "<" = false),
    (E 62 ltac:(lia) Hg : Ascii.eqb c ">" = false) by (lia || assumption).
  cbn [negb andb]. revert H. generalize (code c). intros n H. cases_Z.
Qed.

Lemma sextets_range (a b c : ascii) :
  let n := code a * 65536 + code b * 256 + code c in
  0 <= n / 262144 < 64 /\ 0 <= (n / 4096) mod 64 < 64
  /\ 0 <= (n / 64) mod 64 < 64 /\ 0 <= n mod 64 < 64.
Proof.
  cbv zeta. pose proof (code_range a). pose proof (code_range b).
  pose proof (code_range c).
  repeat split; try (apply Z.mod_pos_bound; lia).
  - apply Z.div_pos; lia.
  - apply Z.div_lt_upper_bound; lia.
Qed.

Lemma string_ind3 (P : string -> Prop) :
  P EmptyString ->
  (forall a, P (String a EmptyString)) ->
  (forall a b, P (String a (String b EmptyString))) ->
  (forall a b c s, P s -> P (String a (String b (String c s)))) ->
  forall s, P s.
Proof.
  intros H0 H1 H2 H3 s.
  assert (H : P s /\ (forall a, P (String a s)) /\ (forall a b, P (String a (String b s)))).
  { induction s as [|c s (IHa & IHb & IHc)].
    - repeat split; assumption.
    - split; [apply IHb|]. split; [intros a; apply IHc|].
      intros a b. apply H3. exact IHa. }
  apply H.
Qed.

Lemma b64encode_alphabet (data : string) :
  all_chars is_b64_char (b64encode data) = true.
Proof.
  induction data as [|a|a b|a b c rest IH] using string_ind3.
  - reflexivity.
  - pose proof (sextets_range a (chr 0) (chr 0)) as H. cbv zeta in H.
    rewrite code_chr in H by lia. rewrite !Z.add_0_r in H.
    destruct H as (H1 & H2 & _).
    cbn [b64encode all_chars]. cbv zeta.
    rewrite !b64_char_alphabet by assumption. reflexivity.
  - pose proof (sextets_range a b (chr 0)) as H. cbv zeta in H.
    rewrite code_chr in H by lia. rewrite !Z.add_0_r in H.
    destruct H as (H1 & H2 & H3 & _).
    cbn [b64encode all_chars]. cbv zeta.
    rewrite !b64_char_alphabet by assumption. reflexivity.
  - destruct (sextets_range a b c) as (H1 & H2 & H3 & H4).
    cbn [b64encode all_chars]. cbv zeta.
    rewrite !b64_char_alphabet by assumption. exact IH.
Qed.

Lemma b64encode_length (data : string) :
  Z.of_nat (String.length (b64encode data))
  = 4 * ((Z.of_nat (String.length data) + 2) / 3).
Proof.
  induction data as [|a|a b|a b c rest IH] using string_ind3; try reflexivity.
  cbn [b64encode String.length]. cbv zeta. cbn [String.length].
  rewrite !Nat2Z.inj_succ, IH.
  replace (Z.succ (Z.succ (Z.succ (Z.of_nat (String.length rest)))) + 2)
    with ((Z.of_nat (String.length rest) + 2) + 1 * 3) by lia.
  rewrite Z.div_add by lia. lia.
Qed.

Lemma all_chars_impl (p q : ascii -> bool) (s : string) :
  (forall c, p c = true -> q c = true) ->
  all_chars p s = true -> all_chars q s = true.
Proof.
  intros Hpq. induction s as [|c s IH]; [reflexivity|].
  cbn [all_chars]. intros H. apply andb_prop in H. destruct H as [Hc Hs].
  rewrite (Hpq c Hc), (IH Hs). reflexivity.
Qed.

Lemma count_char_app (c : ascii) (s t : string) :
  count_char c (s ++ t) = (count_char c s + count_char c t)%nat.
Proof.
  induction s as [|c' s IH]; [reflexivity|].
  cbn [append count_char]. rewrite IH. lia.
Qed.

Lemma count_char_safe (s : string) :
  all_chars html_safe s = true -> count_char (chr 34) s = 0%nat.
Proof.
  induction s as [|c s IH]; [reflexivity|].
  cbn [all_chars count_char]. intros H. apply andb_prop in H. destruct H as [Hc Hs].
  rewrite (IH Hs). unfold html_safe in Hc.
  destruct (Ascii.eqb c (chr 34)); [discriminate Hc|reflexivity].
Qed.

(** X20.  [get_audio_base64] raises what the reading of the file raises, and
    otherwise returns four characters for every three bytes of the file,
    rounded up, all of them letters, digits, plus, slash or equal signs;
    so the text put between the quotes of the source attribute holds no
    quote, no angle bracket and no line boundary, and the audio element
    built from it has its four quotes and no other. *)
Theorem get_audio_base64_shape (read_binary : string -> Res string)
  (file_path : string) :
  match read_binary file_path with
  | Raise e => get_audio_base64 read_binary file_path = Raise e
  | Ok data =>
      exists encoded,
        get_audio_base64 read_binary file_path = Ok encoded
        /\ Z.of_nat (String.length encoded)
           = 4 * ((Z.of_nat (String.length data) + 2) / 3)
        /\ all_chars is_b64_char encoded = true
        /\ all_chars html_safe encoded = true
        /\ count_char (chr 34) (audio_html encoded) = 4%nat
  end.
Proof.
  unfold get_audio_base64. destruct (read_binary file_path) as [data|e]; [|reflexivity].
  exists (b64encode data). split; [reflexivity|].
  split; [apply b64encode_length|]. split; [apply b64encode_alphabet|].
  assert (Hsafe : all_chars html_safe (b64encode data) = true).
  { apply (all_chars_impl is_b64_char); [exact b64_char_safe|apply b64encode_alphabet]. }
  split; [exact Hsafe|].
  unfold audio_html. rewrite !count_char_app, (count_char_safe _ Hsafe). reflexivity.
Qed.

Lemma b64_index_char (i : Z) : 0 <= i < 64 -> b64_index (b64_char i) = i.
Proof.
  intros Hi. unfold b64_char.
  destruct (Z.ltb_spec i 26) as [H1|H1].
  { unfold b64_index. cbv zeta. rewrite code_chr by lia.
    assert (E : i = 65 + i - 65) by lia. revert E.
    assert (B : 65 <= 65 + i <= 90) by lia. revert B.
    generalize (65 + i). intros n B E. cases_Z. }
  destruct (Z.ltb_spec i 52) as [H2|H2].
  { unfold b64_index. cbv zeta. rewrite code_chr by lia.
    assert (E : i = 97 + (i - 26) - 71) by lia. revert E.
    assert (B : 97 <= 97 + (i - 26) <= 122) by lia. revert B.
    generalize (97 + (i - 26)). intros n B E. cases_Z. }
  destruct (Z.ltb_spec i 62) as [H3|H3].
  { unfold b64_index. cbv zeta. rewrite code_chr by lia.
    assert (E : i = 48 + (i - 52) + 4) by lia. revert E.
    assert (B : 48 <= 48 + (i - 52) <= 57) by lia. revert B.
    generalize (48 + (i - 52)). intros n B E. cases_Z. }
  destruct (Z.eqb_spec i 62) as [->|H4]; [reflexivity|].
  assert (i = 63) as -> by lia. reflexivity.
Qed.

Lemma b64_char_not_pad (i : Z) : 0 <= i < 64 -> Ascii.eqb (b64_char i) "=" = false.
Proof.
  intros Hi. destruct (Ascii.eqb_spec (b64_char i) "=") as [E|]; [|reflexivity].
  pose proof (b64_index_char i Hi) as H. rewrite E in H.
  change (b64_index "=") with 63 in H. subst i.
  discriminate E.
Qed.

(** The four sextets of three bytes give the three bytes back. *)
Lemma sextets_bytes (x y z : Z) :
  0 <= x < 256 -> 0 <= y < 256 -> 0 <= z < 256 ->
  let n := x * 65536 + y * 256 + z in
  let n' := (n / 262144) * 262144 + ((n / 4096) mod 64) * 4096
            + ((n / 64) mod 64) * 64 + n mod 64 in
  n' = n /\ n / 65536 = x /\ (n / 256) mod 256 = y /\ n mod 256 = z.
Proof.
  intros Hx Hy Hz n n'.
  assert (E1 : n / 65536 = x).
  { unfold n. symmetry. apply (Z.div_unique _ 65536 x (y * 256 + z)); lia. }
  assert (E2 : n / 256 = x * 256 + y).
  { unfold n. symmetry. apply (Z.div_unique _ 256 (x * 256 + y) z); lia. }
  assert (E3 : n mod 256 = z).
  { unfold n. symmetry. apply (Z.mod_unique _ 256 (x * 256 + y) z); lia. }
  assert (E4 : (n / 256) mod 256 = y).
  { rewrite E2. symmetry. apply (Z.mod_unique _ 256 x y); lia. }
  split; [|repeat split; assumption].
  unfold n'.
  pose proof (Z.div_mod n 64 ltac:(lia)) as D1.
  pose proof (Z.div_mod (n / 64) 64 ltac:(lia)) as D2.
  pose proof (Z.div_mod (n / 4096) 64 ltac:(lia)) as D3.
  rewrite Z.div_div in D2 by lia. change (64 * 64) with 4096 in D2.
  rewrite Z.div_div in D3 by lia. change (4096 * 64) with 262144 in D3.
  assert (Hsmall : (n / 262144) mod 64 = n / 262144).
  { apply Z.mod_small. split; [apply Z.div_pos; unfold n; lia|].
    apply Z.div_lt_upper_bound; unfold n; lia. }
  lia.
Qed.

Lemma b64decode_encode (data : string) : b64decode (b64encode data) = data.
Proof.
  induction data as [|a|a b|a b c rest IH] using string_ind3.
  - reflexivity.
  - pose proof (code_range a) as Ha.
    destruct (sextets_bytes (code a) 0 0 Ha ltac:(lia) ltac:(lia)) as (En & E1 & _).
    cbv zeta in En, E1. rewrite !Z.add_0_r in *.
    pose proof (sextets_range a (chr 0) (chr 0)) as R. cbv zeta in R.
    rewrite code_chr in R by lia. rewrite !Z.add_0_r in R.
    destruct R as (R1 & R2 & _).
    cbn [b64encode b64decode]. cbv zeta.
    rewrite !b64_index_char by assumption.
    change (Ascii.eqb "=" "=") with true. cbv iota.
    assert (Z0 : (code a * 65536 / 64) mod 64 = 0).
    { replace (code a * 65536) with (code a * 1024 * 64) by lia.
      rewrite Z.div_mul by lia. replace (code a * 1024) with (code a * 16 * 64) by lia.
      apply Z.mod_mul. lia. }
    assert (Z1 : (code a * 65536) mod 64 = 0).
    { replace (code a * 65536) with (code a * 1024 * 64) by lia. apply Z.mod_mul. lia. }
    rewrite Z0, Z1 in En.
    replace (code a * 65536 / 262144 * 262144 + (code a * 65536 / 4096) mod 64 * 4096)
      with (code a * 65536) by lia.
    rewrite E1, chr_code. reflexivity.
  - pose proof (code_range a) as Ha. pose proof (code_range b) as Hb.
    destruct (sextets_bytes (code a) (code b) 0 Ha Hb ltac:(lia)) as (En & E1 & E2 & _).
    cbv zeta in En, E1, E2. rewrite !Z.add_0_r in *.
    pose proof (sextets_range a b (chr 0)) as R. cbv zeta in R.
    rewrite code_chr in R by lia. rewrite !Z.add_0_r in R.
    destruct R as (R1 & R2 & R3 & _).
    cbn [b64encode b64decode]. cbv zeta.
    rewrite !b64_index_char by assumption.
    rewrite (b64_char_not_pad _ R3).
    change (Ascii.eqb "=" "=") with true. cbv iota.
    assert (Z1 : (code a * 65536 + code b * 256) mod 64 = 0).
    { replace (code a * 65536 + code b * 256) with ((code a * 1024 + code b * 4) * 64) by lia.
      apply Z.mod_mul. lia. }
    rewrite Z1 in En. rewrite Z.add_0_r in En. rewrite En, E1, E2, !chr_code.
    reflexivity.
  - pose proof (code_range a) as Ha. pose proof (code_range b) as Hb.
    pose proof (code_range c) as Hc.
    destruct (sextets_bytes (code a) (code b) (code c) Ha Hb Hc) as (En & E1 & E2 & E3).
    cbv zeta in En, E1, E2, E3.
    destruct (sextets_range a b c) as (R1 & R2 & R3 & R4).
    cbn [b64encode b64decode]. cbv zeta.
    rewrite !b64_index_char by assumption.
    rewrite (b64_char_not_pad _ R3), (b64_char_not_pad _ R4).
    rewrite En, E1, E2, E3, !chr_code, IH. reflexivity.
Qed.

(** X21.  The encoding loses nothing: two files with the same encoding have
    the same bytes, since the bytes can be read back from the encoding four
    characters at a time. *)
Theorem b64encode_injective (data1 data2 : string) :
  b64encode data1 = b64encode data2 -> data1 = data2.
Proof.
  intros H. rewrite <- (b64decode_encode data1), <- (b64decode_encode data2), H.
  reflexivity.
Qed.

Lemma b64encode_injective_witness :
  b64encode "Man" = b64encode (String (chr 77) "an")
  /\ "Man" = String (chr 77) "an".
Proof.
  assert (H : b64encode "Man" = b64encode (String (chr 77) "an")) by reflexivity.
  split; [exact H|].
  apply (b64encode_injective "Man" (String (chr 77) "an") H).
Defined.

(** ** The session *)

Lemma upload_section_result (C : collaborators) (files : list uploaded_file)
  (app : app_state) :
  exists did app' added,
    upload_section C files app = (Ok did, app')
    /\ processed_songs app' = (processed_songs app ++ added)%list.
Proof.
  unfold upload_section. destruct files as [|f files].
  - exists false, app, []. rewrite app_nil_r. split; reflexivity.
  - set (names := map name (processed_songs app)). set (batch := f :: files).
    destruct (upload_loop_ok C names batch false app) as (d & app' & E).
    destruct (upload_loop_songs C names batch false app) as (added & Hs & _).
    rewrite E in Hs. cbn [snd] in Hs.
    exists d, app', added. split; assumption.
Qed.

Lemma upload_section_all_known (C : collaborators) (files : list uploaded_file)
  (app : app_state) :
  new_files (song_names app) files = [] ->
  upload_section C files app = (Ok false, app).
Proof.
  intros H. unfold upload_section. destruct files as [|f files]; [reflexivity|].
  apply (upload_loop_all_known C _ _ false app H).
Qed.

Lemma nth_error_listed {A : Type} (l : list A) (i : nat) :
  (i < List.length l)%nat -> exists x, nth_error l i = Some x.
Proof.
  intros H. destruct (nth_error l i) as [x|] eqn:E; [exists x; reflexivity|].
  apply nth_error_None in E. lia.
Qed.

(** The playlist is rendered when the names are distinct, and refused when
    they are not. *)
Lemma playlist_buttons_distinct (names : list string) : forall shown,
  NoDup (shown ++ names) -> playlist_buttons names shown = Ok (shown ++ names)%list.
Proof.
  induction names as [|n names IH]; intros shown H.
  - rewrite app_nil_r. reflexivity.
  - cbn [playlist_buttons].
    assert (Hn : name_in n shown = false).
    { destruct (name_in n shown) eqn:E; [|reflexivity].
      apply name_in_In in E. apply NoDup_remove_2 in H.
      exfalso. apply H. apply in_or_app. left. exact E. }
    rewrite Hn.
    replace (shown ++ n :: names)%list with ((shown ++ [n]) ++ names)%list in *
      by (rewrite <- app_assoc; reflexivity).
    apply IH. exact H.
Qed.

Lemma playlist_buttons_duplicate (names : list string) : forall shown,
  NoDup shown -> ~ NoDup (shown ++ names) ->
  exists msg, playlist_buttons names shown = Raise (StreamlitAPIException msg).
Proof.
  induction names as [|n names IH]; intros shown Hs H.
  - exfalso. apply H. rewrite app_nil_r. exact Hs.
  - cbn [playlist_buttons]. destruct (name_in n shown) eqn:E.
    + eexists. reflexivity.
    + apply IH.
      * apply NoDup_app; [exact Hs|repeat constructor; intros []|].
        intros x Hx [<-|[]].
        apply name_in_In in Hx. congruence.
      * rewrite <- app_assoc. exact H.
Qed.

Lemma playlist_buttons_no_index_error (names shown : list string) :
  is_index_error (playlist_buttons names shown) = false.
Proof.
  revert shown. induction names as [|n names IH]; intros shown; [reflexivity|].
  cbn [playlist_buttons]. destruct (name_in n shown); [reflexivity|apply IH].
Qed.

(** A pass of the loop raises no [IndexError]: it can only divide by zero or
    be refused by the progress bar. *)
Lemma sync_tick_no_index_error (s : song) (track : list (Q * string))
  (start_time now : Q) :
  is_index_error (sync_tick s track start_time now) = false.
Proof.
  unfold sync_tick, progress, py_truediv.
  destruct (Qeq_bool (duration s) 0); [reflexivity|].
  cbn [bind]. rewrite !clock_label_ok. cbn [bind].
  unfold st_progress.
  destruct ((Qle_bool 0 _ && Qle_bool _ 1) || isclose _ 0 || isclose _ 1)%bool;
    reflexivity.
Qed.

Lemma sync_loop_no_index_error (s : song) (start_time : Q) (clock : list Q) :
  is_index_error (sync_loop s start_time clock) = false.
Proof.
  unfold sync_loop. rewrite parse_lrc_eq. cbn [bind].
  induction clock as [|now later IH]; [reflexivity|].
  cbn [sync_passes].
  pose proof (sync_tick_no_index_error s
                (flat_map line_entries (splitlines (lrc_data s))) start_time now) as Ht.
  destruct (sync_tick s _ start_time now) as [f|e]; [|exact Ht].
  cbn [bind]. destruct (sync_passes s _ start_time later) as [fs|e]; [reflexivity|exact IH].
Qed.

(** A run keeps the index of the current song inside the collection and
    never fails at the lookup of the current song. *)
Lemma run_script_step (C : collaborators) (read_binary : string -> Res string)
  (inp : run_input) (st : session_state) :
  (forall path, is_index_error (read_binary path) = false) ->
  index_valid st -> click_listed (in_click inp) st ->
  is_index_error (fst (run_script C read_binary inp st)) = false
  /\ index_valid (snd (run_script C read_binary inp st))
  /\ exists added,
       processed_songs (session_app (snd (run_script C read_binary inp st)))
       = (processed_songs (session_app st) ++ added)%list.
Proof.
  intros Hread Hv Hc. unfold run_script.
  set (st1 := match in_click inp with SongButton i => set_current_song i st | _ => st end).
  assert (Happ : session_app st1 = session_app st)
    by (unfold st1; destruct (in_click inp); reflexivity).
  assert (Hv1 : index_valid st1).
  { unfold st1. destruct (in_click inp); try exact Hv.
    unfold index_valid, set_current_song.
    cbn [current_song_index session_app]. exact Hc. }
  destruct (upload_section_result C (in_files inp) (session_app st1))
    as (did & app' & added & E & Hs).
  rewrite E. rewrite Happ in Hs.
  assert (Hidx : forall i, current_song_index st1 = Some i ->
                           (i < List.length (processed_songs app'))%nat).
  { intros i Hi. unfold index_valid in Hv1. rewrite Hi, Happ in Hv1.
    rewrite Hs, List.length_app. lia. }
  assert (Hv2 : index_valid (with_app st1 app')).
  { unfold index_valid, with_app. cbn [current_song_index session_app].
    destruct (current_song_index st1) as [i|] eqn:Ei; [|exact I].
    apply Hidx. reflexivity. }
  destruct did.
  - cbn [fst snd]. split; [reflexivity|]. split; [|exists added; exact Hs].
    unfold index_valid, with_app. cbn [emit snd current_song_index session_app processed_songs].
    destruct (current_song_index st1) as [i|] eqn:Ei; [|exact I].
    apply Hidx. reflexivity.
  - unfold playback_section.
    pose proof (playlist_buttons_no_index_error
                  (map name (processed_songs (session_app (with_app st1 app')))) []) as Hp.
    destruct (playlist_buttons _ []) as [buttons|e].
    2:{ cbn [fst snd]. split; [exact Hp|]. split; [exact Hv2|exists added; exact Hs]. }
    cbn [with_app current_song_index session_app sync_started start_time] in *.
    destruct (current_song_index st1) as [i|] eqn:Ei.
    2:{ cbn [fst snd]. split; [reflexivity|]. split; [exact Hv2|exists added; exact Hs]. }
    unfold current_song. change (session_app (with_app st1 app')) with app'.
    destruct (nth_error_listed _ i (Hidx i eq_refl)) as (s & En). rewrite En.
    destruct (sync_started st1).
    + cbn [fst snd]. split; [|split; [exact Hv2|exists added; exact Hs]].
      unfold start_playback, get_audio_base64.
      pose proof (Hread (temp_audio_path s)) as Hr.
      destruct (read_binary (temp_audio_path s)) as [data|e]; [|exact Hr].
      cbn [bind].
      pose proof (sync_loop_no_index_error s (start_time st1) (in_clock inp)) as Hl.
      destruct (sync_loop s (start_time st1) (in_clock inp)) as [frames|e]; [reflexivity|exact Hl].
    + destruct (in_click inp); cbn [fst snd];
        (split; [reflexivity|]); (split; [|exists added; exact Hs]);
        exact Hv2.
Qed.

Lemma run_scripts_cons (C : collaborators) (read_binary : string -> Res string)
  (inp : run_input) (rest : list run_input) (st : session_state) :
  run_scripts C read_binary (inp :: rest) st
  = (fst (run_script C read_binary inp st)
       :: fst (run_scripts C read_binary rest (snd (run_script C read_binary inp st))),
     snd (run_scripts C read_binary rest (snd (run_script C read_binary inp st)))).
Proof.
  cbn [run_scripts]. destruct (run_script C read_binary inp st) as [r st'].
  cbn [fst snd]. destruct (run_scripts C read_binary rest st'). reflexivity.
Qed.

(** X22.  The lookup of the current song never fails: from a session whose
    index lies inside the collection, and so from the initial session, in
    any number of runs of the script, with any uploads and with clicks on
    buttons that are listed when they are pressed, no run raises
    [IndexError] (given that reading a file does not), whatever else a run
    raises; the index stays inside the collection, and the runs only add
    songs at the end of the collection. *)
Theorem run_scripts_safe (C : collaborators) (read_binary : string -> Res string)
  (inputs : list run_input) (st : session_state) :
  (forall path, is_index_error (read_binary path) = false) ->
  index_valid st -> clicks_listed C read_binary inputs st ->
  forallb (fun r => negb (is_index_error r))
    (fst (run_scripts C read_binary inputs st)) = true
  /\ index_valid (snd (run_scripts C read_binary inputs st))
  /\ exists added,
       processed_songs (session_app (snd (run_scripts C read_binary inputs st)))
       = (processed_songs (session_app st) ++ added)%list.
Proof.
  intros Hread. revert st. induction inputs as [|inp inputs IH]; intros st Hv Hc.
  - cbn [run_scripts fst snd forallb]. split; [reflexivity|]. split; [exact Hv|].
    exists []. rewrite app_nil_r. reflexivity.
  - cbn [clicks_listed] in Hc. destruct Hc as [Hc Hrest].
    destruct (run_script_step C read_binary inp st Hread Hv Hc) as (He & Hv1 & a1 & Hs1).
    destruct (IH _ Hv1 Hrest) as (Hall & Hv' & a2 & Hs').
    rewrite run_scripts_cons. cbn [fst snd forallb].
    split; [rewrite He, Hall; reflexivity|]. split; [exact Hv'|].
    exists (a1 ++ a2)%list. rewrite Hs', Hs1, <- app_assoc. reflexivity.
Qed.

Lemma run_scripts_safe_witness :
  let inputs :=
    [RunInput [a_mp3; bad_mp3] NoClick 0 [];
     RunInput [a_mp3; bad_mp3] (SongButton 0) 5 [];
     RunInput [a_mp3; bad_mp3; b_wav] PlayButton 7 [];
     RunInput [a_mp3; bad_mp3; b_wav] PlayButton 8 [];
     RunInput [a_mp3; b_wav] PlayButton 9 [];
     RunInput [a_mp3; b_wav] NoClick 9 [9%Q; 19 # 2]] in
  forallb (fun r => negb (is_index_error r))
    (fst (run_scripts demo demo_read inputs initial_session)) = true
  /\ index_valid (snd (run_scripts demo demo_read inputs initial_session))
  /\ exists added,
       processed_songs (session_app (snd (run_scripts demo demo_read inputs initial_session)))
       = (processed_songs (session_app initial_session) ++ added)%list.
Proof.
  intros inputs.
  apply (run_scripts_safe demo demo_read inputs initial_session).
  - reflexivity.
  - exact I.
  - vm_compute. repeat split. lia.
Defined.

Lemma progress_at_start (song_duration : Q) :
  (0 < song_duration)%Q -> progress 0 song_duration = Ok 0%Q.
Proof.
  intros Hd. rewrite progress_value by exact Hd. reflexivity.
Qed.

Lemma sync_passes_length (s : song) (track : list (Q * string)) (start_time : Q)
  (clock : list Q) (frames : list frame) :
  sync_passes s track start_time clock = Ok frames ->
  List.length frames = List.length clock.
Proof.
  revert frames. induction clock as [|now later IH]; intros frames.
  - cbn [sync_passes]. intros [= <-]. reflexivity.
  - cbn [sync_passes]. destruct (sync_tick s track start_time now) as [f|e]; [|discriminate].
    cbn [bind]. destruct (sync_passes s track start_time later) as [fs|e]; [|discriminate].
    cbn [bind]. intros [= <-]. cbn [List.length]. f_equal. apply IH. reflexivity.
Qed.

(** X23.  Selecting, then playing.  When no file of the uploader is new and
    the names of the songs are distinct, a click on the button of a listed
    song makes it the current song and stops any synchronisation: the run
    shows that song waiting for the play button.  A click on the play button
    at time [now] then starts the synchronisation with [now] as start time
    and asks for a new run.  When the audio file of the song can be read, its
    duration is above 0 and the clock does not go back, that run shows the
    audio element with the encoded file and runs the sync loop for the same
    song, one frame per reading of the clock; a pass of the loop at the
    instant [now] shows a progress of 0 and the lyric current at time 0. *)
Theorem select_then_play (C : collaborators) (read_binary : string -> Res string)
  (files : list uploaded_file) (st : session_state) (i : nat) (s : song)
  (data : string) (t now t' : Q) (clock0 clock : list Q)
  (track : list (Q * string)) :
  new_files (song_names (session_app st)) files = [] ->
  NoDup (song_names (session_app st)) ->
  nth_error (processed_songs (session_app st)) i = Some s ->
  (0 < duration s)%Q ->
  read_binary (temp_audio_path s) = Ok data ->
  Forall (fun reading => (now <= reading)%Q) clock ->
  let st1 := set_current_song i st in
  let st2 := press_play now st1 in
  let buttons := song_names (session_app st) in
  run_script C read_binary (RunInput files (SongButton i) t clock0) st
  = (Ok (Rendered buttons (WaitingForPlay s)), st1)
  /\ sync_started st1 = false
  /\ run_script C read_binary (RunInput files PlayButton now clock0) st1
     = (Ok RunAgain, st2)
  /\ (exists frames,
        run_script C read_binary (RunInput files NoClick t' clock) st2
        = (Ok (Rendered buttons (Syncing s (audio_html (b64encode data)) frames)), st2)
        /\ sync_loop s now clock = Ok frames
        /\ List.length frames = List.length clock)
  /\ exists label html,
       sync_tick s track (start_time st2) now
       = Ok (Frame 0 label (current_lyric 0 track) html).
Proof.
  intros Hknown Hdis Hnth Hd Hread Hclock st1 st2 buttons.
  assert (Hu : upload_section C files (session_app st) = (Ok false, session_app st))
    by (apply upload_section_all_known; exact Hknown).
  assert (Hb : playlist_buttons (map name (processed_songs (session_app st))) []
               = Ok buttons).
  { apply (playlist_buttons_distinct _ []). exact Hdis. }
  split; [|split; [reflexivity|split; [|split]]].
  - unfold run_script. cbn [in_click in_files set_current_song session_app]. rewrite Hu.
    unfold playback_section, current_song.
    cbn [with_app set_current_song press_play current_song_index session_app
           sync_started start_time in_click].
    rewrite Hb, Hnth. reflexivity.
  - unfold run_script, st1. cbn [in_click in_files set_current_song session_app]. rewrite Hu.
    unfold playback_section, current_song.
    cbn [with_app set_current_song press_play current_song_index session_app
           sync_started start_time in_click in_now].
    rewrite Hb, Hnth. reflexivity.
  - destruct (sync_passes_frames s (flat_map line_entries (splitlines (lrc_data s)))
                now clock Hd Hclock) as (frames & E & _).
    assert (El : sync_loop s now clock = Ok frames).
    { unfold sync_loop. rewrite parse_lrc_eq. cbn [bind]. exact E. }
    exists frames. split; [|split; [exact El|apply (sync_passes_length _ _ _ _ _ E)]].
    unfold run_script, st2, st1.
    cbn [in_click in_files press_play set_current_song session_app]. rewrite Hu.
    unfold playback_section, current_song.
    cbn [with_app set_current_song press_play current_song_index session_app
           sync_started start_time in_click in_clock].
    rewrite Hb, Hnth. unfold start_playback, get_audio_base64.
    rewrite Hread. cbn [bind]. rewrite El. reflexivity.
  - unfold st2. cbn [press_play start_time].
    destruct (sync_tick_frame s track now now Hd (Qle_refl now)) as (p & label & Hp & Ht).
    cbv zeta in Hp, Ht.
    assert (E0 : Qred (now - now) = 0%Q).
    { change 0%Q with (Qred 0). apply Qred_complete. ring. }
    rewrite E0 in Hp, Ht. rewrite (progress_at_start _ Hd) in Hp.
    injection Hp as <-. eexists _, _. exact Ht.
Qed.

Lemma select_then_play_witness :
  let st := SessionState (snd (handle_uploads demo [a_mp3; b_wav] empty_session))
              None false 0 in
  let s := Song "b.wav" "/tmp/streamlit_uploads/b.wav" 60
             ("[00:00.00]Hello" ++ newline ++ "[01:05.50]world") in
  run_script demo demo_read (RunInput [a_mp3; b_wav] (SongButton 1) 3 []) st
  = (Ok (Rendered ["a.mp3"; "b.wav"] (WaitingForPlay s)), set_current_song 1 st)
  /\ exists frames,
       run_script demo demo_read (RunInput [a_mp3; b_wav] NoClick 5 [4%Q; 70%Q])
         (press_play 4 (set_current_song 1 st))
       = (Ok (Rendered ["a.mp3"; "b.wav"] (Syncing s (audio_html "TWFu") frames)),
          press_play 4 (set_current_song 1 st))
       /\ sync_loop s 4 [4%Q; 70%Q] = Ok frames
       /\ List.length frames = 2%nat.
Proof.
  intros st s.
  destruct (select_then_play demo demo_read [a_mp3; b_wav] st 1 s "Man" 3 4 5
              [] [4%Q; 70%Q] []) as (H1 & _ & _ & H3 & _).
  - reflexivity.
  - repeat constructor; cbn; intuition discriminate.
  - reflexivity.
  - unfold Qlt; simpl; lia.
  - reflexivity.
  - repeat constructor; unfold Qle; simpl; lia.
  - split; [exact H1|exact H3].
Defined.

(** X25.  Two songs of one name stop the playlist: when no file of the
    uploader is new and two songs of the collection share a name, every run
    of the script raises the error of the user interface at the second of
    the two buttons, before the playback part; the collection is left as it
    was and the current song as the click set it.  The batch with the same
    file twice leads to such a session. *)
Theorem duplicate_names_break_playlist (C : collaborators)
  (read_binary : string -> Res string) (inp : run_input) (st : session_state) :
  new_files (song_names (session_app st)) (in_files inp) = [] ->
  ~ NoDup (song_names (session_app st)) ->
  exists msg st',
    run_script C read_binary inp st = (Raise (StreamlitAPIException msg), st')
    /\ session_app st' = session_app st
    /\ current_song_index st' = match in_click inp with
                                | SongButton i => Some i
                                | _ => current_song_index st
                                end.
Proof.
  intros Hknown Hdup. unfold run_script.
  set (st1 := match in_click inp with SongButton i => set_current_song i st | _ => st end).
  assert (Happ : session_app st1 = session_app st)
    by (unfold st1; destruct (in_click inp); reflexivity).
  rewrite Happ, (upload_section_all_known C _ _ Hknown).
  unfold playback_section. cbn [with_app session_app].
  destruct (playlist_buttons_duplicate (map name (processed_songs (session_app st))) [])
    as (msg & E); [constructor|exact Hdup|].
  rewrite E. exists msg. eexists. split; [reflexivity|].
  split; [reflexivity|].
  unfold st1. destruct (in_click inp); reflexivity.
Qed.

Lemma duplicate_names_break_playlist_witness :
  let st := SessionState (snd (handle_uploads demo [a_mp3; a_mp3] empty_session))
              None false 0 in
  song_names (session_app st) = ["a.mp3"; "a.mp3"]
  /\ exists msg st',
       run_script demo demo_read (RunInput [a_mp3; a_mp3] NoClick 0 []) st
       = (Raise (StreamlitAPIException msg), st')
       /\ session_app st' = session_app st.
Proof.
  intros st. split; [reflexivity|].
  destruct (duplicate_names_break_playlist demo demo_read
              (RunInput [a_mp3; a_mp3] NoClick 0 []) st) as (msg & st' & E & Ha & _).
  - reflexivity.
  - intros H. inversion H as [|? ? Hn _]. apply Hn. left. reflexivity.
  - exists msg, st'. split; [exact E|exact Ha].
Defined.
